(** * Web-to-lead form validation: a shallow embedding

    The repository holds two variants of one client-side script:
    [function.js] (CSS-class based field state, debounced e-mail check) and a
    second, file-name-less script (inline-style based field state).  Both are
    embedded here: the three validators are textually identical in the two
    scripts and are modelled once; the form orchestration is modelled per
    script in the modules [FunctionJs] and [InlineStyle]. *)

From Stdlib Require Import ZArith NArith List String Ascii Bool Lia.
From stdpp Require Import base option list gmap.
Import ListNotations.

Local Open Scope N_scope.

(** ** JavaScript strings

    A JavaScript string is a sequence of UTF-16 code units.  [String.length],
    [trim], [startsWith] and non-unicode regular expressions all work on code
    units, so that is the representation used. *)

Abbreviation jsstring := (list N).

(** A literal of the source, given as a Rocq string of ASCII characters. *)
Definition lit (s : string) : jsstring :=
  map N_of_ascii (list_ascii_of_string s).
Arguments lit : simpl never.

(** ECMAScript WhiteSpace and LineTerminator code points: what [trim] strips
    and what the class escape [\s] matches. *)
Definition isWhiteSpace (c : N) : bool :=
  (9 <=? c) && (c <=? 13)
  || (c =? 32) || (c =? 160) || (c =? 5760)
  || (8192 <=? c) && (c <=? 8202)
  || (c =? 8232) || (c =? 8233) || (c =? 8239) || (c =? 8287)
  || (c =? 12288) || (c =? 65279).

(** [\d] without the unicode flag: the ten ASCII digits. *)
Definition isDigit (c : N) : bool := (48 <=? c) && (c <=? 57).

Fixpoint trimStart (s : jsstring) : jsstring :=
  match s with
  | c :: s' => if isWhiteSpace c then trimStart s' else s
  | [] => []
  end.

Definition trimEnd (s : jsstring) : jsstring := rev (trimStart (rev s)).

(** [String.prototype.trim] *)
Definition trim (s : jsstring) : jsstring := trimEnd (trimStart s).

(** Truthiness of a string: [!value] holds exactly for the empty string. *)
Definition truthy (s : jsstring) : bool :=
  match s with [] => false | _ => true end.

Fixpoint startsWith (s p : jsstring) : bool :=
  match p, s with
  | [], _ => true
  | a :: p', b :: s' => (a =? b) && startsWith s' p'
  | _ :: _, [] => false
  end.

Fixpoint jsstring_eqb (s t : jsstring) : bool :=
  match s, t with
  | [], [] => true
  | a :: s', b :: t' => (a =? b) && jsstring_eqb s' t'
  | _, _ => false
  end.

(** ** Regular expressions

    The syntax covers what the three literals of the scripts use: character
    classes with escapes, concatenation and [+].  Matching is by Brzozowski
    derivatives; [RegExp_test] is [RegExp.prototype.test] for a literal of
    the shape [/^body$/] without flags, i.e. a match of the whole string. *)
Module Regex.

Inductive class_item : Type :=
| CChar (c : N)            (* a literal or escaped character: [@], [\-] *)
| CDigit                   (* [\d] *)
| CSpace.                  (* [\s] *)

Definition item_matches (i : class_item) (c : N) : bool :=
  match i with
  | CChar a => a =? c
  | CDigit => isDigit c
  | CSpace => isWhiteSpace c
  end.

Definition class_matches (items : list class_item) (c : N) : bool :=
  existsb (fun i => item_matches i c) items.

Inductive regex : Type :=
| Empty                                   (* matches nothing *)
| Eps                                     (* matches the empty string *)
| Chr (c : N)                             (* [@], [\.] *)
| Class (items : list class_item)         (* [[...]] *)
| NotClass (items : list class_item)      (* [[^...]] *)
| Seq (r1 r2 : regex)
| Alt (r1 r2 : regex)
| Star (r : regex)
| Plus (r : regex).                       (* [r+] *)

Fixpoint nullable (r : regex) : bool :=
  match r with
  | Empty => false
  | Eps => true
  | Chr _ | Class _ | NotClass _ => false
  | Seq r1 r2 => nullable r1 && nullable r2
  | Alt r1 r2 => nullable r1 || nullable r2
  | Star _ => true
  | Plus r => nullable r
  end.

Fixpoint deriv (c : N) (r : regex) : regex :=
  match r with
  | Empty | Eps => Empty
  | Chr a => if a =? c then Eps else Empty
  | Class items => if class_matches items c then Eps else Empty
  | NotClass items => if class_matches items c then Empty else Eps
  | Seq r1 r2 =>
      if nullable r1
      then Alt (Seq (deriv c r1) r2) (deriv c r2)
      else Seq (deriv c r1) r2
  | Alt r1 r2 => Alt (deriv c r1) (deriv c r2)
  | Star r => Seq (deriv c r) (Star r)
  | Plus r => Seq (deriv c r) (Star r)
  end.

Fixpoint matches (r : regex) (s : jsstring) : bool :=
  match s with
  | [] => nullable r
  | c :: s' => matches (deriv c r) s'
  end.

(** The language of a regular expression, as a relation. *)
Inductive lang : regex -> jsstring -> Prop :=
| L_Eps : lang Eps []
| L_Chr c : lang (Chr c) [c]
| L_Class items c :
    class_matches items c = true -> lang (Class items) [c]
| L_NotClass items c :
    class_matches items c = false -> lang (NotClass items) [c]
| L_Seq r1 r2 s1 s2 :
    lang r1 s1 -> lang r2 s2 -> lang (Seq r1 r2) (s1 ++ s2)
| L_AltL r1 r2 s : lang r1 s -> lang (Alt r1 r2) s
| L_AltR r1 r2 s : lang r2 s -> lang (Alt r1 r2) s
| L_StarNil r : lang (Star r) []
| L_StarCons r s1 s2 :
    lang r s1 -> lang (Star r) s2 -> lang (Star r) (s1 ++ s2)
| L_Plus r s1 s2 :
    lang r s1 -> lang (Star r) s2 -> lang (Plus r) (s1 ++ s2).

End Regex.

Import Regex.

(** [regex.test(s)] for a literal [/^body$/]. *)
Definition RegExp_test (body : regex) (s : jsstring) : bool := matches body s.

(** [s.replace(/[items]/g, '')]: every code unit matched by the class is
    replaced by the empty string; the others stay, in order. *)
Definition replace_class_global_empty
    (items : list class_item) (s : jsstring) : jsstring :=
  filter (fun c => class_matches items c = false) s.

(** ** The validators (identical in both scripts) *)

(** [/^[^\s@]+@[^\s@]+\.[^\s@]+$/] *)
Definition emailRegex : regex :=
  Seq (Plus (NotClass [CSpace; CChar 64]))
   (Seq (Chr 64)
    (Seq (Plus (NotClass [CSpace; CChar 64]))
     (Seq (Chr 46)
          (Plus (NotClass [CSpace; CChar 64]))))).

Definition isValidEmail (email : jsstring) : bool :=
  RegExp_test emailRegex email.

(** [/^[\d\s\-\(\)\+]+$/] *)
Definition phoneClass : list class_item :=
  [CDigit; CSpace; CChar 45; CChar 40; CChar 41; CChar 43].

Definition phoneRegex : regex := Plus (Class phoneClass).

(** [/[\s\-\(\)]/g] *)
Definition cleanClass : list class_item :=
  [CSpace; CChar 45; CChar 40; CChar 41].

Definition isValidPhone (phone : jsstring) : bool :=
  let cleanPhone := replace_class_global_empty cleanClass phone in
  RegExp_test phoneRegex phone && (10 <=? N.of_nat (length cleanPhone)).


(** ** The platform's URL constructor

    [new URL(s)] is a browser built-in, not code of the repository.  It is
    modelled after the basic URL parser of the WHATWG URL Standard, called
    without a base URL: the model decides whether parsing fails (the
    constructor throws) and, when it succeeds, which scheme the URL has; the
    scripts observe nothing else.  Path, query and fragment never make the
    parser fail and are not represented.

    The host of a special scheme is percent-decoded and decoded as UTF-8,
    as the Standard has it.  Domain-to-ASCII is modelled as ASCII
    lower-casing, which is what the Standard prescribes for an ASCII domain
    none of whose labels starts with "xn--".  Of the Unicode tables used
    for other domains the model has three facts: U+FFFD, which stands for
    every byte sequence that is not UTF-8 and for every unpaired surrogate,
    is disallowed; the white space above U+007F is disallowed or mapped to
    U+0020, a forbidden code point, except for U+FEFF, which is ignored.
    Any other code point above U+007F is taken as valid and as mapped to
    itself, and a label that starts with "xn--" is not decoded: on such
    hosts the model may accept where the constructor throws. *)
Module URL.

Record t : Type := { scheme : jsstring }.

(** The [protocol] getter: the scheme followed by a colon. *)
Definition protocol (u : t) : jsstring := scheme u ++ [58].

Definition isAsciiAlpha (c : N) : bool :=
  (65 <=? c) && (c <=? 90) || (97 <=? c) && (c <=? 122).
Definition isAsciiAlnum (c : N) : bool := isDigit c || isAsciiAlpha c.
Definition isHexDigit (c : N) : bool :=
  isDigit c || (65 <=? c) && (c <=? 70) || (97 <=? c) && (c <=? 102).
Definition toLower (c : N) : N :=
  if (65 <=? c) && (c <=? 90) then c + 32 else c.
Definition hexValue (c : N) : N :=
  if isDigit c then c - 48
  else if (65 <=? c) && (c <=? 70) then c - 55 else c - 87.

Definition isC0OrSpace (c : N) : bool := c <=? 32.
Definition isTabOrNewline (c : N) : bool :=
  (c =? 9) || (c =? 10) || (c =? 13).

Definition isSpecial (sch : jsstring) : bool :=
  existsb (fun s => jsstring_eqb sch (lit s))
          ["ftp"; "file"; "http"; "https"; "ws"; "wss"]%string.

Definition isForbiddenHost (c : N) : bool :=
  existsb (N.eqb c) [0; 9; 10; 13; 32; 35; 47; 58; 60; 62; 63; 64;
                     91; 92; 93; 94; 124].
Definition isForbiddenDomain (c : N) : bool :=
  isForbiddenHost c || (c <=? 31) || (c =? 37) || (c =? 127).

(** Strict split of a string on a delimiter: never the empty list. *)
Fixpoint split_on (d : N) (s : jsstring) : list jsstring :=
  match s with
  | [] => [[]]
  | c :: s' =>
      if c =? d then [] :: split_on d s'
      else match split_on d s' with
           | h :: t => (c :: h) :: t
           | [] => [[c]]
           end
  end.

(** Percent-decode of a byte sequence. *)
Fixpoint percent_decode (s : list N) : list N :=
  match s with
  | 37 :: ((h :: l :: s'') as s') =>
      if isHexDigit h && isHexDigit l
      then (16 * hexValue h + hexValue l) :: percent_decode s''
      else 37 :: percent_decode s'
  | c :: s' => c :: percent_decode s'
  | [] => []
  end.

(** *** IPv4 *)

Definition digitInRadix (r c : N) : bool :=
  if r =? 16 then isHexDigit c
  else if r =? 10 then isDigit c
  else (48 <=? c) && (c <=? 55).

Definition numberInRadix (r : N) (s : jsstring) : N :=
  fold_left (fun acc c => acc * r + hexValue c) s 0.

Definition parseIPv4Number (s : jsstring) : option N :=
  match s with
  | [] => None
  | 48 :: x :: s' =>
      if (x =? 120) || (x =? 88)
      then if forallb (digitInRadix 16) s'
           then Some (numberInRadix 16 s') else None
      else if forallb (digitInRadix 8) (x :: s')
           then Some (numberInRadix 8 (x :: s')) else None
  | _ => if forallb (digitInRadix 10) s
         then Some (numberInRadix 10 s) else None
  end.

(** The parts of a dotted host, a single trailing empty part removed. *)
Definition dropTrailingEmpty (parts : list jsstring) : list jsstring :=
  match rev parts with
  | [] :: ((_ :: _) as r) => rev r
  | _ => parts
  end.

Definition endsInANumber (s : jsstring) : bool :=
  let parts := split_on 46 s in
  match rev parts with
  | [[]] => false
  | [] :: l :: _ | l :: _ =>
      truthy l && forallb isDigit l
      || match parseIPv4Number l with Some _ => true | None => false end
  | [] => false
  end.

Fixpoint allButLastBelow256 (ns : list N) : bool :=
  match ns with
  | [] | [_] => true
  | n :: ns' => (n <=? 255) && allButLastBelow256 ns'
  end.

Definition parseIPv4 (s : jsstring) : bool :=
  let parts := dropTrailingEmpty (split_on 46 s) in
  if 4 <? N.of_nat (length parts) then false
  else
    match mapM parseIPv4Number parts with
    | None => false
    | Some numbers =>
        allButLastBelow256 numbers
        && match last numbers with
           | Some n => n <? 256 ^ (5 - N.of_nat (length numbers))
           | None => true
           end
    end.

(** *** IPv6

    Only success or failure of the IPv6 parser is tracked: the piece
    index, the position of the compression and the input left to read. *)

Fixpoint takeHex (n : nat) (s : jsstring) : nat * jsstring :=
  match n, s with
  | S n', c :: s' =>
      if isHexDigit c
      then let '(k, r) := takeHex n' s' in (S k, r)
      else (O, s)
  | _, _ => (O, s)
  end.

(** One decimal piece of an embedded IPv4 address: digits are read while
    the value stays below 256 and has no leading zero. *)
Fixpoint ipv4Piece (piece : option N) (s : jsstring)
    : option (option N * jsstring) :=
  match s with
  | c :: s' =>
      if isDigit c then
        match piece with
        | None => ipv4Piece (Some (c - 48)) s'
        | Some 0 => None
        | Some p =>
            let p' := p * 10 + (c - 48) in
            if 255 <? p' then None else ipv4Piece (Some p') s'
        end
      else Some (piece, s)
  | [] => Some (piece, s)
  end.

Fixpoint ipv4InIPv6 (fuel : nat) (numbersSeen : nat) (s : jsstring) : bool :=
  match fuel with
  | O => false
  | S fuel' =>
      match s with
      | [] => Nat.eqb numbersSeen 4
      | c :: s' =>
          let afterDot :=
            if Nat.ltb 0 numbersSeen
            then if (c =? 46) && Nat.ltb numbersSeen 4
                 then Some s' else None
            else Some s in
          match afterDot with
          | None => false
          | Some [] => false
          | Some ((d :: _) as s1) =>
              if isDigit d then
                match ipv4Piece None s1 with
                | Some (_, s2) => ipv4InIPv6 fuel' (S numbersSeen) s2
                | None => false
                end
              else false
          end
      end
  end.

Fixpoint ipv6Pieces (fuel : nat) (pieceIndex : nat) (compress : bool)
    (s : jsstring) : bool :=
  match fuel with
  | O => false
  | S fuel' =>
      match s with
      | [] => compress || Nat.eqb pieceIndex 8
      | c :: s' =>
          if Nat.eqb pieceIndex 8 then false
          else if c =? 58 then
            if compress then false
            else ipv6Pieces fuel' (S pieceIndex) true s'
          else
            let '(len, s1) := takeHex 4 s in
            match s1 with
            | [] => compress || Nat.eqb (S pieceIndex) 8
            | 46 :: _ =>
                if Nat.eqb len 0 then false
                else if Nat.ltb 6 pieceIndex then false
                else ipv4InIPv6 (S (length s)) 0 s
                     && (compress || Nat.eqb (pieceIndex + 2) 8)
            | 58 :: s2 =>
                match s2 with
                | [] => false
                | _ => ipv6Pieces fuel' (S pieceIndex) compress s2
                end
            | _ => false
            end
      end
  end.

Definition parseIPv6 (s : jsstring) : bool :=
  match s with
  | 58 :: 58 :: s' => ipv6Pieces (S (length s)) 1 true s'
  | 58 :: _ => false
  | _ => ipv6Pieces (S (length s)) 0 false s
  end.

(** *** The domain as code points *)

(** The UTF-8 bytes of a code point. *)
Definition utf8Bytes (cp : N) : list N :=
  if cp <? 128 then [cp]
  else if cp <? 2048 then [192 + cp / 64; 128 + cp mod 64]
  else if cp <? 65536
  then [224 + cp / 4096; 128 + (cp / 64) mod 64; 128 + cp mod 64]
  else [240 + cp / 262144; 128 + (cp / 4096) mod 64;
        128 + (cp / 64) mod 64; 128 + cp mod 64].

Definition isLeadSurrogate (c : N) : bool := (55296 <=? c) && (c <=? 56319).
Definition isTrailSurrogate (c : N) : bool := (56320 <=? c) && (c <=? 57343).

(** UTF-8 encode of a string of UTF-16 code units: a surrogate pair is one
    code point, a surrogate outside a pair becomes U+FFFD. *)
Fixpoint utf8Encode (s : jsstring) : list N :=
  match s with
  | h :: ((l :: s'') as s') =>
      if isLeadSurrogate h && isTrailSurrogate l
      then utf8Bytes (65536 + (h - 55296) * 1024 + (l - 56320))
           ++ utf8Encode s''
      else if isLeadSurrogate h || isTrailSurrogate h
      then utf8Bytes 65533 ++ utf8Encode s'
      else utf8Bytes h ++ utf8Encode s'
  | [c] =>
      if isLeadSurrogate c || isTrailSurrogate c then utf8Bytes 65533
      else utf8Bytes c
  | [] => []
  end.

Definition inRange (lo hi b : N) : bool := (lo <=? b) && (b <=? hi).

(** UTF-8 decode of a byte sequence; [None] when the bytes are not UTF-8,
    where the decoder of the Standard puts U+FFFD. *)
Fixpoint utf8Decode (bytes : list N) : option (list N) :=
  match bytes with
  | [] => Some []
  | b :: r =>
      if b <? 128 then option_map (cons b) (utf8Decode r)
      else if inRange 194 223 b then
        match r with
        | c1 :: r1 =>
            if inRange 128 191 c1
            then option_map (cons ((b - 192) * 64 + (c1 - 128)))
                            (utf8Decode r1)
            else None
        | _ => None
        end
      else if inRange 224 239 b then
        match r with
        | c1 :: c2 :: r2 =>
            if inRange (if b =? 224 then 160 else 128)
                       (if b =? 237 then 159 else 191) c1
               && inRange 128 191 c2
            then option_map
                   (cons ((b - 224) * 4096 + (c1 - 128) * 64 + (c2 - 128)))
                   (utf8Decode r2)
            else None
        | _ => None
        end
      else if inRange 240 244 b then
        match r with
        | c1 :: c2 :: c3 :: r3 =>
            if inRange (if b =? 240 then 144 else 128)
                       (if b =? 244 then 143 else 191) c1
               && inRange 128 191 c2 && inRange 128 191 c3
            then option_map
                   (cons ((b - 240) * 262144 + (c1 - 128) * 4096
                          + (c2 - 128) * 64 + (c3 - 128)))
                   (utf8Decode r3)
            else None
        | _ => None
        end
      else None
  end.

(** Domain to ASCII; [None] is failure. *)
Definition domainToASCII (domain : list N) : option jsstring :=
  if existsb (fun c => (c =? 65533)
                       || (128 <=? c) && isWhiteSpace c && negb (c =? 65279))
             domain
  then None
  else Some (map toLower (filter (fun c => (c =? 65279) = false) domain)).

(** *** Hosts *)

Definition parseHost (input : jsstring) (isOpaque : bool) : bool :=
  match input with
  | 91 :: rest =>
      match rev rest with
      | 93 :: inner => parseIPv6 (rev inner)
      | _ => false
      end
  | _ =>
      if isOpaque then negb (existsb isForbiddenHost input)
      else
        match utf8Decode (percent_decode (utf8Encode input)) with
        | None => false
        | Some domain =>
            match domainToASCII domain with
            | None => false
            | Some asciiDomain =>
                truthy asciiDomain
                && negb (existsb isForbiddenDomain asciiDomain)
                && (if endsInANumber asciiDomain then parseIPv4 asciiDomain
                    else true)
            end
        end
  end.

(** The part of the authority after its last [@]; [None] without [@]. *)
Fixpoint afterLastAt (s : jsstring) : option jsstring :=
  match s with
  | [] => None
  | c :: s' =>
      match afterLastAt s' with
      | Some r => Some r
      | None => if c =? 64 then Some s' else None
      end
  end.

(** Host state: the buffer up to the first colon outside brackets, and
    what follows that colon if there is one. *)
Fixpoint splitHostPort (insideBrackets : bool) (s : jsstring)
    : jsstring * option jsstring :=
  match s with
  | [] => ([], None)
  | c :: s' =>
      if (c =? 58) && negb insideBrackets then ([], Some s')
      else
        let inside :=
          if c =? 91 then true
          else if c =? 93 then false else insideBrackets in
        let '(h, p) := splitHostPort inside s' in (c :: h, p)
  end.

Definition parsePort (s : jsstring) : bool :=
  forallb isDigit s
  && (negb (truthy s) || (numberInRadix 10 s <=? 65535)).

Definition isAuthorityEnd (special : bool) (c : N) : bool :=
  (c =? 47) || (c =? 63) || (c =? 35) || special && (c =? 92).

Fixpoint takeAuthority (special : bool) (s : jsstring) : jsstring :=
  match s with
  | c :: s' =>
      if isAuthorityEnd special c then []
      else c :: takeAuthority special s'
  | [] => []
  end.

(** Authority, host and port states. *)
Definition parseAuthority (special : bool) (s : jsstring) : bool :=
  let authority := takeAuthority special s in
  let hostport :=
    match afterLastAt authority with
    | Some r => if truthy r then Some r else None
    | None => Some authority
    end in
  match hostport with
  | None => false
  | Some hp =>
      match splitHostPort false hp with
      | (buffer, Some port) =>
          truthy buffer && parseHost buffer (negb special)
          && parsePort port
      | (buffer, None) =>
          if special && negb (truthy buffer) then false
          else parseHost buffer (negb special)
      end
  end.

Fixpoint dropSlashes (s : jsstring) : jsstring :=
  match s with
  | c :: s' => if (c =? 47) || (c =? 92) then dropSlashes s' else s
  | [] => []
  end.

(** File, file slash and file host states. *)
Definition parseFile (s : jsstring) : bool :=
  match s with
  | a :: b :: s' =>
      if ((a =? 47) || (a =? 92)) && ((b =? 47) || (b =? 92)) then
        let buffer := takeAuthority true s' in
        match buffer with
        | [] => true
        | [x; y] =>
            if isAsciiAlpha x && ((y =? 58) || (y =? 124)) then true
            else parseHost buffer false
        | _ => parseHost buffer false
        end
      else true
  | _ => true
  end.

(** Scheme start and scheme states: the lower-cased scheme and what
    follows its colon. *)
Fixpoint schemeState (buffer : jsstring) (s : jsstring)
    : option (jsstring * jsstring) :=
  match s with
  | c :: s' =>
      if isAsciiAlnum c || (c =? 43) || (c =? 45) || (c =? 46)
      then schemeState (buffer ++ [toLower c]) s'
      else if c =? 58 then Some (buffer, s') else None
  | [] => None
  end.

Fixpoint dropWhileC0 (s : jsstring) : jsstring :=
  match s with
  | c :: s' => if isC0OrSpace c then dropWhileC0 s' else s
  | [] => []
  end.

Definition stripInput (input : jsstring) : jsstring :=
  let trimmed :=
    rev (dropWhileC0 (rev (dropWhileC0 input)))
  in filter (fun c => isTabOrNewline c = false) trimmed.

(** The basic URL parser without a base URL. *)
Definition parse (input : jsstring) : option t :=
  match stripInput input with
  | c :: s =>
      if isAsciiAlpha c then
        match schemeState [toLower c] s with
        | Some (sch, rest) =>
            let ok :=
              if jsstring_eqb sch (lit "file") then parseFile rest
              else if isSpecial sch
              then parseAuthority true (dropSlashes rest)
              else match rest with
                   | 47 :: 47 :: r => parseAuthority false r
                   | _ => true
                   end in
            if ok then Some {| scheme := sch |} else None
        | None => None
        end
      else None
  | [] => None
  end.

End URL.

(** ** [isValidURL] (identical in both scripts)

    A [try]/[catch] around [new URL] becomes a match on the parser's result.
    [isValidURL_run] also returns the arguments that were passed to the
    constructor, in call order. *)
Definition isValidURL_run (url : jsstring) : list jsstring * bool :=
  match URL.parse url with
  | Some urlObj =>
      ([url],
       jsstring_eqb (URL.protocol urlObj) (lit "http:")
       || jsstring_eqb (URL.protocol urlObj) (lit "https:"))
  | None =>
      if negb (startsWith url (lit "http")) then
        match URL.parse (lit "https://" ++ url) with
        | Some _ => ([url; lit "https://" ++ url], true)
        | None => ([url; lit "https://" ++ url], false)
        end
      else ([url], false)
  end.

Definition isValidURL (url : jsstring) : bool := snd (isValidURL_run url).

(** The constructor calls made by [isValidURL]. *)
Definition URL_attempts (url : jsstring) : list jsstring :=
  fst (isValidURL_run url).

(** ** The document

    What the scripts read and write: the named controls of the form in
    document order, the [.error-message] element each parent element offers
    to [parentElement.querySelector], the [#form-messages] box, the submit
    button, and which control has the focus or was scrolled to.

    A parent's [.error-message] element is kept under the parent's
    identity: two controls with the same parent share it, and the look-ups
    of different parents find different elements.  On a page where one
    parent lies inside another the look-ups of both may reach one element;
    what such an element reads after controls of both parents were updated
    is outside this model.  The statements below on the text of an
    [.error-message] element are therefore made for the look-up of one
    control right after that control was updated, or for updates of one
    control only. *)

Record element : Type := {
  name : jsstring;
  type : jsstring;
  required : bool;                  (* hasAttribute('required') *)
  value : jsstring;
  classList : list jsstring;
  parentElement : nat;              (* identity of the parent element *)
  labelText : option jsstring;      (* label of the closest .form-group *)
  borderColor : jsstring;           (* style.borderColor *)
  backgroundColor : jsstring        (* style.backgroundColor *)
}.

Record messageBox : Type := {
  textContent : jsstring;
  className : jsstring;
  display : jsstring
}.

Record button : Type := {
  buttonClassList : list jsstring;
  disabled : bool;
  btnText : option jsstring;        (* display of .btn-text, if present *)
  btnLoader : option jsstring       (* display of .btn-loader, if present *)
}.

Inductive target : Type :=
| TField (i : nat)
| TMessages.

Record dom : Type := {
  fields : list element;
  errorSpans : gmap nat jsstring;   (* parent ↦ text of its .error-message *)
  formMessages : option messageBox;
  submitButton : option button;
  focused : option nat;              (* the control that has the focus *)
  scrolledTo : option target
}.

Definition set_classList (f : list jsstring -> list jsstring) (e : element)
    : element :=
  {| name := name e; type := type e; required := required e;
     value := value e; classList := f (classList e);
     parentElement := parentElement e; labelText := labelText e;
     borderColor := borderColor e; backgroundColor := backgroundColor e |}.

Definition set_style (border background : jsstring) (e : element) : element :=
  {| name := name e; type := type e; required := required e;
     value := value e; classList := classList e;
     parentElement := parentElement e; labelText := labelText e;
     borderColor := border; backgroundColor := background |}.

Definition set_value (v : jsstring) (e : element) : element :=
  {| name := name e; type := type e; required := required e;
     value := v; classList := classList e;
     parentElement := parentElement e; labelText := labelText e;
     borderColor := borderColor e; backgroundColor := backgroundColor e |}.

Definition with_fields (fs : list element) (d : dom) : dom :=
  {| fields := fs; errorSpans := errorSpans d;
     formMessages := formMessages d; submitButton := submitButton d;
     focused := focused d; scrolledTo := scrolledTo d |}.

Definition with_errorSpans (m : gmap nat jsstring) (d : dom) : dom :=
  {| fields := fields d; errorSpans := m;
     formMessages := formMessages d; submitButton := submitButton d;
     focused := focused d; scrolledTo := scrolledTo d |}.

Definition with_formMessages (b : option messageBox) (d : dom) : dom :=
  {| fields := fields d; errorSpans := errorSpans d;
     formMessages := b; submitButton := submitButton d;
     focused := focused d; scrolledTo := scrolledTo d |}.

Definition with_submitButton (b : option button) (d : dom) : dom :=
  {| fields := fields d; errorSpans := errorSpans d;
     formMessages := formMessages d; submitButton := b;
     focused := focused d; scrolledTo := scrolledTo d |}.

(** The focus moved to control [i] and nothing else: the last step of
    [focus()], whose blur event is in [focus] of each script. *)
Definition with_focus (i : nat) (d : dom) : dom :=
  {| fields := fields d; errorSpans := errorSpans d;
     formMessages := formMessages d; submitButton := submitButton d;
     focused := Some i; scrolledTo := scrolledTo d |}.

Definition with_scroll (t : target) (d : dom) : dom :=
  {| fields := fields d; errorSpans := errorSpans d;
     formMessages := formMessages d; submitButton := submitButton d;
     focused := focused d; scrolledTo := Some t |}.

(** [DOMTokenList]: an ordered set of tokens. *)
Definition classList_contains (c : jsstring) (l : list jsstring) : bool :=
  bool_decide (c ∈ l).
Definition classList_add (c : jsstring) (l : list jsstring) : list jsstring :=
  if classList_contains c l then l else l ++ [c].
Definition classList_remove (c : jsstring) (l : list jsstring)
    : list jsstring :=
  filter (fun x => x ≠ c) l.

(** First element of a list satisfying a test, with its position. *)
Fixpoint findFrom (P : element -> bool) (i : nat) (l : list element)
    : option nat :=
  match l with
  | [] => None
  | e :: l' => if P e then Some i else findFrom P (S i) l'
  end.

(** [form.querySelector('[name="n"]')] *)
Definition querySelectorName (n : jsstring) (d : dom) : option nat :=
  findFrom (fun e => jsstring_eqb (name e) n) 0 (fields d).

(** [form.querySelector('.c')] *)
Definition querySelectorClass (c : jsstring) (d : dom) : option nat :=
  findFrom (fun e => classList_contains c (classList e)) 0 (fields d).

(** The value of a control; the empty string stands in for a reference
    that does not point into the document, which the scripts never hold. *)
Definition valueOf (i : nat) (d : dom) : jsstring :=
  match fields d !! i with Some e => value e | None => [] end.

Definition hasClass (c : jsstring) (i : nat) (d : dom) : bool :=
  match fields d !! i with
  | Some e => classList_contains c (classList e)
  | None => false
  end.

(** The text of the [.error-message] a control's parent offers, if any. *)
Definition errorSpanOf (i : nat) (d : dom) : option jsstring :=
  match fields d !! i with
  | Some e => errorSpans d !! parentElement e
  | None => None
  end.

(** [errorSpan.textContent = message], when the parent has such a span. *)
Definition writeErrorSpan (i : nat) (message : jsstring) (d : dom) : dom :=
  match fields d !! i with
  | Some e =>
      match errorSpans d !! parentElement e with
      | Some _ =>
          with_errorSpans (<[parentElement e := message]> (errorSpans d)) d
      | None => d
      end
  | None => d
  end.

(** An attribute of a control, by reference. *)
Definition attrOf (f : element -> jsstring) (i : nat) (d : dom) : jsstring :=
  match fields d !! i with Some e => f e | None => [] end.

Definition isRequired (i : nat) (d : dom) : bool :=
  match fields d !! i with Some e => required e | None => false end.

(** A submit event, as far as the handlers use it. *)
Record event : Type := { defaultPrevented : bool }.

Definition preventDefault (e : event) : event := {| defaultPrevented := true |}.

(** ** [function.js] *)
Module FunctionJs.

(** [setFieldError(field, message)] *)
Definition setFieldError (field : nat) (message : jsstring) (d : dom) : dom :=
  let d1 :=
    with_fields
      (alter (set_classList (fun l =>
                classList_remove (lit "valid")
                  (classList_add (lit "invalid") l)))
             field (fields d)) d in
  writeErrorSpan field message d1.

(** [clearFieldError(field)] *)
Definition clearFieldError (field : nat) (d : dom) : dom :=
  let d1 :=
    with_fields
      (alter (set_classList (classList_remove (lit "invalid")))
             field (fields d)) d in
  let d2 :=
    if truthy (trim (valueOf field d1))
    then with_fields
           (alter (set_classList (classList_add (lit "valid")))
                  field (fields d1)) d1
    else with_fields
           (alter (set_classList (classList_remove (lit "valid")))
                  field (fields d1)) d1 in
  writeErrorSpan field [] d2.

(** [showMessage(messageElement, type, message)] on [#form-messages] *)
Definition showMessage (type message : jsstring) (d : dom) : dom :=
  with_scroll TMessages
    (with_formMessages
       (Some {| textContent := message;
                className := lit "form-messages " ++ type;
                display := lit "block" |}) d).

(** [hideMessage(messageElement)] on [#form-messages] *)
Definition hideMessage (d : dom) : dom :=
  with_formMessages
    (Some {| textContent := [];
             className := lit "form-messages";
             display := lit "none" |}) d.

(** [setLoadingState(button, isLoading)] *)
Definition setLoadingState (isLoading : bool) (b : button) : button :=
  if isLoading then
    {| buttonClassList := classList_add (lit "loading") (buttonClassList b);
       disabled := true;
       btnText := match btnText b with
                  | Some _ => Some (lit "none") | None => None end;
       btnLoader := match btnLoader b with
                    | Some _ => Some (lit "inline-flex") | None => None end |}
  else
    {| buttonClassList :=
         classList_remove (lit "loading") (buttonClassList b);
       disabled := false;
       btnText := match btnText b with
                  | Some _ => Some (lit "inline-block") | None => None end;
       btnLoader := match btnLoader b with
                    | Some _ => Some (lit "none") | None => None end |}.

Record fieldSpec : Type := {
  fname : jsstring;
  flabel : jsstring;
  ftype : jsstring
}.

Definition requiredFields : list fieldSpec :=
  [ {| fname := lit "first_name"; flabel := lit "First Name";
       ftype := lit "text" |};
    {| fname := lit "last_name"; flabel := lit "Last Name";
       ftype := lit "text" |};
    {| fname := lit "email"; flabel := lit "Email";
       ftype := lit "email" |};
    {| fname := lit "company"; flabel := lit "Company";
       ftype := lit "text" |} ].

(** The state threaded through [validateForm]: the document and the local
    variable [isValid]. *)
Definition vstate : Type := dom * bool.

(** Body of [requiredFields.forEach]. *)
Definition checkRequired (field : fieldSpec) (st : vstate) : vstate :=
  let '(d, isValid) := st in
  match querySelectorName (fname field) d with
  | None => st
  | Some input =>
      let value := trim (valueOf input d) in
      if negb (truthy value) then
        (setFieldError input (flabel field ++ lit " is required") d, false)
      else if jsstring_eqb (ftype field) (lit "email")
              && negb (isValidEmail value) then
        (setFieldError input (lit "Please enter a valid email address") d,
         false)
      else (clearFieldError input d, isValid)
  end.

(** Body of [phoneFields.forEach]. *)
Definition checkPhone (fieldName : jsstring) (st : vstate) : vstate :=
  let '(d, isValid) := st in
  match querySelectorName fieldName d with
  | None => st
  | Some input =>
      let value := trim (valueOf input d) in
      if truthy value && negb (isValidPhone value) then
        (setFieldError input (lit "Please enter a valid phone number") d,
         false)
      else if truthy value || hasClass (lit "invalid") input d then
        (clearFieldError input d, isValid)
      else st
  end.

Definition phoneFields : list jsstring := [lit "phone"; lit "mobile"].

Definition checkURL (st : vstate) : vstate :=
  let '(d, isValid) := st in
  match querySelectorName (lit "url") d with
  | None => st
  | Some urlInput =>
      let value := trim (valueOf urlInput d) in
      if truthy value && negb (isValidURL value) then
        (setFieldError urlInput (lit "Please enter a valid website URL") d,
         false)
      else if truthy value || hasClass (lit "invalid") urlInput d then
        (clearFieldError urlInput d, isValid)
      else st
  end.

(** [validateForm(form)]: the document it leaves and its return value. *)
Definition validateForm (d : dom) : vstate :=
  let st := fold_left (fun st field => checkRequired field st)
                      requiredFields (d, true) in
  let st := fold_left (fun st fieldName => checkPhone fieldName st)
                      phoneFields st in
  checkURL st.

(** [label.textContent.replace('*', '')]: the first asterisk is removed. *)
Fixpoint removeFirstStar (s : jsstring) : jsstring :=
  match s with
  | c :: s' => if c =? 42 then s' else c :: removeFirstStar s'
  | [] => []
  end.

(** [getLabelText(field)] *)
Definition getLabelText (field : nat) (d : dom) : jsstring :=
  match fields d !! field with
  | Some {| labelText := Some text |} => trim (removeFirstStar text)
  | _ => lit "This field"
  end.

(** [validateField(field)] *)
Definition validateField (field : nat) (d : dom) : dom * bool :=
  let value := trim (valueOf field d) in
  if isRequired field d && negb (truthy value) then
    (setFieldError field (getLabelText field d ++ lit " is required") d,
     false)
  else if truthy value
          && jsstring_eqb (attrOf type field d) (lit "email")
          && negb (isValidEmail value) then
    (setFieldError field (lit "Please enter a valid email address") d, false)
  else if truthy value
          && jsstring_eqb (attrOf type field d) (lit "tel")
          && negb (isValidPhone value) then
    (setFieldError field (lit "Please enter a valid phone number") d, false)
  else if truthy value
          && jsstring_eqb (attrOf name field d) (lit "url")
          && negb (isValidURL value) then
    (setFieldError field (lit "Please enter a valid website URL") d, false)
  else (clearFieldError field d, true).

(** [form.querySelectorAll('input[required], input[type="email"],
    input[type="tel"]')] of [attachBlurValidation]: the positions of the
    controls selected. *)
Fixpoint blurFieldsFrom (i : nat) (l : list element) : list nat :=
  match l with
  | [] => []
  | e :: l' =>
      if required e || jsstring_eqb (type e) (lit "email")
         || jsstring_eqb (type e) (lit "tel")
      then i :: blurFieldsFrom (S i) l'
      else blurFieldsFrom (S i) l'
  end.

Definition blurFields (d : dom) : list nat := blurFieldsFrom 0 (fields d).

(** The blur listener of [attachBlurValidation] on control [field]. *)
Definition blurListener (field : nat) (d : dom) : dom :=
  if (0 <? length (trim (valueOf field d)))%nat || isRequired field d
  then fst (validateField field d)
  else d.

(** A blur event on control [field]: the listener runs if the control was
    among those [attachBlurValidation] selected. *)
Definition blur (field : nat) (d : dom) : dom :=
  if bool_decide (field ∈ blurFields d) then blurListener field d else d.

(** [target.focus()]: when another control of the form has the focus, that
    control loses it and its blur event is dispatched, listeners included,
    before [focus] returns. *)
Definition focus (target : nat) (d : dom) : dom :=
  let d1 := match focused d with
            | Some old => if Nat.eqb old target then d else blur old d
            | None => d
            end in
  with_focus target d1.

(** [handleFormSubmit(e)]: the document and event it leaves, and its
    return value. *)
Definition handleFormSubmit (d : dom) (e : event) : dom * event * bool :=
  let d1 := match formMessages d with
            | Some _ => hideMessage d
            | None => d
            end in
  let '(d2, isValid) := validateForm d1 in
  if negb isValid then
    let e' := preventDefault e in
    let d3 := match formMessages d2 with
              | Some _ =>
                  showMessage (lit "error")
                    (lit "Please correct the errors below and try again.") d2
              | None => d2
              end in
    let d4 := match querySelectorClass (lit "invalid") d3 with
              | Some firstError =>
                  focus firstError (with_scroll (TField firstError) d3)
              | None => d3
              end in
    (d4, e', false)
  else
    let d3 := match submitButton d2 with
              | Some b => with_submitButton (Some (setLoadingState true b)) d2
              | None => d2
              end in
    (d3, e, true).

End FunctionJs.

Abbreviation blurFieldsFrom := FunctionJs.blurFieldsFrom.
Abbreviation blurFields := FunctionJs.blurFields.
Abbreviation blurListener := FunctionJs.blurListener.
Abbreviation blur := FunctionJs.blur.


(** ** The second script (inline styles instead of classes) *)
Module InlineStyle.

(** [markInvalid(input, message)]: the [.error-message] span is created
    in the parent when the parent has none. *)
Definition markInvalid (input : nat) (message : jsstring) (d : dom) : dom :=
  let d1 :=
    with_fields
      (alter (set_style (lit "#dc3545") (lit "#fff5f5")) input (fields d))
      d in
  match fields d1 !! input with
  | Some e =>
      with_errorSpans (<[parentElement e := message]> (errorSpans d1)) d1
  | None => d1
  end.

(** [markValid(input)] *)
Definition markValid (input : nat) (d : dom) : dom :=
  let d1 :=
    with_fields
      (alter (set_style (lit "#28a745") (lit "#ffffff")) input (fields d))
      d in
  writeErrorSpan input [] d1.

Record fieldSpec : Type := {
  fname : jsstring;
  flabel : jsstring
}.

Definition requiredFields : list fieldSpec :=
  [ {| fname := lit "first_name"; flabel := lit "First Name" |};
    {| fname := lit "last_name"; flabel := lit "Last Name" |};
    {| fname := lit "email"; flabel := lit "Email" |};
    {| fname := lit "company"; flabel := lit "Company" |} ].

Definition vstate : Type := dom * bool.

(** Body of [requiredFields.forEach]. *)
Definition checkRequired (field : fieldSpec) (st : vstate) : vstate :=
  let '(d, isValid) := st in
  match querySelectorName (fname field) d with
  | None => st
  | Some input =>
      if negb (truthy (trim (valueOf input d))) then
        (markInvalid input (flabel field ++ lit " is required") d, false)
      else (markValid input d, isValid)
  end.

(** The format checks that follow the loop: the untrimmed value is passed
    to the validator. *)
Definition checkFormat (fieldName : jsstring)
    (valid : jsstring -> bool) (message : jsstring) (st : vstate) : vstate :=
  let '(d, isValid) := st in
  match querySelectorName fieldName d with
  | None => st
  | Some input =>
      if truthy (trim (valueOf input d))
         && negb (valid (valueOf input d))
      then (markInvalid input message d, false)
      else st
  end.

(** [validateForm(form)] *)
Definition validateForm (d : dom) : vstate :=
  let st := fold_left (fun st field => checkRequired field st)
                      requiredFields (d, true) in
  let st := checkFormat (lit "email") isValidEmail
              (lit "Please enter a valid email address") st in
  let st := checkFormat (lit "phone") isValidPhone
              (lit "Please enter a valid phone number") st in
  let st := checkFormat (lit "mobile") isValidPhone
              (lit "Please enter a valid mobile number") st in
  checkFormat (lit "url") isValidURL
    (lit "Please enter a valid website URL") st.

(** [getFieldLabel(input)] *)
Definition getFieldLabel (input : nat) (d : dom) : jsstring :=
  match fields d !! input with
  | Some {| labelText := Some text |} =>
      trim (FunctionJs.removeFirstStar text)
  | _ => lit "This field"
  end.

(** The blur listener given to every [input[required]]. *)
Definition requiredBlur (input : nat) (d : dom) : dom :=
  if negb (truthy (trim (valueOf input d))) then
    markInvalid input (getFieldLabel input d ++ lit " is required")
      d
  else markValid input d.

(** The blur listener given to the [email], [phone], [mobile] and [url]
    controls, each with its validator and message. *)
Definition formatBlur (valid : jsstring -> bool) (message : jsstring)
    (input : nat) (d : dom) : dom :=
  if truthy (trim (valueOf input d)) && negb (valid (valueOf input d)) then
    markInvalid input message d
  else if truthy (trim (valueOf input d)) then markValid input d
  else d.

(** Whether control [i] is the one [form.querySelector('[name="n"]')]
    returns. *)
Definition attached (n : jsstring) (i : nat) (d : dom) : bool :=
  match querySelectorName n d with
  | Some j => Nat.eqb j i
  | None => false
  end.

(** A blur event on control [i]: its listeners run in the order
    [attachFieldValidation] added them. *)
Definition blurInline (i : nat) (d : dom) : dom :=
  let d1 := if isRequired i d then requiredBlur i d else d in
  let d2 := if attached (lit "email") i d
            then formatBlur isValidEmail
                   (lit "Please enter a valid email address") i d1
            else d1 in
  let d3 := if attached (lit "phone") i d
            then formatBlur isValidPhone
                   (lit "Please enter a valid phone number") i d2
            else d2 in
  let d4 := if attached (lit "mobile") i d
            then formatBlur isValidPhone
                   (lit "Please enter a valid mobile number") i d3
            else d3 in
  if attached (lit "url") i d
  then formatBlur isValidURL (lit "Please enter a valid website URL") i d4
  else d4.

(** [target.focus()]: when another control of the form has the focus, that
    control loses it and its blur event is dispatched, listeners included,
    before [focus] returns. *)
Definition focus (target : nat) (d : dom) : dom :=
  let d1 := match focused d with
            | Some old => if Nat.eqb old target then d else blurInline old d
            | None => d
            end in
  with_focus target d1.

(** [scrollToFirstError()]: the first input whose inline border colour is
    the one [markInvalid] sets. *)
Definition scrollToFirstError (d : dom) : dom :=
  match findFrom (fun e => jsstring_eqb (borderColor e) (lit "#dc3545"))
                 0 (fields d) with
  | Some firstInvalid =>
      focus firstInvalid (with_scroll (TField firstInvalid) d)
  | None => d
  end.

(** The submit listener. *)
Definition submitListener (d : dom) (e : event) : dom * event * bool :=
  let '(d1, isValid) := validateForm d in
  if negb isValid then (scrollToFirstError d1, preventDefault e, false)
  else (d1, e, true).

End InlineStyle.

Abbreviation getFieldLabel := InlineStyle.getFieldLabel.
Abbreviation requiredBlur := InlineStyle.requiredBlur.
Abbreviation formatBlur := InlineStyle.formatBlur.
Abbreviation attached := InlineStyle.attached.
Abbreviation blurInline := InlineStyle.blurInline.


(** The browser's form submission: the submit event is dispatched to the
    script's listener, and the form is posted unless the event's default
    was prevented. *)
Definition nativeSubmissionProceeds
    (listener : dom -> event -> dom * event * bool) (d : dom) : bool :=
  let '(_, e, _) := listener d {| defaultPrevented := false |} in
  negb (defaultPrevented e).

(** ** The debounced e-mail check of [initializeForm]

    Time is a count of milliseconds.  The browser's timer table maps the
    handles of the timers that are still active to the time before which
    they do not run. *)
Module Debounce.

Local Open Scope Z_scope.

Record timers : Type := {
  nextHandle : nat;
  active : gmap nat Z
}.

(** [setTimeout(callback, wait)] called at time [now]. *)
Definition setTimeout (now wait : Z) (ts : timers) : nat * timers :=
  (nextHandle ts,
   {| nextHandle := S (nextHandle ts);
      active := <[nextHandle ts := now + wait]> (active ts) |}).

(** [clearTimeout(handle)]; [undefined] and [null] clear nothing. *)
Definition clearTimeout (handle : option nat) (ts : timers) : timers :=
  match handle with
  | Some h => {| nextHandle := nextHandle ts; active := delete h (active ts) |}
  | None => ts
  end.

(** What happened on the page, newest first. *)
Inductive entry : Type :=
| Keystroke (t : Z)               (* an input event on the e-mail field *)
| Validated (t : Z).              (* [validateField(emailInput)] ran *)

Record state : Type := {
  page : dom;
  clock : Z;
  tm : timers;
  timeout : option nat;           (* the closure variable of [debounce] *)
  history : list entry
}.

Definition wait : Z := 500.

(** The debounced function: [if (emailInput.value.length > 0)
    validateField(emailInput)]. *)
Definition func (emailInput : nat) (now : Z) (s : state) : state :=
  if (0 <? length (valueOf emailInput (page s)))%nat then
    {| page := fst (FunctionJs.validateField emailInput (page s));
       clock := clock s; tm := tm s; timeout := timeout s;
       history := Validated now :: history s |}
  else s.

(** [later]: [timeout = null; func.apply(context, args)]. *)
Definition later (emailInput : nat) (now : Z) (s : state) : state :=
  func emailInput now
    {| page := page s; clock := clock s; tm := tm s; timeout := None;
       history := history s |}.

(** [executedFunction]: [clearTimeout(timeout); timeout =
    setTimeout(later, wait)]. *)
Definition executedFunction (now : Z) (s : state) : state :=
  let '(h, ts) := setTimeout now wait (clearTimeout (timeout s) (tm s)) in
  {| page := page s; clock := clock s; tm := ts; timeout := Some h;
     history := history s |}.

Inductive action : Type :=
| Input (t : Z) (v : jsstring)    (* the user changes the field to [v] *)
| Fire (t : Z) (h : nat).         (* the browser runs timer [h] *)

(** One turn of the event loop; [None] when the browser cannot take the
    action: time does not go back, and a timer runs only while it is
    active and not before it is due. *)
Definition step (emailInput : nat) (s : state) (a : action) : option state :=
  match a with
  | Input t v =>
      if clock s <=? t then
        Some (executedFunction t
                {| page := with_fields
                             (alter (set_value v) emailInput
                                    (fields (page s))) (page s);
                   clock := t; tm := tm s; timeout := timeout s;
                   history := Keystroke t :: history s |})
      else None
  | Fire t h =>
      match active (tm s) !! h with
      | Some due =>
          if (clock s <=? t) && (due <=? t) then
            Some (later emailInput t
                    {| page := page s; clock := t;
                       tm := {| nextHandle := nextHandle (tm s);
                                active := delete h (active (tm s)) |};
                       timeout := timeout s; history := history s |})
          else None
      | None => None
      end
  end.

Fixpoint run (emailInput : nat) (s : state) (l : list action)
    : option state :=
  match l with
  | [] => Some s
  | a :: l' =>
      match step emailInput s a with
      | Some s' => run emailInput s' l'
      | None => None
      end
  end.

(** The page once [initializeForm] has returned. *)
Definition init (d : dom) : state :=
  {| page := d; clock := 0;
     tm := {| nextHandle := 0; active := ∅ |};
     timeout := None; history := [] |}.

(** Every validation in the history directly follows a keystroke that is
    at least [wait] milliseconds older. *)
Fixpoint debounced (h : list entry) : Prop :=
  match h with
  | [] => True
  | Validated t :: ((Keystroke t0 :: _) as h') =>
      t0 + wait <= t /\ debounced h'
  | Validated _ :: _ => False
  | Keystroke _ :: h' => debounced h'
  end.

(** Whatever timer is active is the one [timeout] holds, and it is due
    [wait] milliseconds after the latest keystroke, which is the latest
    entry of the history. *)
Definition pendingOK (s : state) : Prop :=
  forall h due, active (tm s) !! h = Some due ->
    timeout s = Some h
    /\ exists t0 rest, history s = Keystroke t0 :: rest /\ due = t0 + wait.

Definition invariant (s : state) : Prop :=
  debounced (history s) /\ pendingOK s.

(** A sample session: three keystrokes, the second and third followed by a
    quiet period. *)
Definition session : list action :=
  [Input 0 (lit "a"); Input 100 (lit "a@"); Fire 600 1;
   Input 700 (lit "a@b"); Fire 1300 2].

End Debounce.

(** ** Sequences of field-state updates *)

Inductive call : Type :=
| SetFieldError (field : nat) (message : jsstring)
| ClearFieldError (field : nat).

Definition callee (c : call) : nat :=
  match c with
  | SetFieldError field _ => field
  | ClearFieldError field => field
  end.

Definition run_call (c : call) (d : dom) : dom :=
  match c with
  | SetFieldError field message => FunctionJs.setFieldError field message d
  | ClearFieldError field => FunctionJs.clearFieldError field d
  end.

Definition run_calls (cs : list call) (d : dom) : dom :=
  fold_left (fun d c => run_call c d) cs d.

(** A control does not carry both [valid] and [invalid], and does not carry
    [valid] while its trimmed value is empty. *)
Definition classesConsistent (i : nat) (d : dom) : Prop :=
  (hasClass (lit "valid") i d && hasClass (lit "invalid") i d = false)
  /\ (truthy (trim (valueOf i d)) = false ->
      hasClass (lit "valid") i d = false).

(** ** [validateForm] as a sequence of look-ups

    Both scripts' [validateForm] look controls up by name, one after the
    other, and update the control found.  A [stepInfo] names the control a
    step looks up and says whether the step leaves a control with an empty
    trimmed value alone. *)

Record stepInfo : Type := {
  sname : jsstring;
  needsValue : bool;
  sfun : dom * bool -> dom * bool
}.

Definition run_steps (L : list stepInfo) (st : dom * bool) : dom * bool :=
  fold_left (fun st s => sfun s st) L st.

Definition FunctionJs_steps : list stepInfo :=
  map (fun f => {| sname := FunctionJs.fname f; needsValue := false;
                   sfun := FunctionJs.checkRequired f |})
      FunctionJs.requiredFields
  ++ map (fun n => {| sname := n; needsValue := false;
                      sfun := FunctionJs.checkPhone n |})
         FunctionJs.phoneFields
  ++ [ {| sname := lit "url"; needsValue := false;
          sfun := FunctionJs.checkURL |} ].

Definition InlineStyle_steps : list stepInfo :=
  map (fun f => {| sname := InlineStyle.fname f; needsValue := false;
                   sfun := InlineStyle.checkRequired f |})
      InlineStyle.requiredFields
  ++ [ {| sname := lit "email"; needsValue := true;
          sfun := InlineStyle.checkFormat (lit "email") isValidEmail
                    (lit "Please enter a valid email address") |};
       {| sname := lit "phone"; needsValue := true;
          sfun := InlineStyle.checkFormat (lit "phone") isValidPhone
                    (lit "Please enter a valid phone number") |};
       {| sname := lit "mobile"; needsValue := true;
          sfun := InlineStyle.checkFormat (lit "mobile") isValidPhone
                    (lit "Please enter a valid mobile number") |};
       {| sname := lit "url"; needsValue := true;
          sfun := InlineStyle.checkFormat (lit "url") isValidURL
                    (lit "Please enter a valid website URL") |} ].

(** Name and label of the required controls; the same in both scripts. *)
Definition requiredLabels : list (jsstring * jsstring) :=
  map (fun f => (FunctionJs.fname f, FunctionJs.flabel f))
      FunctionJs.requiredFields.

(** The names [validateForm] looks up, in either script. *)
Definition validatedNames : list jsstring :=
  [lit "first_name"; lit "last_name"; lit "email"; lit "company";
   lit "phone"; lit "mobile"; lit "url"].

(** What no step changes in a control. *)
Definition static (e : element) : jsstring * jsstring * nat :=
  (name e, value e, parentElement e).

Definition shape (d : dom) : list (jsstring * jsstring * nat) :=
  map static (fields d).

Definition parentOf (i : nat) (d : dom) : option nat :=
  match fields d !! i with Some e => Some (parentElement e) | None => None end.

(** A step may touch the control it looks up, unless it needs a value and
    the control has none. *)
Definition mayTouch (s : stepInfo) (j : nat) (d : dom) : Prop :=
  querySelectorName (sname s) d = Some j
  /\ (needsValue s = true -> truthy (trim (valueOf j d)) = true).

(** An update of the document that is local to control [j] and the error
    span of its parent. *)
Definition localUpdate (j : nat) (op : dom -> dom) : Prop :=
  forall d,
    shape (op d) = shape d
    /\ (forall i, i <> j -> fields (op d) !! i = fields d !! i)
    /\ (forall p, parentOf j d <> Some p ->
                  errorSpans (op d) !! p = errorSpans d !! p)
    /\ (forall p, is_Some (errorSpans d !! p) ->
                  is_Some (errorSpans (op d) !! p)).

(** A step that, on document [d] with [isValid = v], only updates the
    control it may touch, does not turn [isValid] back to [true] and removes
    no error span. *)
Definition framedAt (s : stepInfo) (d : dom) (v : bool) : Prop :=
  shape (fst (sfun s (d, v))) = shape d
  /\ (v = false -> snd (sfun s (d, v)) = false)
  /\ (forall p, is_Some (errorSpans d !! p) ->
                is_Some (errorSpans (fst (sfun s (d, v))) !! p))
  /\ (forall i, (forall j, mayTouch s j d -> j <> i) ->
                fields (fst (sfun s (d, v))) !! i = fields d !! i)
  /\ (forall p, (forall j, mayTouch s j d -> parentOf j d <> Some p) ->
                errorSpans (fst (sfun s (d, v))) !! p = errorSpans d !! p).

Definition framed (s : stepInfo) : Prop := forall d v, framedAt s d v.

(** Sample documents. *)
Definition control (n : string) (v : jsstring) (classes : list jsstring)
    (parent : nat) : element :=
  {| name := lit n; type := lit "text"; required := true; value := v;
     classList := classes; parentElement := parent; labelText := None;
     borderColor := []; backgroundColor := [] |}.

Definition document (fs : list element) (spans : gmap nat jsstring) : dom :=
  {| fields := fs; errorSpans := spans; formMessages := None;
     submitButton := None; focused := None; scrolledTo := None |}.



Definition docOwnParents : dom :=
  document [control "first_name" [] [] 0;
            control "email" (lit "a@b.co") [] 1]
           {[ 0%nat := []; 1%nat := [] ]}.

Definition docBothClasses : dom :=
  document [control "first_name" [] [lit "valid"; lit "invalid"] 0] ∅.

(** The document with another [#form-messages] box. *)
Definition lift (b : option messageBox) (st : dom * bool) : dom * bool :=
  (with_formMessages b (fst st), snd st).

(** The format listeners of the second script: name, validator, message. *)
Definition formatListeners
    : list (jsstring * (jsstring -> bool) * jsstring) :=
  [(lit "email", isValidEmail, lit "Please enter a valid email address");
   (lit "phone", isValidPhone, lit "Please enter a valid phone number");
   (lit "mobile", isValidPhone, lit "Please enter a valid mobile number");
   (lit "url", isValidURL, lit "Please enter a valid website URL")].

(** ** The checks behind [validateForm]

    What each look-up of [validateForm] decides, read on the document
    before validation: a control that is not in the form passes. *)

(** [function.js], a required control: not empty once trimmed, and a valid
    address when the entry is of type [email]. *)
Definition requiredOK (f : FunctionJs.fieldSpec) (d : dom) : bool :=
  match querySelectorName (FunctionJs.fname f) d with
  | None => true
  | Some i =>
      truthy (trim (valueOf i d))
      && negb (jsstring_eqb (FunctionJs.ftype f) (lit "email")
               && negb (isValidEmail (trim (valueOf i d))))
  end.

(** [function.js], an optional control: empty, or valid once trimmed. *)
Definition optionalOK (n : jsstring) (valid : jsstring -> bool) (d : dom)
    : bool :=
  match querySelectorName n d with
  | None => true
  | Some i =>
      negb (truthy (trim (valueOf i d))
            && negb (valid (trim (valueOf i d))))
  end.

Definition FunctionJs_checks : list (dom -> bool) :=
  map requiredOK FunctionJs.requiredFields
  ++ map (fun n => optionalOK n isValidPhone) FunctionJs.phoneFields
  ++ [optionalOK (lit "url") isValidURL].

(** The second script, a required control: not empty once trimmed. *)
Definition presentOK (f : InlineStyle.fieldSpec) (d : dom) : bool :=
  match querySelectorName (InlineStyle.fname f) d with
  | None => true
  | Some i => truthy (trim (valueOf i d))
  end.

(** The second script, a format check: empty once trimmed, or valid as
    typed. *)
Definition formatOK (n : jsstring) (valid : jsstring -> bool) (d : dom)
    : bool :=
  match querySelectorName n d with
  | None => true
  | Some i =>
      negb (truthy (trim (valueOf i d)) && negb (valid (valueOf i d)))
  end.

Definition InlineStyle_checks : list (dom -> bool) :=
  map presentOK InlineStyle.requiredFields
  ++ [formatOK (lit "email") isValidEmail;
      formatOK (lit "phone") isValidPhone;
      formatOK (lit "mobile") isValidPhone;
      formatOK (lit "url") isValidURL].

(** A step and the check it makes: the step turns [isValid] to [false]
    exactly when the check fails, and the check reads nothing a step
    changes. *)
Definition decides (s : stepInfo) (ok : dom -> bool) : Prop :=
  (forall d v, snd (sfun s (d, v)) = v && ok d)
  /\ (forall d d', shape d = shape d' -> ok d = ok d').

(** A step of [function.js] leaves the control it looks up with the class
    [invalid] exactly when its check fails. *)
Definition marks (s : stepInfo) (ok : dom -> bool) : Prop :=
  forall d v i, querySelectorName (sname s) d = Some i ->
    hasClass (lit "invalid") i (fst (sfun s (d, v))) = negb (ok d).

(** Two documents that differ at most in the classes and styles of their
    controls and in the texts of the error spans they already have. *)
Definition sameRest (d d' : dom) : Prop :=
  shape d' = shape d
  /\ formMessages d' = formMessages d
  /\ submitButton d' = submitButton d
  /\ focused d' = focused d
  /\ scrolledTo d' = scrolledTo d
  /\ (forall p, is_Some (errorSpans d' !! p) <-> is_Some (errorSpans d !! p)).

(** Two documents with the same message box, submit button, focus and
    scroll position. *)
Definition sameOutside (d d' : dom) : Prop :=
  formMessages d' = formMessages d
  /\ submitButton d' = submitButton d
  /\ focused d' = focused d
  /\ scrolledTo d' = scrolledTo d.


Definition docStalePhone : dom :=
  document [control "phone" [] [lit "invalid"] 0] {[ 0%nat := lit "old" ]}.

Definition docTwoEmails : dom :=
  document [control "email" (lit "a@b.co") [] 0;
            control "email" (lit "nonsense") [] 1] ∅.

Definition docRequiredEmail : dom :=
  document [control "email" (lit "a@b") [] 0] ∅.

(** The visitor is in the phone control, which was not left yet, when the
    form is submitted. *)
Definition docFocusedPhone : dom :=
  with_focus 1
    (document [control "first_name" [] [] 0;
               control "phone" (lit "abc") [] 1]
              {[ 0%nat := []; 1%nat := [] ]}).

Definition docFocusedValidPhone : dom :=
  with_focus 1
    (document [control "first_name" [] [] 0;
               control "phone" (lit "555 123 4567") [] 1]
              {[ 0%nat := []; 1%nat := [] ]}).

Definition sampleButton : button :=
  {| buttonClassList := [lit "btn-submit"]; disabled := false;
     btnText := Some (lit "inline-block"); btnLoader := Some (lit "none") |}.

(** * Properties *)

(** ** The matcher decides the language of a regular expression *)
Section RegexCorrect.

Lemma nullable_lang r : nullable r = true <-> lang r [].
Proof.
  induction r; simpl.
  - split; [discriminate | intros H; inversion H].
  - split; [constructor | reflexivity].
  - split; [discriminate | intros H; inversion H].
  - split; [discriminate | intros H; inversion H].
  - split; [discriminate | intros H; inversion H].
  - rewrite andb_true_iff, IHr1, IHr2. split.
    + intros [H1 H2]. change (lang (Seq r1 r2) ([] ++ [])).
      constructor; assumption.
    + intros H. inversion H; subst.
      match goal with E : _ ++ _ = [] |- _ =>
        apply app_eq_nil in E as [-> ->] end.
      auto.
  - rewrite orb_true_iff, IHr1, IHr2. split.
    + intros [H | H]; [apply L_AltL | apply L_AltR]; assumption.
    + intros H. inversion H; subst; auto.
  - split; [constructor | reflexivity].
  - rewrite IHr. split.
    + intros H. change (lang (Plus r) ([] ++ [])).
      constructor; [assumption | constructor].
    + intros H. inversion H; subst.
      match goal with E : _ ++ _ = [] |- _ =>
        apply app_eq_nil in E as [-> ->] end.
      assumption.
Qed.

Lemma star_cons_inv r x s :
  lang (Star r) (x :: s) ->
  exists s1 s2, s = s1 ++ s2 /\ lang r (x :: s1) /\ lang (Star r) s2.
Proof.
  intros H. remember (Star r) as q eqn:Eq. remember (x :: s) as w eqn:Ew.
  revert Eq Ew.
  induction H as [| | | | | | | | r' s1 s2 H1 _ H2 IH2 |];
    intros Eq Ew; try discriminate.
  injection Eq as ->.
  destruct s1 as [| y s1'].
  - apply IH2; [reflexivity | assumption].
  - injection Ew as -> <-. exists s1', s2. auto.
Qed.

Lemma seq_cons_inv r1 r2 x s :
  lang (Seq r1 r2) (x :: s) ->
  (exists s1 s2, s = s1 ++ s2 /\ lang r1 (x :: s1) /\ lang r2 s2)
  \/ (lang r1 [] /\ lang r2 (x :: s)).
Proof.
  intros H. inversion H as [| | | | a b s1 s2 Ha Hb [E1 E2] E3 | | | | |].
  destruct s1 as [| y s1']; simpl in E3.
  - subst. right; auto.
  - injection E3 as -> <-. left. exists s1', s2. auto.
Qed.

Lemma seq_cons_intro r1 r2 x s1 s2 :
  lang r1 (x :: s1) -> lang r2 s2 -> lang (Seq r1 r2) (x :: s1 ++ s2).
Proof. intros H1 H2. apply (L_Seq r1 r2 (x :: s1) s2 H1 H2). Qed.

Lemma deriv_lang r : forall x s, lang (deriv x r) s <-> lang r (x :: s).
Proof.
  induction r; intros x s; simpl.
  - split; intros H; inversion H.
  - split; intros H; inversion H.
  - destruct (N.eqb_spec c x) as [-> | Hne]; split; intros H;
      inversion H; subst; try constructor; congruence.
  - destruct (class_matches items x) eqn:Hc; split; intros H;
      inversion H; subst; try constructor; congruence.
  - destruct (class_matches items x) eqn:Hc; split; intros H;
      inversion H; subst; try constructor; congruence.
  - assert (Hseq : lang (Seq (deriv x r1) r2) s <->
                   exists s1 s2, s = s1 ++ s2 /\ lang r1 (x :: s1)
                                 /\ lang r2 s2).
    { split.
      - intros H. inversion H; subst. eexists _, _.
        split; [reflexivity |]. split; [apply IHr1 |]; assumption.
      - intros (s1 & s2 & -> & H1 & H2).
        constructor; [apply IHr1 |]; assumption. }
    destruct (nullable r1) eqn:Hn; split; intros H.
    + inversion H; subst.
      * match goal with
        | Hs : lang (Seq (deriv x r1) r2) s |- _ =>
            apply Hseq in Hs as (s1 & s2 & -> & H1 & H2)
        end.
        apply seq_cons_intro; assumption.
      * change (lang (Seq r1 r2) ([] ++ x :: s)).
        constructor; [apply nullable_lang | apply IHr2]; assumption.
    + apply seq_cons_inv in H as [H | [_ H]].
      * apply L_AltL, Hseq; assumption.
      * apply L_AltR, IHr2; assumption.
    + apply Hseq in H as (s1 & s2 & -> & H1 & H2).
      apply seq_cons_intro; assumption.
    + apply seq_cons_inv in H as [H | [H _]].
      * apply Hseq; assumption.
      * apply nullable_lang in H. congruence.
  - split; intros H; inversion H; subst.
    + apply L_AltL, IHr1; assumption.
    + apply L_AltR, IHr2; assumption.
    + apply L_AltL, IHr1; assumption.
    + apply L_AltR, IHr2; assumption.
  - split; intros H.
    + inversion H; subst.
      change (lang (Star r) ((x :: s1) ++ s2)).
      constructor; [apply IHr |]; assumption.
    + apply star_cons_inv in H as (s1 & s2 & -> & H1 & H2).
      constructor; [apply IHr |]; assumption.
  - split; intros H.
    + inversion H; subst.
      change (lang (Plus r) ((x :: s1) ++ s2)).
      constructor; [apply IHr |]; assumption.
    + inversion H as [| | | | | | | | | a s1 s2 Ha Hb [E1] E2].
      destruct s1 as [| y s1']; simpl in E2.
      * subst. apply star_cons_inv in Hb as (t1 & t2 & -> & H1 & H2).
        constructor; [apply IHr |]; assumption.
      * injection E2 as -> <-. constructor; [apply IHr |]; assumption.
Qed.

Theorem matches_lang r s : matches r s = true <-> lang r s.
Proof.
  revert r. induction s as [| c s IH]; intros r; simpl.
  - apply nullable_lang.
  - rewrite IH. apply deriv_lang.
Qed.

End RegexCorrect.

(** ** The validators on the inputs of the specification *)

(** C3: [isValidEmail] accepts [a@b.co] and rejects [a@b], [a@@b.com] and the
    empty string. *)
Theorem isValidEmail_examples :
  isValidEmail (lit "a@b.co") = true
  /\ isValidEmail (lit "a@b") = false
  /\ isValidEmail (lit "a@@b.com") = false
  /\ isValidEmail [] = false.
Proof. repeat split; vm_compute; reflexivity. Qed.

(** C4: [isValidPhone] accepts [+1 (555) 123-4567]; it rejects [12345], which
    is in the allowed alphabet but keeps fewer than ten characters after
    cleaning, and [abc-defg], which leaves the allowed alphabet. *)
Theorem isValidPhone_examples :
  isValidPhone (lit "+1 (555) 123-4567") = true
  /\ (isValidPhone (lit "12345") = false
      /\ RegExp_test phoneRegex (lit "12345") = true
      /\ (length (replace_class_global_empty cleanClass (lit "12345"))
          < 10)%nat)
  /\ (isValidPhone (lit "abc-defg") = false
      /\ RegExp_test phoneRegex (lit "abc-defg") = false).
Proof. repeat split; vm_compute; (reflexivity || lia). Qed.

(** A string matches [/^[items]+$/] exactly when it is not empty and all its
    code units are in the class. *)
Lemma lang_star_class items s :
  lang (Star (Class items)) s <->
  Forall (fun c => class_matches items c = true) s.
Proof.
  split.
  - intros H. remember (Star (Class items)) as q eqn:Eq.
    induction H; try discriminate.
    + constructor.
    + injection Eq as ->. inversion H; subst. simpl.
      constructor; auto.
  - induction 1 as [| c s Hc _ IH].
    + constructor.
    + change (lang (Star (Class items)) ([c] ++ s)).
      constructor; [constructor |]; assumption.
Qed.

Lemma test_plus_class items s :
  RegExp_test (Plus (Class items)) s = true <->
  s <> [] /\ Forall (fun c => class_matches items c = true) s.
Proof.
  unfold RegExp_test. rewrite matches_lang. split.
  - intros H. inversion H as [| | | | | | | | | r s1 s2 H1 H2]; subst.
    inversion H1; subst. simpl. split; [discriminate |].
    constructor; [assumption | apply lang_star_class; assumption].
  - intros [Hne Hall]. destruct Hall as [| c s Hc Hs]; [congruence |].
    change (lang (Plus (Class items)) ([c] ++ s)).
    constructor; [constructor; assumption | apply lang_star_class; assumption].
Qed.

(** What [isValidPhone] checks, in one statement. *)
Lemma isValidPhone_spec phone :
  isValidPhone phone = true <->
  phone <> []
  /\ Forall (fun c => class_matches phoneClass c = true) phone
  /\ (10 <= length (replace_class_global_empty cleanClass phone))%nat.
Proof.
  unfold isValidPhone, phoneRegex.
  rewrite andb_true_iff, test_plus_class, N.leb_le. intuition lia.
Qed.

Lemma clean_repeat_plus n :
  replace_class_global_empty cleanClass (repeat 43 n) = repeat 43 n.
Proof.
  unfold replace_class_global_empty.
  induction n as [| n IH]; [reflexivity |]. simpl repeat.
  rewrite filter_cons_True by reflexivity. rewrite IH. reflexivity.
Qed.

(** C8: a string of ten or more plus signs has no digit and is accepted by
    [isValidPhone]: the plus sign is in the allowed class and the cleaning
    step keeps it. *)
Theorem isValidPhone_accepts_plus_signs n :
  (10 <= n)%nat ->
  isValidPhone (repeat 43 n) = true
  /\ existsb isDigit (repeat 43 n) = false
  /\ replace_class_global_empty cleanClass (repeat 43 n) = repeat 43 n.
Proof.
  intros Hn. split; [| split].
  - apply isValidPhone_spec. split; [| split].
    + destruct n; [lia | discriminate].
    + clear Hn. induction n; constructor; [reflexivity | assumption].
    + rewrite clean_repeat_plus, repeat_length. exact Hn.
  - induction n as [| n IH]; [lia |].
    clear Hn IH. induction n as [| n IH]; [reflexivity | exact IH].
  - apply clean_repeat_plus.
Qed.

Lemma isValidPhone_accepts_plus_signs_witness :
  (10 <= 10)%nat
  /\ (isValidPhone (lit "++++++++++") = true
      /\ existsb isDigit (lit "++++++++++") = false
      /\ replace_class_global_empty cleanClass (lit "++++++++++")
         = lit "++++++++++").
Proof.
  split; [lia | apply (isValidPhone_accepts_plus_signs 10); lia].
Defined.

(** ** [isValidURL] *)

(** C5: [example.com] fails direct parsing and is accepted through the
    [https://] prefix; [https://example.com] is accepted directly;
    [not a url] is rejected, directly and with the prefix. *)
Theorem isValidURL_examples :
  (URL.parse (lit "example.com") = None
   /\ URL_attempts (lit "example.com")
      = [lit "example.com"; lit "https://example.com"]
   /\ isValidURL (lit "example.com") = true)
  /\ (URL_attempts (lit "https://example.com") = [lit "https://example.com"]
      /\ isValidURL (lit "https://example.com") = true)
  /\ isValidURL (lit "not a url") = false.
Proof. repeat split; vm_compute; reflexivity. Qed.

(** The two ways out of [isValidURL] when the constructor throws. *)
Lemma isValidURL_run_catch url :
  URL.parse url = None ->
  isValidURL_run url =
    if startsWith url (lit "http") then ([url], false)
    else ([url; lit "https://" ++ url],
          match URL.parse (lit "https://" ++ url) with
          | Some _ => true
          | None => false
          end).
Proof.
  intros H. unfold isValidURL_run. rewrite H.
  destruct (startsWith url (lit "http")); cbn [negb]; [reflexivity |].
  destruct (URL.parse (lit "https://" ++ url)); reflexivity.
Qed.

(** C6, as the claim has it, fails on inputs that start with [http]:
    [http://exa mple.com] and [httpbin.org] do not parse, the constructor
    is called once only, and [false] is returned although the prefixed
    string parses. *)
Lemma isValidURL_no_fallback_counterexample :
  (URL.parse (lit "http://exa mple.com") = None
   /\ isValidURL (lit "http://exa mple.com") = false
   /\ URL_attempts (lit "http://exa mple.com") = [lit "http://exa mple.com"]
   /\ URL.parse (lit "https://http://exa mple.com") <> None)
  /\ (URL.parse (lit "httpbin.org") = None
      /\ isValidURL (lit "httpbin.org") = false
      /\ URL_attempts (lit "httpbin.org") = [lit "httpbin.org"]
      /\ URL.parse (lit "https://httpbin.org") <> None).
Proof. repeat split; vm_compute; (reflexivity || discriminate). Qed.

(** C6 (amended): when direct parsing fails on an input that does not start
    with [http], the constructor is called a second time on the input
    prefixed with [https://], and the input is declared invalid exactly when
    that second call fails too. *)
Theorem isValidURL_fallback url :
  URL.parse url = None ->
  startsWith url (lit "http") = false ->
  URL_attempts url = [url; lit "https://" ++ url]
  /\ (isValidURL url = false <-> URL.parse (lit "https://" ++ url) = None).
Proof.
  intros Hfail Hprefix. unfold URL_attempts, isValidURL.
  rewrite (isValidURL_run_catch url Hfail), Hprefix. cbn [fst snd].
  split; [reflexivity |].
  destruct (URL.parse (lit "https://" ++ url)); split; congruence.
Qed.

Lemma isValidURL_fallback_witness :
  (URL.parse (lit "not a url") = None
   /\ startsWith (lit "not a url") (lit "http") = false)
  /\ (URL_attempts (lit "not a url")
      = [lit "not a url"; lit "https://" ++ lit "not a url"]
      /\ (isValidURL (lit "not a url") = false
          <-> URL.parse (lit "https://" ++ lit "not a url") = None)).
Proof.
  split; [split; vm_compute; reflexivity |].
  apply (isValidURL_fallback (lit "not a url")); vm_compute; reflexivity.
Defined.

(** C9: [isValidURL] on [httpserver].  The input is a single word without
    a dot, without white space and without a protocol, direct parsing fails
    on it, and it parses once [https://] is put in front, as [foo] and
    [localhost] do, which are accepted.  Yet the constructor is called
    once only and [httpserver] is rejected: the test that decides whether
    the input has no protocol looks at its first four characters. *)
Theorem isValidURL_rejects_httpserver :
  (existsb (N.eqb 46) (lit "foo") = false
   /\ isValidURL (lit "foo") = true
   /\ existsb (N.eqb 46) (lit "localhost") = false
   /\ isValidURL (lit "localhost") = true)
  /\ (existsb (N.eqb 46) (lit "httpserver") = false
      /\ existsb isWhiteSpace (lit "httpserver") = false
      /\ URL.parse (lit "httpserver") = None
      /\ URL.parse (lit "https://httpserver") <> None
      /\ startsWith (lit "httpserver") (lit "http") = true
      /\ URL_attempts (lit "httpserver") = [lit "httpserver"]
      /\ isValidURL (lit "httpserver") = false).
Proof. repeat split; vm_compute; (reflexivity || discriminate). Qed.

(** ** Field state *)

Lemma jsstring_eqb_eq s t : jsstring_eqb s t = true <-> s = t.
Proof.
  revert t. induction s as [| a s IH]; intros [| b t]; simpl;
    try (split; (discriminate || reflexivity)).
  rewrite andb_true_iff, N.eqb_eq, IH. split.
  - intros [-> ->]. reflexivity.
  - intros [= -> ->]. auto.
Qed.

Lemma contains_add c l : classList_contains c (classList_add c l) = true.
Proof.
  unfold classList_add. destruct (classList_contains c l) eqn:E; [exact E |].
  unfold classList_contains. apply bool_decide_eq_true.
  apply elem_of_app. right. apply list_elem_of_singleton. reflexivity.
Qed.

Lemma contains_add_ne c c' l :
  c <> c' ->
  classList_contains c (classList_add c' l) = classList_contains c l.
Proof.
  intros Hne. unfold classList_add.
  destruct (classList_contains c' l); [reflexivity |].
  unfold classList_contains. apply bool_decide_ext.
  rewrite elem_of_app, list_elem_of_singleton. tauto.
Qed.

Lemma contains_remove c l :
  classList_contains c (classList_remove c l) = false.
Proof.
  unfold classList_contains, classList_remove.
  apply bool_decide_eq_false. rewrite list_elem_of_filter. tauto.
Qed.

Lemma contains_remove_ne c c' l :
  c <> c' ->
  classList_contains c (classList_remove c' l) = classList_contains c l.
Proof.
  intros Hne. unfold classList_contains, classList_remove.
  apply bool_decide_ext. rewrite list_elem_of_filter. tauto.
Qed.

Lemma valid_ne_invalid : lit "valid" <> lit "invalid".
Proof. vm_compute. discriminate. Qed.

Lemma fields_writeErrorSpan i m d : fields (writeErrorSpan i m d) = fields d.
Proof.
  unfold writeErrorSpan. destruct (fields d !! i) as [e |]; [| reflexivity].
  destruct (errorSpans d !! parentElement e); reflexivity.
Qed.

Lemma hasClass_writeErrorSpan c i j m d :
  hasClass c i (writeErrorSpan j m d) = hasClass c i d.
Proof. unfold hasClass. rewrite fields_writeErrorSpan. reflexivity. Qed.

Lemma valueOf_writeErrorSpan i j m d :
  valueOf i (writeErrorSpan j m d) = valueOf i d.
Proof. unfold valueOf. rewrite fields_writeErrorSpan. reflexivity. Qed.

Lemma hasClass_alter c f i j d :
  hasClass c i (with_fields (alter (set_classList f) j (fields d)) d) =
  match fields d !! i with
  | Some e =>
      classList_contains c (if decide (j = i) then f (classList e)
                            else classList e)
  | None => false
  end.
Proof.
  unfold hasClass. simpl. rewrite list_lookup_alter.
  destruct (decide (j = i)) as [-> | Hne];
    destruct (fields d !! i); reflexivity.
Qed.

Lemma valueOf_alter_classList f i j d :
  valueOf i (with_fields (alter (set_classList f) j (fields d)) d)
  = valueOf i d.
Proof.
  unfold valueOf. simpl. rewrite list_lookup_alter.
  destruct (decide (j = i)) as [-> | Hne];
    destruct (fields d !! i); reflexivity.
Qed.

Module FunctionJsFacts.
Import FunctionJs.

Lemma fields_setFieldError i m d :
  fields (setFieldError i m d) =
  alter (set_classList (fun l =>
           classList_remove (lit "valid") (classList_add (lit "invalid") l)))
        i (fields d).
Proof. unfold setFieldError. rewrite fields_writeErrorSpan. reflexivity. Qed.

Lemma valueOf_setFieldError i j m d :
  valueOf i (setFieldError j m d) = valueOf i d.
Proof.
  unfold setFieldError.
  rewrite valueOf_writeErrorSpan, valueOf_alter_classList. reflexivity.
Qed.

Lemma valueOf_clearFieldError i j d :
  valueOf i (clearFieldError j d) = valueOf i d.
Proof.
  unfold clearFieldError. rewrite valueOf_writeErrorSpan.
  destruct (truthy _); rewrite !valueOf_alter_classList; reflexivity.
Qed.

Lemma hasClass_setFieldError c i j m d :
  hasClass c i (setFieldError j m d) =
  match fields d !! i with
  | Some e =>
      classList_contains c
        (if decide (j = i)
         then classList_remove (lit "valid")
                (classList_add (lit "invalid") (classList e))
         else classList e)
  | None => false
  end.
Proof.
  unfold setFieldError. rewrite hasClass_writeErrorSpan.
  apply hasClass_alter.
Qed.

Lemma hasClass_clearFieldError c i j d :
  hasClass c i (clearFieldError j d) =
  match fields d !! i with
  | Some e =>
      classList_contains c
        (if decide (j = i)
         then (if truthy (trim (valueOf j d))
               then classList_add (lit "valid")
               else classList_remove (lit "valid"))
                (classList_remove (lit "invalid") (classList e))
         else classList e)
  | None => false
  end.
Proof.
  unfold clearFieldError. rewrite hasClass_writeErrorSpan.
  rewrite valueOf_alter_classList.
  destruct (truthy (trim (valueOf j d)));
    rewrite hasClass_alter; simpl; rewrite list_lookup_alter;
    destruct (decide (j = i)) as [-> | Hne];
    destruct (fields d !! i); reflexivity.
Qed.

End FunctionJsFacts.

Lemma valueOf_run_call c i d : valueOf i (run_call c d) = valueOf i d.
Proof.
  destruct c; simpl.
  - apply FunctionJsFacts.valueOf_setFieldError.
  - apply FunctionJsFacts.valueOf_clearFieldError.
Qed.

Lemma run_call_callee c d : classesConsistent (callee c) (run_call c d).
Proof.
  unfold classesConsistent. rewrite valueOf_run_call.
  destruct c as [i m | i]; simpl.
  - rewrite !FunctionJsFacts.hasClass_setFieldError.
    destruct (fields d !! i) as [e |]; [| auto].
    rewrite decide_True by reflexivity. rewrite contains_remove. auto.
  - rewrite !FunctionJsFacts.hasClass_clearFieldError.
    destruct (fields d !! i) as [e |]; [| auto].
    rewrite decide_True by reflexivity.
    destruct (truthy (trim (valueOf i d))).
    + rewrite (contains_add_ne (lit "invalid") (lit "valid"))
        by (intros E; symmetry in E; exact (valid_ne_invalid E)).
      rewrite (contains_remove (lit "invalid")).
      split; [apply andb_false_r | discriminate].
    + rewrite contains_remove. auto.
Qed.

Lemma run_call_other c i d :
  callee c <> i ->
  hasClass (lit "valid") i (run_call c d) = hasClass (lit "valid") i d
  /\ hasClass (lit "invalid") i (run_call c d) = hasClass (lit "invalid") i d.
Proof.
  intros Hne. destruct c as [j m | j]; simpl in *.
  - rewrite !FunctionJsFacts.hasClass_setFieldError.
    unfold hasClass. destruct (fields d !! i); [| auto].
    rewrite decide_False by exact Hne. auto.
  - rewrite !FunctionJsFacts.hasClass_clearFieldError.
    unfold hasClass. destruct (fields d !! i); [| auto].
    rewrite decide_False by exact Hne. auto.
Qed.

Lemma run_call_consistent c i d :
  callee c = i \/ classesConsistent i d -> classesConsistent i (run_call c d).
Proof.
  destruct (decide (callee c = i)) as [<- | Hne].
  - intros _. apply run_call_callee.
  - intros [? | H]; [contradiction |].
    unfold classesConsistent in *. rewrite valueOf_run_call.
    destruct (run_call_other c i d Hne) as [-> ->]. exact H.
Qed.

Lemma run_calls_consistent cs : forall i d,
  Exists (fun c => callee c = i) cs \/ classesConsistent i d ->
  classesConsistent i (run_calls cs d).
Proof.
  induction cs as [| c cs IH]; intros i d H; simpl.
  - destruct H as [H | H]; [inversion H | exact H].
  - apply IH. destruct H as [H | H].
    + inversion H; subst.
      * right. apply run_call_consistent. left. reflexivity.
      * left. assumption.
    + right. apply run_call_consistent. right. exact H.
Qed.

(** C10: on a control of the document, [setFieldError] leaves [invalid]
    without [valid]; [clearFieldError] leaves no [invalid], and [valid]
    exactly when the trimmed value is not empty; and after any sequence of
    the two calls, a control that one of the calls was made on (or that was
    consistent before) carries at most one of the two classes and does not
    carry [valid] if its trimmed value is empty. *)
Theorem valid_invalid_exclusive d i :
  is_Some (fields d !! i) ->
  (forall message,
     hasClass (lit "invalid") i (FunctionJs.setFieldError i message d) = true
     /\ hasClass (lit "valid") i (FunctionJs.setFieldError i message d)
        = false)
  /\ (hasClass (lit "invalid") i (FunctionJs.clearFieldError i d) = false
      /\ hasClass (lit "valid") i (FunctionJs.clearFieldError i d)
         = truthy (trim (valueOf i d)))
  /\ (forall cs,
        Exists (fun c => callee c = i) cs \/ classesConsistent i d ->
        classesConsistent i (run_calls cs d)).
Proof.
  intros [e He]. split; [| split].
  - intros m. rewrite !FunctionJsFacts.hasClass_setFieldError, He.
    rewrite decide_True by reflexivity. split.
    + rewrite contains_remove_ne
        by (intros E; symmetry in E; exact (valid_ne_invalid E)).
      apply contains_add.
    + apply contains_remove.
  - rewrite !FunctionJsFacts.hasClass_clearFieldError, He.
    rewrite decide_True by reflexivity.
    destruct (truthy (trim (valueOf i d))).
    + rewrite contains_add_ne
        by (intros E; symmetry in E; exact (valid_ne_invalid E)).
      split; [apply contains_remove | apply contains_add].
    + rewrite (contains_remove (lit "valid")).
      rewrite contains_remove_ne
        by (intros E; symmetry in E; exact (valid_ne_invalid E)).
      split; [apply contains_remove | reflexivity].
  - intros cs. apply run_calls_consistent.
Qed.

Lemma valid_invalid_exclusive_witness :
  is_Some (fields docBothClasses !! 0%nat)
  /\ ((forall message,
         hasClass (lit "invalid") 0
           (FunctionJs.setFieldError 0 message docBothClasses) = true
         /\ hasClass (lit "valid") 0
              (FunctionJs.setFieldError 0 message docBothClasses) = false)
      /\ (hasClass (lit "invalid") 0
            (FunctionJs.clearFieldError 0 docBothClasses) = false
          /\ hasClass (lit "valid") 0
               (FunctionJs.clearFieldError 0 docBothClasses)
             = truthy (trim (valueOf 0 docBothClasses)))
      /\ (forall cs,
            Exists (fun c => callee c = 0%nat) cs
            \/ classesConsistent 0 docBothClasses ->
            classesConsistent 0 (run_calls cs docBothClasses))).
Proof.
  split; [eexists; reflexivity |].
  apply (valid_invalid_exclusive docBothClasses 0). eexists; reflexivity.
Defined.

(** ** Look-ups depend on the shape of the document only *)

Lemma findFrom_static P Q (l l' : list element) : forall i,
  map static l = map static l' ->
  (forall e e', static e = static e' -> P e = Q e') ->
  findFrom P i l = findFrom Q i l'.
Proof.
  revert l'. induction l as [| e l IH]; intros [| e' l'] i Hs HP;
    try discriminate; [reflexivity |].
  cbn [map findFrom] in *.
  assert (He : static e = static e') by congruence.
  assert (Hl : map static l = map static l') by congruence.
  rewrite (HP e e' He). destruct (Q e'); [reflexivity |].
  apply IH; assumption.
Qed.

Lemma querySelectorName_shape n d d' :
  shape d = shape d' -> querySelectorName n d = querySelectorName n d'.
Proof.
  intros H. unfold querySelectorName. apply findFrom_static; [exact H |].
  intros e e' [= -> _ _]. reflexivity.
Qed.

Lemma shape_lookup i d :
  shape d !! i = static <$> fields d !! i.
Proof. unfold shape. apply list_lookup_fmap. Qed.

Lemma valueOf_shape i d d' : shape d = shape d' -> valueOf i d = valueOf i d'.
Proof.
  intros H. assert (E : shape d !! i = shape d' !! i) by (rewrite H; reflexivity).
  rewrite !shape_lookup in E. unfold valueOf.
  destruct (fields d !! i), (fields d' !! i); simpl in E;
    try discriminate; [| reflexivity].
  injection E as _ E _. exact E.
Qed.

Lemma parentOf_shape i d d' :
  shape d = shape d' -> parentOf i d = parentOf i d'.
Proof.
  intros H. assert (E : shape d !! i = shape d' !! i) by (rewrite H; reflexivity).
  rewrite !shape_lookup in E. unfold parentOf.
  destruct (fields d !! i), (fields d' !! i); simpl in E;
    try discriminate; [| reflexivity].
  injection E as _ _ E. rewrite E. reflexivity.
Qed.

Lemma mayTouch_shape s j d d' :
  shape d = shape d' -> mayTouch s j d -> mayTouch s j d'.
Proof.
  intros H [Hq Hv]. split.
  - rewrite <- (querySelectorName_shape _ d d' H). exact Hq.
  - rewrite <- (valueOf_shape j d d' H). exact Hv.
Qed.

Lemma findFrom_Some P : forall l i0 i,
  findFrom P i0 l = Some i ->
  exists e, l !! (i - i0)%nat = Some e /\ P e = true /\ (i0 <= i)%nat.
Proof.
  induction l as [| e l IH]; intros i0 i H; simpl in H; [discriminate |].
  destruct (P e) eqn:HP.
  - injection H as <-. exists e. rewrite Nat.sub_diag. auto.
  - apply IH in H as (e' & Hl & HPe & Hle). exists e'.
    replace (i - i0)%nat with (S (i - S i0)) by lia. simpl. split; [| split].
    + exact Hl.
    + exact HPe.
    + lia.
Qed.

Lemma querySelectorName_Some n d i :
  querySelectorName n d = Some i ->
  exists e, fields d !! i = Some e /\ name e = n.
Proof.
  intros H. apply findFrom_Some in H as (e & Hl & HP & _).
  rewrite Nat.sub_0_r in Hl. exists e. split; [exact Hl |].
  apply jsstring_eqb_eq. exact HP.
Qed.

Lemma querySelectorName_distinct n n' d i j :
  querySelectorName n d = Some i -> querySelectorName n' d = Some j ->
  n <> n' -> i <> j.
Proof.
  intros Hi Hj Hne ->.
  apply querySelectorName_Some in Hi as (e & He & <-).
  apply querySelectorName_Some in Hj as (e' & He' & <-).
  congruence.
Qed.

(** ** Local updates *)

Lemma shape_alter f j d :
  (forall e, static (f e) = static e) ->
  shape (with_fields (alter f j (fields d)) d) = shape d.
Proof.
  intros Hf. unfold shape. simpl. generalize (fields d). clear d.
  intros l. revert j. induction l as [| e l IH]; intros [| j]; simpl;
    try reflexivity.
  - rewrite Hf. reflexivity.
  - f_equal. apply IH.
Qed.

Lemma local_alter f j :
  (forall e, static (f e) = static e) ->
  localUpdate j (fun d => with_fields (alter f j (fields d)) d).
Proof.
  intros Hf d. split; [| split; [| split]].
  - apply shape_alter. exact Hf.
  - intros i Hne. simpl. apply list_lookup_alter_ne. congruence.
  - reflexivity.
  - auto.
Qed.

Lemma local_writeErrorSpan j m : localUpdate j (writeErrorSpan j m).
Proof.
  intros d. unfold writeErrorSpan, parentOf.
  destruct (fields d !! j) as [e |]; [| repeat split; auto].
  destruct (errorSpans d !! parentElement e) eqn:Hs; [| repeat split; auto].
  split; [| split; [| split]]; simpl; try reflexivity.
  - intros p Hp. apply lookup_insert_ne. congruence.
  - intros p Hp. destruct (decide (parentElement e = p)) as [-> | Hne].
    + rewrite lookup_insert_eq. eauto.
    + rewrite lookup_insert_ne by exact Hne. exact Hp.
Qed.

Lemma local_compose j op1 op2 :
  localUpdate j op1 -> localUpdate j op2 ->
  localUpdate j (fun d => op2 (op1 d)).
Proof.
  intros H1 H2 d.
  destruct (H1 d) as (S1 & F1 & E1 & K1).
  destruct (H2 (op1 d)) as (S2 & F2 & E2 & K2).
  split; [| split; [| split]].
  - congruence.
  - intros i Hi. rewrite F2, F1 by exact Hi. reflexivity.
  - intros p Hp. rewrite E2, E1; [reflexivity | exact Hp |].
    rewrite (parentOf_shape j _ _ S1). exact Hp.
  - auto.
Qed.

Lemma local_setFieldError j m : localUpdate j (FunctionJs.setFieldError j m).
Proof.
  unfold FunctionJs.setFieldError.
  apply (local_compose j
           (fun d => with_fields (alter _ j (fields d)) d)
           (writeErrorSpan j m)).
  - apply local_alter. reflexivity.
  - apply local_writeErrorSpan.
Qed.

Lemma local_clearFieldError j : localUpdate j (FunctionJs.clearFieldError j).
Proof.
  intros d. unfold FunctionJs.clearFieldError.
  set (d1 := with_fields _ d).
  assert (L1 : localUpdate j (fun d =>
            with_fields (alter (set_classList
              (classList_remove (lit "invalid"))) j (fields d)) d))
    by (apply local_alter; reflexivity).
  destruct (truthy (trim (valueOf j d1))).
  - apply (local_compose j _ (fun d1 => writeErrorSpan j []
             (with_fields (alter (set_classList
                (classList_add (lit "valid"))) j (fields d1)) d1)) L1).
    apply (local_compose j _ (writeErrorSpan j [])).
    + apply local_alter. reflexivity.
    + apply local_writeErrorSpan.
  - apply (local_compose j _ (fun d1 => writeErrorSpan j []
             (with_fields (alter (set_classList
                (classList_remove (lit "valid"))) j (fields d1)) d1)) L1).
    apply (local_compose j _ (writeErrorSpan j [])).
    + apply local_alter. reflexivity.
    + apply local_writeErrorSpan.
Qed.

Lemma local_markInvalid j m : localUpdate j (InlineStyle.markInvalid j m).
Proof.
  unfold InlineStyle.markInvalid.
  apply (local_compose j
           (fun d => with_fields (alter _ j (fields d)) d)
           (fun d1 => match fields d1 !! j with
                      | Some e => with_errorSpans
                                    (<[parentElement e := m]> (errorSpans d1))
                                    d1
                      | None => d1
                      end)).
  - apply local_alter. reflexivity.
  - intros d. unfold parentOf.
    destruct (fields d !! j) as [e |]; [| repeat split; auto].
    split; [| split; [| split]]; simpl; try reflexivity.
    + intros p Hp. apply lookup_insert_ne. congruence.
    + intros p Hp. destruct (decide (parentElement e = p)) as [-> | Hne].
      * rewrite lookup_insert_eq. eauto.
      * rewrite lookup_insert_ne by exact Hne. exact Hp.
Qed.

Lemma local_markValid j : localUpdate j (InlineStyle.markValid j).
Proof.
  unfold InlineStyle.markValid.
  apply (local_compose j
           (fun d => with_fields (alter _ j (fields d)) d)
           (writeErrorSpan j [])).
  - apply local_alter. reflexivity.
  - apply local_writeErrorSpan.
Qed.

Lemma local_id j : localUpdate j (fun d => d).
Proof. intros d. repeat split; auto. Qed.

(** ** Every step of [validateForm] is framed *)

Lemma framedAt_noop s d v : sfun s (d, v) = (d, v) -> framedAt s d v.
Proof. intros E. unfold framedAt. rewrite E. simpl. repeat split; auto. Qed.

Lemma framedAt_local s d v j op v' :
  mayTouch s j d -> localUpdate j op -> (v = false -> v' = false) ->
  sfun s (d, v) = (op d, v') -> framedAt s d v.
Proof.
  intros Ht Hop Hv E. unfold framedAt. rewrite E. simpl.
  destruct (Hop d) as (S1 & F1 & E1 & K1).
  split; [exact S1 |]. split; [exact Hv |]. split; [exact K1 |]. split.
  - intros i Hi. apply F1. intros ->. exact (Hi j Ht eq_refl).
  - intros p Hp. apply E1. exact (Hp j Ht).
Qed.

Lemma framed_FunctionJs_checkRequired f :
  framed {| sname := FunctionJs.fname f; needsValue := false;
            sfun := FunctionJs.checkRequired f |}.
Proof.
  intros d v.
  destruct (querySelectorName (FunctionJs.fname f) d) as [j |] eqn:Hq.
  - assert (Ht : mayTouch {| sname := FunctionJs.fname f;
      needsValue := false; sfun := FunctionJs.checkRequired f |} j d)
      by (split; [exact Hq | discriminate]).
    destruct (truthy (trim (valueOf j d))) eqn:Hv;
      [destruct (jsstring_eqb (FunctionJs.ftype f) (lit "email")
                 && negb (isValidEmail (trim (valueOf j d)))) eqn:He |].
    + eapply (framedAt_local _ d v j _ false Ht (local_setFieldError j _));
        [reflexivity |].
      simpl. unfold FunctionJs.checkRequired. rewrite Hq, Hv, He. reflexivity.
    + eapply (framedAt_local _ d v j _ v Ht (local_clearFieldError j));
        [auto |].
      simpl. unfold FunctionJs.checkRequired. rewrite Hq, Hv, He. reflexivity.
    + eapply (framedAt_local _ d v j _ false Ht (local_setFieldError j _));
        [reflexivity |].
      simpl. unfold FunctionJs.checkRequired. rewrite Hq, Hv. reflexivity.
  - apply framedAt_noop. simpl. unfold FunctionJs.checkRequired.
    rewrite Hq. reflexivity.
Qed.

Lemma framed_FunctionJs_checkPhone n :
  framed {| sname := n; needsValue := false;
            sfun := FunctionJs.checkPhone n |}.
Proof.
  intros d v.
  destruct (querySelectorName n d) as [j |] eqn:Hq.
  - assert (Ht : mayTouch {| sname := n; needsValue := false;
      sfun := FunctionJs.checkPhone n |} j d)
      by (split; [exact Hq | discriminate]).
    destruct (truthy (trim (valueOf j d))
              && negb (isValidPhone (trim (valueOf j d)))) eqn:H1;
      [| destruct (truthy (trim (valueOf j d))
                   || hasClass (lit "invalid") j d) eqn:H2].
    + eapply (framedAt_local _ d v j _ false Ht (local_setFieldError j _));
        [reflexivity |].
      simpl. unfold FunctionJs.checkPhone. rewrite Hq, H1. reflexivity.
    + eapply (framedAt_local _ d v j _ v Ht (local_clearFieldError j));
        [auto |].
      simpl. unfold FunctionJs.checkPhone. rewrite Hq, H1, H2. reflexivity.
    + apply framedAt_noop. simpl. unfold FunctionJs.checkPhone.
      rewrite Hq, H1, H2. reflexivity.
  - apply framedAt_noop. simpl. unfold FunctionJs.checkPhone.
    rewrite Hq. reflexivity.
Qed.

Lemma framed_FunctionJs_checkURL :
  framed {| sname := lit "url"; needsValue := false;
            sfun := FunctionJs.checkURL |}.
Proof.
  intros d v.
  destruct (querySelectorName (lit "url") d) as [j |] eqn:Hq.
  - assert (Ht : mayTouch {| sname := lit "url"; needsValue := false;
      sfun := FunctionJs.checkURL |} j d)
      by (split; [exact Hq | discriminate]).
    destruct (truthy (trim (valueOf j d))
              && negb (isValidURL (trim (valueOf j d)))) eqn:H1;
      [| destruct (truthy (trim (valueOf j d))
                   || hasClass (lit "invalid") j d) eqn:H2].
    + eapply (framedAt_local _ d v j _ false Ht (local_setFieldError j _));
        [reflexivity |].
      simpl. unfold FunctionJs.checkURL. rewrite Hq, H1. reflexivity.
    + eapply (framedAt_local _ d v j _ v Ht (local_clearFieldError j));
        [auto |].
      simpl. unfold FunctionJs.checkURL. rewrite Hq, H1, H2. reflexivity.
    + apply framedAt_noop. simpl. unfold FunctionJs.checkURL.
      rewrite Hq, H1, H2. reflexivity.
  - apply framedAt_noop. simpl. unfold FunctionJs.checkURL.
    rewrite Hq. reflexivity.
Qed.

Lemma framed_InlineStyle_checkRequired f :
  framed {| sname := InlineStyle.fname f; needsValue := false;
            sfun := InlineStyle.checkRequired f |}.
Proof.
  intros d v.
  destruct (querySelectorName (InlineStyle.fname f) d) as [j |] eqn:Hq.
  - assert (Ht : mayTouch {| sname := InlineStyle.fname f;
      needsValue := false; sfun := InlineStyle.checkRequired f |} j d)
      by (split; [exact Hq | discriminate]).
    destruct (truthy (trim (valueOf j d))) eqn:Hv.
    + eapply (framedAt_local _ d v j _ v Ht (local_markValid j)); [auto |].
      simpl. unfold InlineStyle.checkRequired. rewrite Hq, Hv. reflexivity.
    + eapply (framedAt_local _ d v j _ false Ht (local_markInvalid j _));
        [reflexivity |].
      simpl. unfold InlineStyle.checkRequired. rewrite Hq, Hv. reflexivity.
  - apply framedAt_noop. simpl. unfold InlineStyle.checkRequired.
    rewrite Hq. reflexivity.
Qed.

Lemma framed_InlineStyle_checkFormat n valid m :
  framed {| sname := n; needsValue := true;
            sfun := InlineStyle.checkFormat n valid m |}.
Proof.
  intros d v.
  destruct (querySelectorName n d) as [j |] eqn:Hq.
  - destruct (truthy (trim (valueOf j d))
              && negb (valid (valueOf j d))) eqn:H1.
    + assert (Ht : mayTouch {| sname := n; needsValue := true;
        sfun := InlineStyle.checkFormat n valid m |} j d).
      { split; [exact Hq |]. intros _.
        apply andb_true_iff in H1 as [H1 _]. exact H1. }
      eapply (framedAt_local _ d v j _ false Ht (local_markInvalid j _));
        [reflexivity |].
      simpl. unfold InlineStyle.checkFormat. rewrite Hq, H1. reflexivity.
    + apply framedAt_noop. simpl. unfold InlineStyle.checkFormat.
      rewrite Hq, H1. reflexivity.
  - apply framedAt_noop. simpl. unfold InlineStyle.checkFormat.
    rewrite Hq. reflexivity.
Qed.

Lemma framed_FunctionJs_steps : Forall framed FunctionJs_steps.
Proof.
  unfold FunctionJs_steps, FunctionJs.requiredFields, FunctionJs.phoneFields.
  cbn [map app].
  repeat (apply Forall_cons; split);
    [apply framed_FunctionJs_checkRequired ..
    | apply framed_FunctionJs_checkPhone
    | apply framed_FunctionJs_checkPhone
    | apply framed_FunctionJs_checkURL
    | apply Forall_nil; exact I].
Qed.

Lemma framed_InlineStyle_steps : Forall framed InlineStyle_steps.
Proof.
  unfold InlineStyle_steps, InlineStyle.requiredFields.
  cbn [map app].
  repeat (apply Forall_cons; split);
    [apply framed_InlineStyle_checkRequired ..
    | apply framed_InlineStyle_checkFormat
    | apply framed_InlineStyle_checkFormat
    | apply framed_InlineStyle_checkFormat
    | apply framed_InlineStyle_checkFormat
    | apply Forall_nil; exact I].
Qed.

Lemma FunctionJs_validateForm_steps d :
  FunctionJs.validateForm d = run_steps FunctionJs_steps (d, true).
Proof. reflexivity. Qed.

Lemma InlineStyle_validateForm_steps d :
  InlineStyle.validateForm d = run_steps InlineStyle_steps (d, true).
Proof. reflexivity. Qed.

Lemma run_steps_framed L : Forall framed L -> forall d v,
  shape (fst (run_steps L (d, v))) = shape d
  /\ (v = false -> snd (run_steps L (d, v)) = false)
  /\ (forall p, is_Some (errorSpans d !! p) ->
                is_Some (errorSpans (fst (run_steps L (d, v))) !! p))
  /\ (forall i, (forall s j, s ∈ L -> mayTouch s j d -> j <> i) ->
                fields (fst (run_steps L (d, v))) !! i = fields d !! i)
  /\ (forall p,
        (forall s j, s ∈ L -> mayTouch s j d -> parentOf j d <> Some p) ->
        errorSpans (fst (run_steps L (d, v))) !! p = errorSpans d !! p).
Proof.
  induction 1 as [| s L Hs _ IH]; intros d v.
  - simpl. repeat split; auto.
  - change (run_steps (s :: L) (d, v)) with (run_steps L (sfun s (d, v))).
    destruct (Hs d v) as (S1 & V1 & K1 & F1 & E1).
    destruct (sfun s (d, v)) as [d1 v1]. simpl in S1, V1, K1, F1, E1.
    destruct (IH d1 v1) as (S2 & V2 & K2 & F2 & E2).
    split; [congruence |]. split; [auto |]. split; [auto |]. split.
    + intros i Hi. rewrite F2.
      * apply F1. intros j Hj. apply (Hi s j); [left | exact Hj].
      * intros s' j Hin Hj. apply (Hi s' j); [right; exact Hin |].
        apply (mayTouch_shape s' j d1 d S1 Hj).
    + intros p Hp. rewrite E2.
      * apply E1. intros j Hj. apply (Hp s j); [left | exact Hj].
      * intros s' j Hin Hj. rewrite (parentOf_shape j d1 d S1).
        apply (Hp s' j); [right; exact Hin |].
        apply (mayTouch_shape s' j d1 d S1 Hj).
Qed.

Lemma run_steps_app pre post st :
  run_steps (pre ++ post) st = run_steps post (run_steps pre st).
Proof. unfold run_steps. apply fold_left_app. Qed.

(** The step that finds a required control empty wins: it turns [isValid]
    to [false], and what it wrote to the control and to the span of its
    parent is what [validateForm] leaves, as far as the later steps look up
    other controls in other parents. *)
Lemma empty_required_step L pre s post d i (op : dom -> dom) :
  L = pre ++ s :: post -> Forall framed L ->
  querySelectorName (sname s) d = Some i ->
  truthy (trim (valueOf i d)) = false ->
  localUpdate i op ->
  (forall d0 v, querySelectorName (sname s) d0 = Some i ->
                truthy (trim (valueOf i d0)) = false ->
                sfun s (d0, v) = (op d0, false)) ->
  forallb (fun s' => existsb (jsstring_eqb (sname s')) validatedNames
                     && (negb (jsstring_eqb (sname s') (sname s))
                         || needsValue s')) post = true ->
  shape (fst (run_steps pre (d, true))) = shape d
  /\ snd (run_steps L (d, true)) = false
  /\ fields (fst (run_steps L (d, true))) !! i
     = fields (op (fst (run_steps pre (d, true)))) !! i
  /\ (forall p, is_Some (errorSpans d !! p) ->
        is_Some (errorSpans (fst (run_steps pre (d, true))) !! p)).
Proof.
  intros -> HL Hq Hblank Hop Hs Hpost.
  apply Forall_app in HL as [Hpre HL].
  apply Forall_cons in HL as [_ Hfr].
  destruct (run_steps_framed pre Hpre d true) as (S0 & _ & K0 & _ & _).
  rewrite run_steps_app.
  change (run_steps (s :: post) (run_steps pre (d, true)))
    with (run_steps post (sfun s (run_steps pre (d, true)))).
  destruct (run_steps pre (d, true)) as [d0 v0]. simpl in S0, K0. simpl fst.
  rewrite (Hs d0 v0)
    by (rewrite ?(querySelectorName_shape _ d0 d S0),
                ?(valueOf_shape i d0 d S0); assumption).
  destruct (Hop d0) as (S1 & _ & _ & _).
  destruct (run_steps_framed post Hfr (op d0) false) as (_ & V2 & _ & F2 & _).
  assert (Hsh : shape (op d0) = shape d) by congruence.
  assert (Hfar : forall s' j, s' ∈ post -> mayTouch s' j (op d0) ->
            j <> i /\ sname s' ∈ validatedNames
            /\ querySelectorName (sname s') d = Some j).
  { intros s' j Hin Ht. apply (mayTouch_shape s' j _ d Hsh) in Ht.
    destruct Ht as [Hq' Hv'].
    rewrite forallb_forall in Hpost.
    specialize (Hpost s' (proj1 (list_elem_of_In _ _) Hin)).
    apply andb_true_iff in Hpost as [Hn Hd].
    apply existsb_exists in Hn as (n' & Hn' & En').
    apply jsstring_eqb_eq in En'. subst n'.
    apply list_elem_of_In in Hn'.
    split; [| split; assumption].
    apply orb_true_iff in Hd as [Hd | Hd].
    - apply negb_true_iff in Hd.
      apply (querySelectorName_distinct (sname s') (sname s) d j i Hq' Hq).
      intros E. apply jsstring_eqb_eq in E. congruence.
    - intros ->. specialize (Hv' Hd). congruence. }
  split; [exact S0 |]. split; [apply V2; reflexivity |].
  split; [| exact K0].
  apply F2. intros s' j Hin Ht. apply (Hfar s' j Hin Ht).
Qed.

Lemma requiredLabels_InlineStyle :
  map (fun f => (InlineStyle.fname f, InlineStyle.flabel f))
      InlineStyle.requiredFields = requiredLabels.
Proof. reflexivity. Qed.

Lemma errorSpanOf_parentOf i d p :
  parentOf i d = Some p -> errorSpanOf i d = errorSpans d !! p.
Proof.
  unfold parentOf, errorSpanOf. destruct (fields d !! i); [| discriminate].
  intros [= ->]. reflexivity.
Qed.

Lemma errorSpans_setFieldError i m d p :
  parentOf i d = Some p -> is_Some (errorSpans d !! p) ->
  errorSpans (FunctionJs.setFieldError i m d) !! p = Some m.
Proof.
  unfold parentOf, FunctionJs.setFieldError, writeErrorSpan. simpl.
  rewrite list_lookup_alter_eq.
  destruct (fields d !! i) as [e |]; [| discriminate].
  intros [= <-] [x Hx]. simpl. rewrite Hx. simpl. apply lookup_insert_eq.
Qed.

Lemma errorSpans_markInvalid i m d p :
  parentOf i d = Some p ->
  errorSpans (InlineStyle.markInvalid i m d) !! p = Some m.
Proof.
  unfold parentOf, InlineStyle.markInvalid. simpl.
  rewrite list_lookup_alter_eq.
  destruct (fields d !! i) as [e |]; [| discriminate].
  intros [= <-]. simpl. apply lookup_insert_eq.
Qed.

Lemma style_markInvalid i m d :
  is_Some (fields d !! i) ->
  attrOf borderColor i (InlineStyle.markInvalid i m d) = lit "#dc3545"
  /\ attrOf backgroundColor i (InlineStyle.markInvalid i m d) = lit "#fff5f5".
Proof.
  intros [e He]. unfold attrOf, InlineStyle.markInvalid. simpl.
  rewrite list_lookup_alter_eq, He. simpl.
  rewrite list_lookup_alter_eq, He. simpl. auto.
Qed.

Lemma parentOf_is_Some i d : is_Some (fields d !! i) -> is_Some (parentOf i d).
Proof. unfold parentOf. intros [e ->]. eauto. Qed.


(** What the second script leaves of a required control found empty. *)
Lemma InlineStyle_empty_required pre f post d i :
  InlineStyle_steps
  = pre ++ {| sname := InlineStyle.fname f; needsValue := false;
              sfun := InlineStyle.checkRequired f |} :: post ->
  forallb (fun s' => existsb (jsstring_eqb (sname s')) validatedNames
                     && (negb (jsstring_eqb (sname s') (InlineStyle.fname f))
                         || needsValue s')) post = true ->
  querySelectorName (InlineStyle.fname f) d = Some i ->
  truthy (trim (valueOf i d)) = false ->
  snd (InlineStyle.validateForm d) = false
  /\ attrOf borderColor i (fst (InlineStyle.validateForm d)) = lit "#dc3545"
  /\ attrOf backgroundColor i (fst (InlineStyle.validateForm d))
     = lit "#fff5f5".
Proof.
  intros HL Hpost Hq Hblank. rewrite InlineStyle_validateForm_steps.
  set (m := InlineStyle.flabel f ++ lit " is required").
  destruct (empty_required_step InlineStyle_steps pre _ post d i
              (InlineStyle.markInvalid i m) HL framed_InlineStyle_steps
              Hq Hblank (local_markInvalid i m))
    as (S0 & V & F & _).
  { intros d0 v Hq0 Hb0. cbn [sname sfun] in *.
    unfold InlineStyle.checkRequired.
    rewrite Hq0, Hb0. reflexivity. }
  { exact Hpost. }
  destruct (run_steps_framed _ framed_InlineStyle_steps d true)
    as (Sfin & _).
  set (d0 := fst (run_steps pre (d, true))) in *.
  set (d' := fst (run_steps InlineStyle_steps (d, true))) in *.
  destruct (querySelectorName_Some _ _ _ Hq) as (e & He & _).
  assert (He0 : is_Some (fields d0 !! i)).
  { assert (X : shape d0 !! i = shape d !! i) by (rewrite S0; reflexivity).
    rewrite !shape_lookup, He in X. destruct (fields d0 !! i); eauto.
    discriminate. }
  assert (Ha : forall a, attrOf a i d'
                         = attrOf a i (InlineStyle.markInvalid i m d0)).
  { intros a. unfold attrOf. rewrite F. reflexivity. }
  destruct (style_markInvalid i m d0 He0) as [Hb Hg].
  split; [exact V |]. split.
  - rewrite Ha. exact Hb.
  - rewrite Ha. exact Hg.
Qed.











(** ** Submission *)

Lemma writeErrorSpan_lift b i m d :
  writeErrorSpan i m (with_formMessages b d)
  = with_formMessages b (writeErrorSpan i m d).
Proof.
  unfold writeErrorSpan. simpl.
  destruct (fields d !! i) as [e |]; [| reflexivity].
  destruct (errorSpans d !! parentElement e); reflexivity.
Qed.

Lemma setFieldError_lift b i m d :
  FunctionJs.setFieldError i m (with_formMessages b d)
  = with_formMessages b (FunctionJs.setFieldError i m d).
Proof.
  unfold FunctionJs.setFieldError. rewrite <- writeErrorSpan_lift.
  reflexivity.
Qed.

Lemma clearFieldError_lift b i d :
  FunctionJs.clearFieldError i (with_formMessages b d)
  = with_formMessages b (FunctionJs.clearFieldError i d).
Proof.
  unfold FunctionJs.clearFieldError. rewrite <- writeErrorSpan_lift.
  change (valueOf i (with_fields
            (alter (set_classList (classList_remove (lit "invalid"))) i
                   (fields (with_formMessages b d)))
            (with_formMessages b d)))
    with (valueOf i (with_fields
            (alter (set_classList (classList_remove (lit "invalid"))) i
                   (fields d)) d)).
  destruct (truthy _); reflexivity.
Qed.

Lemma checkRequired_lift b f st :
  FunctionJs.checkRequired f (lift b st)
  = lift b (FunctionJs.checkRequired f st).
Proof.
  destruct st as [d v]. unfold lift, FunctionJs.checkRequired. cbn [fst snd].
  change (querySelectorName (FunctionJs.fname f) (with_formMessages b d))
    with (querySelectorName (FunctionJs.fname f) d).
  destruct (querySelectorName (FunctionJs.fname f) d) as [j |];
    [| reflexivity].
  change (valueOf j (with_formMessages b d)) with (valueOf j d).
  destruct (negb (truthy (trim (valueOf j d))));
    [rewrite setFieldError_lift; reflexivity |].
  destruct (_ && _);
    [rewrite setFieldError_lift | rewrite clearFieldError_lift]; reflexivity.
Qed.

Lemma checkPhone_lift b n st :
  FunctionJs.checkPhone n (lift b st) = lift b (FunctionJs.checkPhone n st).
Proof.
  destruct st as [d v]. unfold lift, FunctionJs.checkPhone. cbn [fst snd].
  change (querySelectorName n (with_formMessages b d))
    with (querySelectorName n d).
  destruct (querySelectorName n d) as [j |]; [| reflexivity].
  change (valueOf j (with_formMessages b d)) with (valueOf j d).
  change (hasClass (lit "invalid") j (with_formMessages b d))
    with (hasClass (lit "invalid") j d).
  destruct (_ && _); [rewrite setFieldError_lift; reflexivity |].
  destruct (_ || _); [rewrite clearFieldError_lift |]; reflexivity.
Qed.

Lemma checkURL_lift b st :
  FunctionJs.checkURL (lift b st) = lift b (FunctionJs.checkURL st).
Proof.
  destruct st as [d v]. unfold lift, FunctionJs.checkURL. cbn [fst snd].
  change (querySelectorName (lit "url") (with_formMessages b d))
    with (querySelectorName (lit "url") d).
  destruct (querySelectorName (lit "url") d) as [j |]; [| reflexivity].
  change (valueOf j (with_formMessages b d)) with (valueOf j d).
  change (hasClass (lit "invalid") j (with_formMessages b d))
    with (hasClass (lit "invalid") j d).
  destruct (_ && _); [rewrite setFieldError_lift; reflexivity |].
  destruct (_ || _); [rewrite clearFieldError_lift |]; reflexivity.
Qed.

(** [validateForm] neither reads nor writes the [#form-messages] box. *)
Lemma validateForm_lift b d :
  FunctionJs.validateForm (with_formMessages b d)
  = lift b (FunctionJs.validateForm d).
Proof.
  unfold FunctionJs.validateForm, FunctionJs.requiredFields,
    FunctionJs.phoneFields. cbn [fold_left].
  change (with_formMessages b d, true) with (lift b (d, true)).
  rewrite !checkRequired_lift, !checkPhone_lift, checkURL_lift. reflexivity.
Qed.

Lemma handleFormSubmit_result d e :
  snd (FunctionJs.handleFormSubmit d e) = snd (FunctionJs.validateForm d)
  /\ snd (fst (FunctionJs.handleFormSubmit d e))
     = if snd (FunctionJs.validateForm d) then e else preventDefault e.
Proof.
  unfold FunctionJs.handleFormSubmit.
  assert (E : snd (FunctionJs.validateForm
                     match formMessages d with
                     | Some _ => FunctionJs.hideMessage d
                     | None => d
                     end) = snd (FunctionJs.validateForm d)).
  { destruct (formMessages d); [| reflexivity].
    unfold FunctionJs.hideMessage. rewrite validateForm_lift. reflexivity. }
  rewrite <- E.
  destruct (FunctionJs.validateForm _) as [d2 [|]]; cbn [negb snd fst];
    auto.
Qed.

Lemma submitListener_result d e :
  snd (InlineStyle.submitListener d e) = snd (InlineStyle.validateForm d)
  /\ snd (fst (InlineStyle.submitListener d e))
     = if snd (InlineStyle.validateForm d) then e else preventDefault e.
Proof.
  unfold InlineStyle.submitListener.
  destruct (InlineStyle.validateForm d) as [d1 [|]]; cbn [negb snd fst]; auto.
Qed.

(** C1: in both scripts the submit handler returns what [validateForm]
    returns; it calls [preventDefault] exactly when that is [false], and
    otherwise leaves the event alone, so that the native submission goes
    ahead exactly when [validateForm] returns [true]. *)
Theorem submit_blocked_iff_invalid d e :
  (snd (FunctionJs.handleFormSubmit d e) = snd (FunctionJs.validateForm d)
   /\ snd (fst (FunctionJs.handleFormSubmit d e))
      = (if snd (FunctionJs.validateForm d) then e else preventDefault e)
   /\ nativeSubmissionProceeds FunctionJs.handleFormSubmit d
      = snd (FunctionJs.validateForm d))
  /\ (snd (InlineStyle.submitListener d e) = snd (InlineStyle.validateForm d)
      /\ snd (fst (InlineStyle.submitListener d e))
         = (if snd (InlineStyle.validateForm d) then e else preventDefault e)
      /\ nativeSubmissionProceeds InlineStyle.submitListener d
         = snd (InlineStyle.validateForm d)).
Proof.
  split.
  - destruct (handleFormSubmit_result d e) as [H1 H2].
    split; [exact H1 |]. split; [exact H2 |].
    unfold nativeSubmissionProceeds.
    destruct (handleFormSubmit_result d {| defaultPrevented := false |})
      as [_ H3].
    destruct (FunctionJs.handleFormSubmit d {| defaultPrevented := false |})
      as [[d' e'] r] eqn:Eh.
    cbn [fst snd] in H3. rewrite H3.
    destruct (snd (FunctionJs.validateForm d)); reflexivity.
  - destruct (submitListener_result d e) as [H1 H2].
    split; [exact H1 |]. split; [exact H2 |].
    unfold nativeSubmissionProceeds.
    destruct (submitListener_result d {| defaultPrevented := false |})
      as [_ H3].
    destruct (InlineStyle.submitListener d {| defaultPrevented := false |})
      as [[d' e'] r] eqn:Eh.
    cbn [fst snd] in H3. rewrite H3.
    destruct (snd (InlineStyle.validateForm d)); reflexivity.
Qed.

(** ** The debounced e-mail check *)
Module DebounceFacts.
Import Debounce.
Local Open Scope Z_scope.

Lemma func_frame emailInput now s :
  tm (func emailInput now s) = tm s
  /\ timeout (func emailInput now s) = timeout s
  /\ (history (func emailInput now s) = history s
      \/ history (func emailInput now s) = Validated now :: history s).
Proof. unfold func. destruct (_ <? _)%nat; simpl; auto. Qed.

Lemma init_invariant d : invariant (init d).
Proof.
  split; [exact I |]. intros h due H. simpl in H.
  rewrite lookup_empty in H. discriminate.
Qed.

(** Clearing the timer that [timeout] holds leaves no active timer. *)
Lemma clearTimeout_empty s :
  pendingOK s -> active (clearTimeout (timeout s) (tm s)) = ∅.
Proof.
  intros Hp. apply map_empty. intros h.
  destruct (active (clearTimeout (timeout s) (tm s)) !! h) as [due |] eqn:E;
    [exfalso | reflexivity].
  unfold clearTimeout in E. destruct (timeout s) as [h0 |] eqn:Ht.
  - simpl in E. destruct (decide (h0 = h)) as [-> | Hne].
    + rewrite lookup_delete_eq in E. discriminate.
    + rewrite lookup_delete_ne in E by exact Hne.
      destruct (Hp h due E) as [Hh _]. congruence.
  - destruct (Hp h due E) as [Hh _]. congruence.
Qed.

Lemma step_Input emailInput s t v s' :
  pendingOK s -> step emailInput s (Input t v) = Some s' ->
  active (tm s') = {[ nextHandle (tm s) := t + wait ]}
  /\ timeout s' = Some (nextHandle (tm s))
  /\ history s' = Keystroke t :: history s.
Proof.
  intros Hp H. simpl in H. destruct (clock s <=? t); [| discriminate].
  injection H as <-. unfold executedFunction, setTimeout. simpl.
  rewrite (clearTimeout_empty s Hp).
  replace (nextHandle (clearTimeout (timeout s) (tm s)))
    with (nextHandle (tm s)) by (destruct (timeout s); reflexivity).
  rewrite insert_empty. auto.
Qed.

Lemma step_invariant emailInput s a s' :
  invariant s -> step emailInput s a = Some s' -> invariant s'.
Proof.
  intros [Hd Hp] H. destruct a as [t v | t h].
  - destruct (step_Input emailInput s t v s' Hp H) as (Ha & Ht & Hh).
    split.
    + rewrite Hh. exact Hd.
    + intros h due E. rewrite Ha in E.
      apply lookup_singleton_Some in E as [<- <-].
      split; [exact Ht |]. rewrite Hh. eauto.
  - simpl in H. destruct (active (tm s) !! h) as [due |] eqn:Hdue;
      [| discriminate].
    destruct ((clock s <=? t) && (due <=? t)) eqn:Hc; [| discriminate].
    apply andb_true_iff in Hc as [_ Hc]. apply Z.leb_le in Hc.
    injection H as <-. unfold later.
    match goal with |- invariant (func _ _ ?x) =>
      destruct (func_frame emailInput t x) as (Etm & Eto & Eh) end.
    destruct (Hp h due Hdue) as (Hto & t0 & rest & Hhist & ->).
    split.
    + destruct Eh as [Eh | Eh]; rewrite Eh; cbn [history]; [exact Hd |].
      rewrite Hhist in *. simpl. split; [exact Hc | exact Hd].
    + intros h' due' E. exfalso.
      rewrite Etm in E. cbn [tm active] in E.
      destruct (decide (h = h')) as [-> | Hne].
      * rewrite lookup_delete_eq in E. discriminate.
      * rewrite lookup_delete_ne in E by exact Hne.
        destruct (Hp h' due' E) as [Hh' _]. congruence.
Qed.

Lemma run_invariant emailInput l : forall s s',
  invariant s -> run emailInput s l = Some s' -> invariant s'.
Proof.
  induction l as [| a l IH]; intros s s' Hi H; simpl in H.
  - injection H as <-. exact Hi.
  - destruct (step emailInput s a) as [s1 |] eqn:E; [| discriminate].
    apply (IH s1 s'); [| exact H].
    apply (step_invariant emailInput s a s1 Hi E).
Qed.

(** C7: whatever the user types and whenever the browser runs timers,
    every run of [validateField] from the debounced handler directly
    follows a keystroke that is at least 500 milliseconds older, so that no
    two runs share a quiet period; at any moment at most one timer is
    active, the one set by the latest keystroke and due 500 milliseconds
    after it; and a further keystroke replaces it by a fresh timer. *)
Theorem debounce_defers emailInput d l s :
  run emailInput (init d) l = Some s ->
  debounced (history s)
  /\ (forall h due, active (tm s) !! h = Some due ->
        timeout s = Some h
        /\ exists t0 rest, history s = Keystroke t0 :: rest
                           /\ due = t0 + 500)
  /\ (forall t v s', step emailInput s (Input t v) = Some s' ->
        active (tm s') = {[ nextHandle (tm s) := t + 500 ]}
        /\ history s' = Keystroke t :: history s).
Proof.
  intros H.
  destruct (run_invariant emailInput l (init d) s (init_invariant d) H)
    as [Hd Hp].
  split; [exact Hd |]. split; [exact Hp |].
  intros t v s' Hs.
  destruct (step_Input emailInput s t v s' Hp Hs) as (Ha & _ & Hh). auto.
Qed.

Lemma debounce_defers_witness :
  exists s,
    run 1 (init docOwnParents) session = Some s
    /\ history s = [Validated 1300; Keystroke 700; Validated 600;
                    Keystroke 100; Keystroke 0]
    /\ debounced (history s).
Proof.
  destruct (run 1 (init docOwnParents) session) as [s |] eqn:E;
    [| vm_compute in E; discriminate].
  exists s. split; [reflexivity |]. split.
  - vm_compute in E. injection E as <-. reflexivity.
  - apply (debounce_defers 1 docOwnParents session s E).
Defined.

End DebounceFacts.

(** * Further properties of the scripts *)

(** ** What the validators accept *)

Lemma lang_star_notclass items s :
  lang (Star (NotClass items)) s <->
  Forall (fun c => class_matches items c = false) s.
Proof.
  split.
  - intros H. remember (Star (NotClass items)) as q eqn:Eq.
    induction H; try discriminate.
    + constructor.
    + injection Eq as ->. inversion H; subst. simpl.
      constructor; auto.
  - induction 1 as [| c s Hc _ IH].
    + constructor.
    + change (lang (Star (NotClass items)) ([c] ++ s)).
      constructor; [constructor |]; assumption.
Qed.

Lemma lang_plus_notclass items s :
  lang (Plus (NotClass items)) s <->
  s <> [] /\ Forall (fun c => class_matches items c = false) s.
Proof.
  split.
  - intros H. inversion H as [| | | | | | | | | r s1 s2 H1 H2]; subst.
    inversion H1; subst. simpl. split; [discriminate |].
    constructor; [assumption | apply lang_star_notclass; assumption].
  - intros [Hne Hall]. destruct Hall as [| c s Hc Hs]; [congruence |].
    change (lang (Plus (NotClass items)) ([c] ++ s)).
    constructor; [constructor; assumption
                 | apply lang_star_notclass; assumption].
Qed.

Lemma lang_seq_inv r1 r2 s :
  lang (Seq r1 r2) s <-> exists s1 s2, s = s1 ++ s2 /\ lang r1 s1 /\ lang r2 s2.
Proof.
  split.
  - intros H. inversion H; subst. eauto.
  - intros (s1 & s2 & -> & H1 & H2). constructor; assumption.
Qed.

Lemma lang_chr_inv c s : lang (Chr c) s <-> s = [c].
Proof.
  split; [intros H; inversion H; reflexivity | intros ->; constructor].
Qed.

Lemma emailAtom_class c :
  class_matches [CSpace; CChar 64] c = false <->
  isWhiteSpace c = false /\ c <> 64.
Proof.
  unfold class_matches. cbn [existsb item_matches].
  rewrite orb_false_r, orb_false_iff, N.eqb_neq. intuition congruence.
Qed.

(** The strings [/^[^\s@]+@[^\s@]+\.[^\s@]+$/] matches. *)
Lemma emailRegex_lang s :
  lang emailRegex s <->
  exists l a b,
    s = l ++ 64 :: a ++ 46 :: b
    /\ l <> [] /\ a <> [] /\ b <> []
    /\ Forall (fun c => isWhiteSpace c = false /\ c <> 64) (l ++ a ++ b).
Proof.
  unfold emailRegex.
  assert (HF : forall x, Forall (fun c => class_matches [CSpace; CChar 64] c
                                         = false) x
               <-> Forall (fun c => isWhiteSpace c = false /\ c <> 64) x).
  { intros x. apply Forall_iff. intros c. apply emailAtom_class. }
  split.
  - intros H.
    apply lang_seq_inv in H as (l & s1 & -> & Hl & H).
    apply lang_seq_inv in H as (at_ & s2 & -> & Hat & H).
    apply lang_seq_inv in H as (a & s3 & -> & Ha & H).
    apply lang_seq_inv in H as (dot & b & -> & Hdot & Hb).
    apply lang_chr_inv in Hat as ->. apply lang_chr_inv in Hdot as ->.
    apply lang_plus_notclass in Hl as [Hl1 Hl2].
    apply lang_plus_notclass in Ha as [Ha1 Ha2].
    apply lang_plus_notclass in Hb as [Hb1 Hb2].
    exists l, a, b. split; [reflexivity |].
    repeat (split; [assumption |]).
    rewrite !Forall_app. rewrite <- !HF. auto.
  - intros (l & a & b & -> & Hl & Ha & Hb & Hall).
    rewrite !Forall_app in Hall. rewrite <- !HF in Hall.
    destruct Hall as (Hl2 & Ha2 & Hb2).
    apply lang_seq_inv. exists l, (64 :: a ++ 46 :: b).
    split; [reflexivity |]. split; [apply lang_plus_notclass; auto |].
    apply lang_seq_inv. exists [64], (a ++ 46 :: b).
    split; [reflexivity |]. split; [constructor |].
    apply lang_seq_inv. exists a, (46 :: b).
    split; [reflexivity |]. split; [apply lang_plus_notclass; auto |].
    apply lang_seq_inv. exists [46], b.
    split; [reflexivity |]. split; [constructor |].
    apply lang_plus_notclass; auto.
Qed.

(** X1: [isValidEmail] accepts exactly the strings [local@a.b] in which
    [local], [a] and [b] are not empty and hold neither white space nor a
    further [@]. *)
Theorem isValidEmail_iff email :
  isValidEmail email = true <->
  exists l a b,
    email = l ++ 64 :: a ++ 46 :: b
    /\ l <> [] /\ a <> [] /\ b <> []
    /\ Forall (fun c => isWhiteSpace c = false /\ c <> 64) (l ++ a ++ b).
Proof.
  unfold isValidEmail, RegExp_test. rewrite matches_lang.
  apply emailRegex_lang.
Qed.

Lemma count_at_free (x : jsstring) :
  Forall (fun c => isWhiteSpace c = false /\ c <> 64) x ->
  length (filter (fun c => c = 64) x) = 0%nat
  /\ existsb isWhiteSpace x = false.
Proof.
  induction 1 as [| c x [Hw Hc] _ [IH1 IH2]]; [split; reflexivity |].
  rewrite filter_cons_False by exact Hc. simpl. rewrite Hw. auto.
Qed.

Lemma isValidEmail_facts email :
  isValidEmail email = true ->
  length (filter (fun c => c = 64) email) = 1%nat
  /\ existsb isWhiteSpace email = false
  /\ (5 <= length email)%nat
  /\ trim email = email.
Proof.
  unfold isValidEmail, RegExp_test. rewrite matches_lang, emailRegex_lang.
  intros (l & a & b & -> & Hl & Ha & Hb & Hall).
  rewrite !Forall_app in Hall. destruct Hall as (Hl2 & Ha2 & Hb2).
  destruct (count_at_free l Hl2) as [Cl Wl].
  destruct (count_at_free a Ha2) as [Ca Wa].
  destruct (count_at_free b Hb2) as [Cb Wb].
  assert (Hws : existsb isWhiteSpace (l ++ 64 :: a ++ 46 :: b) = false).
  { rewrite existsb_app. simpl. rewrite existsb_app. simpl.
    rewrite Wl, Wa, Wb. reflexivity. }
  split; [| split; [exact Hws | split]].
  - rewrite filter_app, filter_cons_True by reflexivity.
    rewrite filter_app, filter_cons_False by discriminate.
    rewrite !length_app. simpl. rewrite length_app. lia.
  - rewrite length_app. simpl. rewrite length_app. simpl.
    destruct l; [congruence |]. destruct a; [congruence |].
    destruct b; [congruence |]. simpl. lia.
  - generalize dependent (l ++ 64 :: a ++ 46 :: b). clear.
    intros s Hs.
    assert (T : forall x, existsb isWhiteSpace x = false -> trimStart x = x).
    { intros [| c x]; [reflexivity |]. simpl. intros E.
      apply orb_false_iff in E as [-> _]. reflexivity. }
    unfold trim, trimEnd. rewrite (T s Hs).
    rewrite T; [apply rev_involutive |].
    rewrite <- Hs. clear. induction s as [| c s IH]; [reflexivity |].
    simpl. rewrite existsb_app, IH. simpl. rewrite orb_false_r.
    apply orb_comm.
Qed.

(** X2: an accepted e-mail address holds exactly one [@], no white space,
    and at least five code units; in particular it is its own [trim]. *)
Theorem isValidEmail_accepted email :
  isValidEmail email = true ->
  length (filter (fun c => c = 64) email) = 1%nat
  /\ existsb isWhiteSpace email = false
  /\ (5 <= length email)%nat
  /\ trim email = email.
Proof. exact (isValidEmail_facts email). Qed.

Lemma isValidEmail_accepted_witness :
  isValidEmail (lit "a@b.co") = true
  /\ (length (filter (fun c => c = 64) (lit "a@b.co")) = 1%nat
      /\ existsb isWhiteSpace (lit "a@b.co") = false
      /\ (5 <= length (lit "a@b.co"))%nat
      /\ trim (lit "a@b.co") = lit "a@b.co").
Proof.
  split; [vm_compute; reflexivity |].
  apply (isValidEmail_accepted (lit "a@b.co")). vm_compute; reflexivity.
Defined.

(** The characters of the phone alphabet: a digit, a plus sign, or one of
    the separators that the cleaning step removes. *)
Lemma phoneClass_split c :
  class_matches phoneClass c = true <->
  (isDigit c = true \/ c = 43) \/ class_matches cleanClass c = true.
Proof.
  unfold class_matches, phoneClass, cleanClass.
  cbn [existsb item_matches]. rewrite !orb_false_r, !orb_true_iff, !N.eqb_eq.
  intuition congruence.
Qed.

Lemma digit_not_whitespace c : 48 <= c <= 57 -> isWhiteSpace c = false.
Proof.
  intros H. unfold isWhiteSpace.
  repeat (apply orb_false_intro); try (apply N.eqb_neq; lia).
  - apply andb_false_iff. right. apply N.leb_gt. lia.
  - apply andb_false_iff. left. apply N.leb_gt. lia.
Qed.

Lemma digit_or_plus_not_separator c :
  isDigit c = true \/ c = 43 -> class_matches cleanClass c = false.
Proof.
  intros [H | ->]; [| reflexivity].
  unfold isDigit in H. apply andb_true_iff in H as [H1 H2].
  apply N.leb_le in H1, H2.
  unfold class_matches, cleanClass. cbn [existsb item_matches].
  rewrite digit_not_whitespace by lia.
  repeat (apply orb_false_intro); try reflexivity; apply N.eqb_neq; lia.
Qed.

Lemma clean_insert_separator c s1 s2 :
  class_matches cleanClass c = true ->
  replace_class_global_empty cleanClass (s1 ++ c :: s2)
  = replace_class_global_empty cleanClass (s1 ++ s2).
Proof.
  intros Hc. unfold replace_class_global_empty.
  rewrite !filter_app, filter_cons_False by congruence. reflexivity.
Qed.

Lemma phone_needs_characters phone :
  (10 <= length (replace_class_global_empty cleanClass phone))%nat ->
  phone <> [].
Proof. intros H ->. simpl in H. lia. Qed.

(** X3: separators do not count: putting a space, dash or parenthesis
    anywhere into a phone number, or taking one out, does not change what
    [isValidPhone] answers. *)
Theorem isValidPhone_separator c s1 s2 :
  class_matches cleanClass c = true ->
  isValidPhone (s1 ++ c :: s2) = isValidPhone (s1 ++ s2).
Proof.
  intros Hc. apply eq_true_iff_eq. rewrite !isValidPhone_spec.
  rewrite (clean_insert_separator c s1 s2 Hc).
  rewrite !Forall_app, Forall_cons.
  assert (Hp : class_matches phoneClass c = true)
    by (apply phoneClass_split; right; exact Hc).
  split.
  - intros (_ & (H1 & _ & H2) & Hlen).
    split; [apply phone_needs_characters; exact Hlen | auto].
  - intros (_ & (H1 & H2) & Hlen).
    split; [destruct s1; discriminate | auto].
Qed.

Lemma isValidPhone_separator_witness :
  class_matches cleanClass 45 = true
  /\ isValidPhone (lit "555-1234567") = isValidPhone (lit "5551234567").
Proof.
  split; [reflexivity |].
  apply (isValidPhone_separator 45 (lit "555") (lit "1234567")). reflexivity.
Defined.

Lemma clean_keeps_digits_and_plus phone :
  Forall (fun c => class_matches phoneClass c = true) phone ->
  replace_class_global_empty cleanClass phone
  = filter (fun c => isDigit c = true \/ c = 43) phone.
Proof.
  unfold replace_class_global_empty.
  induction 1 as [| c s Hc _ IH]; [reflexivity |].
  apply phoneClass_split in Hc as [Hc | Hc].
  - rewrite filter_cons_True by (apply digit_or_plus_not_separator; exact Hc).
    rewrite (filter_cons_True (fun c => isDigit c = true \/ c = 43))
      by exact Hc.
    rewrite IH. reflexivity.
  - rewrite filter_cons_False by congruence.
    rewrite (filter_cons_False (fun c => isDigit c = true \/ c = 43)).
    + exact IH.
    + intros Hd. apply digit_or_plus_not_separator in Hd. congruence.
Qed.

(** X4: [isValidPhone] accepts a string exactly when each of its characters
    is a digit, a plus sign or a separator, and at least ten of them are
    digits or plus signs. *)
Theorem isValidPhone_iff phone :
  isValidPhone phone = true <->
  Forall (fun c => (isDigit c = true \/ c = 43)
                   \/ class_matches cleanClass c = true) phone
  /\ (10 <= length (filter (fun c => isDigit c = true \/ c = 43%N)
                               phone))%nat.
Proof.
  rewrite isValidPhone_spec.
  assert (HF : Forall (fun c => class_matches phoneClass c = true) phone <->
               Forall (fun c => (isDigit c = true \/ c = 43)
                                \/ class_matches cleanClass c = true) phone).
  { apply Forall_iff. intros c. apply phoneClass_split. }
  split.
  - intros (_ & Hall & Hlen).
    rewrite (clean_keeps_digits_and_plus phone Hall) in Hlen.
    split; [apply HF; exact Hall | exact Hlen].
  - intros [Hall Hlen]. apply HF in Hall.
    rewrite <- (clean_keeps_digits_and_plus phone Hall) in Hlen.
    split; [apply phone_needs_characters; exact Hlen | auto].
Qed.

(** ** Field state, further *)

Lemma contains_add_any c c' l :
  classList_contains c (classList_add c' l)
  = bool_decide (c = c') || classList_contains c l.
Proof.
  destruct (decide (c = c')) as [-> | Hne].
  - rewrite contains_add, bool_decide_eq_true_2 by reflexivity. reflexivity.
  - rewrite contains_add_ne, bool_decide_eq_false_2 by exact Hne.
    reflexivity.
Qed.

Lemma contains_remove_any c c' l :
  classList_contains c (classList_remove c' l)
  = negb (bool_decide (c = c')) && classList_contains c l.
Proof.
  destruct (decide (c = c')) as [-> | Hne].
  - rewrite contains_remove, bool_decide_eq_true_2 by reflexivity.
    reflexivity.
  - rewrite contains_remove_ne, bool_decide_eq_false_2 by exact Hne.
    reflexivity.
Qed.

Lemma dom_eq d1 d2 :
  fields d1 = fields d2 -> errorSpans d1 = errorSpans d2 ->
  formMessages d1 = formMessages d2 -> submitButton d1 = submitButton d2 ->
  focused d1 = focused d2 -> scrolledTo d1 = scrolledTo d2 -> d1 = d2.
Proof. destruct d1, d2. simpl. intros; subst; reflexivity. Qed.

Lemma rest_writeErrorSpan i m d :
  formMessages (writeErrorSpan i m d) = formMessages d
  /\ submitButton (writeErrorSpan i m d) = submitButton d
  /\ focused (writeErrorSpan i m d) = focused d
  /\ scrolledTo (writeErrorSpan i m d) = scrolledTo d.
Proof.
  unfold writeErrorSpan. destruct (fields d !! i) as [e |]; [| auto].
  destruct (errorSpans d !! parentElement e); auto.
Qed.

Lemma errorSpans_writeErrorSpan i m d :
  errorSpans (writeErrorSpan i m d) =
  match parentOf i d with
  | Some p => match errorSpans d !! p with
              | Some _ => <[p := m]> (errorSpans d)
              | None => errorSpans d
              end
  | None => errorSpans d
  end.
Proof.
  unfold writeErrorSpan, parentOf.
  destruct (fields d !! i) as [e |]; [| reflexivity].
  destruct (errorSpans d !! parentElement e); reflexivity.
Qed.

Lemma parentOf_alter_classList f i j d :
  parentOf i (with_fields (alter (set_classList f) j (fields d)) d)
  = parentOf i d.
Proof.
  apply parentOf_shape, shape_alter. reflexivity.
Qed.

Lemma errorSpans_setFieldError_eq i m d :
  errorSpans (FunctionJs.setFieldError i m d) =
  match parentOf i d with
  | Some p => match errorSpans d !! p with
              | Some _ => <[p := m]> (errorSpans d)
              | None => errorSpans d
              end
  | None => errorSpans d
  end.
Proof.
  unfold FunctionJs.setFieldError.
  rewrite errorSpans_writeErrorSpan, parentOf_alter_classList. reflexivity.
Qed.

Lemma errorSpans_clearFieldError_eq i d :
  errorSpans (FunctionJs.clearFieldError i d) =
  match parentOf i d with
  | Some p => match errorSpans d !! p with
              | Some _ => <[p := []]> (errorSpans d)
              | None => errorSpans d
              end
  | None => errorSpans d
  end.
Proof.
  unfold FunctionJs.clearFieldError. rewrite errorSpans_writeErrorSpan.
  destruct (truthy _); rewrite !parentOf_alter_classList; reflexivity.
Qed.

Lemma parentOf_setFieldError i j m d :
  parentOf i (FunctionJs.setFieldError j m d) = parentOf i d.
Proof.
  apply parentOf_shape. destruct (local_setFieldError j m d) as [H _].
  exact H.
Qed.

Lemma rest_setFieldError i m d :
  formMessages (FunctionJs.setFieldError i m d) = formMessages d
  /\ submitButton (FunctionJs.setFieldError i m d) = submitButton d
  /\ focused (FunctionJs.setFieldError i m d) = focused d
  /\ scrolledTo (FunctionJs.setFieldError i m d) = scrolledTo d.
Proof.
  unfold FunctionJs.setFieldError.
  destruct (rest_writeErrorSpan i m
              (with_fields
                 (alter (set_classList (fun l =>
                    classList_remove (lit "valid")
                      (classList_add (lit "invalid") l))) i (fields d)) d))
    as (-> & -> & -> & ->).
  auto.
Qed.

Lemma setError_classes_idem l :
  classList_remove (lit "valid")
    (classList_add (lit "invalid")
       (classList_remove (lit "valid") (classList_add (lit "invalid") l)))
  = classList_remove (lit "valid") (classList_add (lit "invalid") l).
Proof.
  set (x := classList_remove (lit "valid") (classList_add (lit "invalid") l)).
  assert (Hin : classList_contains (lit "invalid") x = true).
  { unfold x. rewrite contains_remove_ne
      by (intros E; symmetry in E; exact (valid_ne_invalid E)).
    apply contains_add. }
  unfold classList_add at 1. rewrite Hin.
  unfold x, classList_remove. generalize (classList_add (lit "invalid") l).
  intros y. induction y as [| c y IH]; [reflexivity |].
  destruct (decide (c = lit "valid")) as [-> | Hne].
  - rewrite filter_cons_False by tauto. exact IH.
  - rewrite !filter_cons_True by exact Hne. rewrite IH. reflexivity.
Qed.

(** X5: setting an error on a control that already has one changes nothing
    but the message: the latest message wins and the classes stay as the
    first call left them. *)
Theorem setFieldError_again i m m' d :
  FunctionJs.setFieldError i m' (FunctionJs.setFieldError i m d)
  = FunctionJs.setFieldError i m' d.
Proof.
  apply dom_eq.
  - rewrite !FunctionJsFacts.fields_setFieldError.
    rewrite list_alter_alter_eq. apply list_alter_ext; [| reflexivity].
    intros e _. unfold set_classList. simpl.
    rewrite setError_classes_idem. reflexivity.
  - rewrite !errorSpans_setFieldError_eq, parentOf_setFieldError.
    destruct (parentOf i d) as [p |]; [| reflexivity].
    destruct (errorSpans d !! p) eqn:Hp.
    + rewrite lookup_insert_eq. apply insert_insert_eq.
    + rewrite Hp. reflexivity.
  - rewrite !(proj1 (rest_setFieldError _ _ _)). reflexivity.
  - rewrite !(proj1 (proj2 (rest_setFieldError _ _ _))). reflexivity.
  - rewrite !(proj1 (proj2 (proj2 (rest_setFieldError _ _ _)))). reflexivity.
  - rewrite !(proj2 (proj2 (proj2 (rest_setFieldError _ _ _)))). reflexivity.
Qed.

(** X6: clearing a control after an error was set on it leaves no trace of
    the error: every control carries the classes, and every parent shows
    the text, that clearing alone would have left. *)
Theorem clearFieldError_after_setFieldError i m d :
  (forall c j,
     hasClass c j (FunctionJs.clearFieldError i
                     (FunctionJs.setFieldError i m d))
     = hasClass c j (FunctionJs.clearFieldError i d))
  /\ errorSpans (FunctionJs.clearFieldError i
                   (FunctionJs.setFieldError i m d))
     = errorSpans (FunctionJs.clearFieldError i d).
Proof.
  split.
  - intros c j. rewrite !FunctionJsFacts.hasClass_clearFieldError.
    rewrite FunctionJsFacts.valueOf_setFieldError.
    rewrite FunctionJsFacts.fields_setFieldError, list_lookup_alter.
    destruct (decide (i = j)) as [-> | Hne];
      destruct (fields d !! j) as [e |]; try reflexivity.
    cbn [fmap option_fmap option_map set_classList classList].
    destruct (truthy (trim (valueOf j d)));
      rewrite ?contains_add_any, ?contains_remove_any, ?contains_add_any;
      destruct (bool_decide (c = lit "valid")) eqn:E1;
      destruct (bool_decide (c = lit "invalid")) eqn:E2;
      cbn [negb andb orb]; try reflexivity;
      rewrite ?andb_false_r; try reflexivity.
    all: apply bool_decide_eq_true in E1, E2; subst c;
      exfalso; exact (valid_ne_invalid E2).
  - rewrite !errorSpans_clearFieldError_eq, parentOf_setFieldError.
    rewrite errorSpans_setFieldError_eq.
    destruct (parentOf i d) as [p |]; [| reflexivity].
    destruct (errorSpans d !! p) eqn:Hp.
    + rewrite lookup_insert_eq. apply insert_insert_eq.
    + rewrite Hp. reflexivity.
Qed.

Lemma remove_after_add c l :
  classList_remove c (classList_add c l) = classList_remove c l.
Proof.
  unfold classList_add. destruct (classList_contains c l); [reflexivity |].
  unfold classList_remove. rewrite filter_app.
  rewrite filter_cons_False by tauto. apply app_nil_r.
Qed.

(** X7: the loading state of the submit button: switched on, the button is
    disabled and carries [loading]; switched off, neither; and switching
    it on and off again is the same as switching it off. *)
Theorem setLoadingState_on_off b :
  (disabled (FunctionJs.setLoadingState true b) = true
   /\ classList_contains (lit "loading")
        (buttonClassList (FunctionJs.setLoadingState true b)) = true)
  /\ (disabled (FunctionJs.setLoadingState false b) = false
      /\ classList_contains (lit "loading")
           (buttonClassList (FunctionJs.setLoadingState false b)) = false)
  /\ FunctionJs.setLoadingState false (FunctionJs.setLoadingState true b)
     = FunctionJs.setLoadingState false b.
Proof.
  split; [| split].
  - split; [reflexivity | apply contains_add].
  - split; [reflexivity | apply contains_remove].
  - unfold FunctionJs.setLoadingState. simpl. rewrite remove_after_add.
    destruct (btnText b), (btnLoader b); reflexivity.
Qed.

(** X8: [validateField] answers what it leaves on the control: the class
    [invalid] exactly when it returns [false], the class [valid] exactly
    when it returns [true] on a value that is not empty once trimmed. *)
Theorem validateField_verdict i d :
  is_Some (fields d !! i) ->
  hasClass (lit "invalid") i (fst (FunctionJs.validateField i d))
  = negb (snd (FunctionJs.validateField i d))
  /\ hasClass (lit "valid") i (fst (FunctionJs.validateField i d))
     = snd (FunctionJs.validateField i d) && truthy (trim (valueOf i d)).
Proof.
  intros [e He].
  assert (Herr : forall m,
            hasClass (lit "invalid") i (FunctionJs.setFieldError i m d) = true
            /\ hasClass (lit "valid") i (FunctionJs.setFieldError i m d)
               = false).
  { intros m. rewrite !FunctionJsFacts.hasClass_setFieldError, He.
    rewrite decide_True by reflexivity.
    rewrite !contains_remove_any, contains_add_any.
    rewrite (bool_decide_eq_false_2 (lit "invalid" = lit "valid"))
      by (intros E; symmetry in E; exact (valid_ne_invalid E)).
    rewrite !bool_decide_eq_true_2 by reflexivity. auto. }
  unfold FunctionJs.validateField.
  repeat match goal with
         | |- context [if ?c then (FunctionJs.setFieldError i ?m d, false)
                       else _] =>
             destruct c;
             [cbn [fst snd negb andb];
              destruct (Herr m) as [-> ->]; split; reflexivity |]
         end.
  cbn [fst snd negb andb].
  rewrite !FunctionJsFacts.hasClass_clearFieldError, He.
  rewrite decide_True by reflexivity.
  destruct (truthy (trim (valueOf i d)));
    rewrite ?contains_add_any, ?contains_remove_any;
    rewrite ?(bool_decide_eq_false_2 (lit "invalid" = lit "valid"))
      by (intros E; symmetry in E; exact (valid_ne_invalid E));
    rewrite ?bool_decide_eq_true_2 by reflexivity; auto.
Qed.

Lemma validateField_verdict_witness :
  is_Some (fields docOwnParents !! 1%nat)
  /\ (hasClass (lit "invalid") 1
        (fst (FunctionJs.validateField 1 docOwnParents))
      = negb (snd (FunctionJs.validateField 1 docOwnParents))
      /\ hasClass (lit "valid") 1
           (fst (FunctionJs.validateField 1 docOwnParents))
         = snd (FunctionJs.validateField 1 docOwnParents)
           && truthy (trim (valueOf 1 docOwnParents))).
Proof.
  split; [eexists; reflexivity |].
  apply (validateField_verdict 1 docOwnParents). eexists; reflexivity.
Defined.

Lemma blurFieldsFrom_spec l : forall i0 i,
  i ∈ blurFieldsFrom i0 l <->
  exists e, l !! (i - i0)%nat = Some e /\ (i0 <= i)%nat
            /\ required e || jsstring_eqb (type e) (lit "email")
               || jsstring_eqb (type e) (lit "tel") = true.
Proof.
  induction l as [| e l IH]; intros i0 i; simpl.
  - split; [intros H; inversion H | intros (e & H & _); discriminate].
  - assert (Hrest : i ∈ blurFieldsFrom (S i0) l <->
              exists e', (e :: l) !! (i - i0)%nat = Some e'
                         /\ (S i0 <= i)%nat
                         /\ required e' || jsstring_eqb (type e') (lit "email")
                            || jsstring_eqb (type e') (lit "tel") = true).
    { rewrite IH. split; intros (e' & Hl & Hle & Hs); exists e'.
      - replace (i - i0)%nat with (S (i - S i0)) by lia. auto.
      - replace (i - i0)%nat with (S (i - S i0)) in Hl by lia. auto. }
    destruct (required e || jsstring_eqb (type e) (lit "email")
              || jsstring_eqb (type e) (lit "tel")) eqn:Hsel.
    + rewrite elem_of_cons, Hrest. split.
      * intros [-> | (e' & Hl & Hle & Hs)].
        -- exists e. rewrite Nat.sub_diag. auto.
        -- exists e'. split; [exact Hl | split; [lia | exact Hs]].
      * intros (e' & Hl & Hle & Hs).
        destruct (decide (i = i0)) as [-> | Hne]; [left; reflexivity |].
        right. exists e'. split; [exact Hl | split; [lia | exact Hs]].
    + rewrite Hrest. split.
      * intros (e' & Hl & Hle & Hs). exists e'.
        split; [exact Hl | split; [lia | exact Hs]].
      * intros (e' & Hl & Hle & Hs). exists e'.
        split; [exact Hl |]. split; [| exact Hs].
        destruct (decide (i = i0)) as [-> | Hne]; [| lia].
        rewrite Nat.sub_diag in Hl. simpl in Hl. injection Hl as <-.
        congruence.
Qed.

(** X9: when a control with the [required] attribute loses focus with
    nothing but white space in it, it is left with [invalid] and without
    [valid], and the [.error-message] element of its parent, if there is
    one, reads [<label> is required], with the label [getLabelText]
    finds. *)
Theorem blur_required_empty i e d :
  fields d !! i = Some e ->
  required e = true ->
  truthy (trim (value e)) = false ->
  hasClass (lit "invalid") i (blur i d) = true
  /\ hasClass (lit "valid") i (blur i d) = false
  /\ (is_Some (errorSpanOf i d) ->
      errorSpanOf i (blur i d)
      = Some (FunctionJs.getLabelText i d ++ lit " is required")).
Proof.
  intros He Hreq Hblank.
  assert (Hin : i ∈ blurFields d).
  { apply blurFieldsFrom_spec. exists e. rewrite Nat.sub_0_r.
    split; [exact He |]. split; [lia |]. rewrite Hreq. reflexivity. }
  unfold blur. rewrite bool_decide_eq_true_2 by exact Hin.
  unfold blurListener, isRequired. rewrite He, Hreq, orb_true_r.
  unfold FunctionJs.validateField, isRequired, valueOf.
  rewrite He, Hreq, Hblank. cbn [andb negb fst].
  set (m := FunctionJs.getLabelText i d ++ lit " is required").
  rewrite !FunctionJsFacts.hasClass_setFieldError, He.
  rewrite decide_True by reflexivity.
  rewrite !contains_remove_any, contains_add_any.
  rewrite (bool_decide_eq_false_2 (lit "invalid" = lit "valid"))
    by (intros E; symmetry in E; exact (valid_ne_invalid E)).
  rewrite !bool_decide_eq_true_2 by reflexivity.
  split; [reflexivity | split; [reflexivity |]].
  intros Hspan.
  assert (Hp : parentOf i d = Some (parentElement e))
    by (unfold parentOf; rewrite He; reflexivity).
  rewrite (errorSpanOf_parentOf i d _ Hp) in Hspan.
  rewrite (errorSpanOf_parentOf i _ (parentElement e))
    by (rewrite parentOf_setFieldError; exact Hp).
  apply errorSpans_setFieldError; assumption.
Qed.

Lemma blur_required_empty_witness :
  (fields docOwnParents !! 0%nat = Some (control "first_name" [] [] 0)
   /\ required (control "first_name" [] [] 0) = true
   /\ truthy (trim (value (control "first_name" [] [] 0))) = false)
  /\ (hasClass (lit "invalid") 0 (blur 0 docOwnParents) = true
      /\ hasClass (lit "valid") 0 (blur 0 docOwnParents) = false
      /\ (is_Some (errorSpanOf 0 docOwnParents) ->
          errorSpanOf 0 (blur 0 docOwnParents)
          = Some (FunctionJs.getLabelText 0 docOwnParents
                  ++ lit " is required"))).
Proof.
  split; [repeat split |].
  apply (blur_required_empty 0 (control "first_name" [] [] 0) docOwnParents);
    reflexivity.
Defined.

(** ** [validateForm], further *)

Lemma validated_name n :
  existsb (jsstring_eqb n) validatedNames = true -> n ∈ validatedNames.
Proof.
  intros H. apply existsb_exists in H as (n' & Hin & E).
  apply jsstring_eqb_eq in E. subst n'. apply list_elem_of_In. exact Hin.
Qed.

Lemma FunctionJs_steps_names :
  Forall (fun s => sname s ∈ validatedNames) FunctionJs_steps.
Proof.
  unfold FunctionJs_steps, FunctionJs.requiredFields, FunctionJs.phoneFields.
  cbn [map app].
  repeat (apply Forall_cons; split);
    try (apply validated_name; vm_compute; reflexivity).
  apply Forall_nil; exact I.
Qed.

Lemma InlineStyle_steps_names :
  Forall (fun s => sname s ∈ validatedNames) InlineStyle_steps.
Proof.
  unfold InlineStyle_steps, InlineStyle.requiredFields.
  cbn [map app].
  repeat (apply Forall_cons; split);
    try (apply validated_name; vm_compute; reflexivity).
  apply Forall_nil; exact I.
Qed.

Lemma run_steps_untouched L d i :
  Forall framed L -> Forall (fun s => sname s ∈ validatedNames) L ->
  (forall n, n ∈ validatedNames -> querySelectorName n d <> Some i) ->
  shape (fst (run_steps L (d, true))) = shape d
  /\ fields (fst (run_steps L (d, true))) !! i = fields d !! i.
Proof.
  intros HL Hn Hi.
  destruct (run_steps_framed L HL d true) as (S1 & _ & _ & F1 & _).
  split; [exact S1 |]. apply F1. intros s j Hin [Hq _] ->.
  rewrite Forall_forall in Hn. exact (Hi (sname s) (Hn s Hin) Hq).
Qed.

(** X10: in both scripts [validateForm] changes no name, value or parent
    of any control, and leaves alone every control that is not the first
    one in the form with one of the seven names it looks up (a second
    control of the same name is never validated). *)
Theorem validateForm_frame d :
  (shape (fst (FunctionJs.validateForm d)) = shape d
   /\ forall i,
        (forall n, n ∈ validatedNames -> querySelectorName n d <> Some i) ->
        fields (fst (FunctionJs.validateForm d)) !! i = fields d !! i)
  /\ (shape (fst (InlineStyle.validateForm d)) = shape d
      /\ forall i,
           (forall n, n ∈ validatedNames -> querySelectorName n d <> Some i) ->
           fields (fst (InlineStyle.validateForm d)) !! i = fields d !! i).
Proof.
  rewrite FunctionJs_validateForm_steps, InlineStyle_validateForm_steps.
  split; (split; [| intros i Hi]).
  - apply (run_steps_framed _ framed_FunctionJs_steps d true).
  - apply (run_steps_untouched _ d i framed_FunctionJs_steps
             FunctionJs_steps_names Hi).
  - apply (run_steps_framed _ framed_InlineStyle_steps d true).
  - apply (run_steps_untouched _ d i framed_InlineStyle_steps
             InlineStyle_steps_names Hi).
Qed.

Lemma docTwoEmails_second n :
  n ∈ validatedNames -> querySelectorName n docTwoEmails <> Some 1%nat.
Proof.
  intros _ H. destruct (querySelectorName_Some _ _ _ H) as (e & He & Hn).
  injection He as <-. simpl in Hn. subst n. vm_compute in H. discriminate.
Qed.

Lemma validateForm_frame_witness :
  (forall n, n ∈ validatedNames ->
             querySelectorName n docTwoEmails <> Some 1%nat)
  /\ fields (fst (FunctionJs.validateForm docTwoEmails)) !! 1%nat
     = fields docTwoEmails !! 1%nat
  /\ fields (fst (InlineStyle.validateForm docTwoEmails)) !! 1%nat
     = fields docTwoEmails !! 1%nat.
Proof.
  split; [exact docTwoEmails_second |].
  destruct (validateForm_frame docTwoEmails) as [[_ F] [_ I]].
  split; [apply F | apply I]; exact docTwoEmails_second.
Defined.

Lemma decides_shape L oks d d' :
  Forall2 decides L oks -> shape d = shape d' ->
  forallb (fun ok => ok d) oks = forallb (fun ok => ok d') oks.
Proof.
  intros H Hs. induction H as [| s ok L oks [_ Hok] _ IH]; [reflexivity |].
  simpl. rewrite (Hok d d' Hs), IH. reflexivity.
Qed.

Lemma run_steps_decides L oks :
  Forall2 decides L oks -> Forall framed L -> forall d v,
  snd (run_steps L (d, v)) = v && forallb (fun ok => ok d) oks.
Proof.
  induction 1 as [| s ok L oks Hd HL IH]; intros Hfr d v.
  - simpl. rewrite andb_true_r. reflexivity.
  - apply Forall_cons in Hfr as [Hs Hfr].
    change (run_steps (s :: L) (d, v)) with (run_steps L (sfun s (d, v))).
    destruct (Hs d v) as (S1 & _). destruct Hd as [Hv _].
    specialize (Hv d v).
    destruct (sfun s (d, v)) as [d1 v1]. cbn [fst snd] in S1, Hv.
    rewrite (IH Hfr d1 v1), Hv.
    rewrite (decides_shape L oks d1 d HL S1). simpl.
    rewrite andb_assoc. reflexivity.
Qed.

Lemma requiredOK_shape f d d' :
  shape d = shape d' -> requiredOK f d = requiredOK f d'.
Proof.
  intros H. unfold requiredOK.
  rewrite (querySelectorName_shape _ d d' H).
  destruct (querySelectorName _ d'); [| reflexivity].
  rewrite (valueOf_shape _ d d' H). reflexivity.
Qed.

Lemma optionalOK_shape n valid d d' :
  shape d = shape d' -> optionalOK n valid d = optionalOK n valid d'.
Proof.
  intros H. unfold optionalOK.
  rewrite (querySelectorName_shape _ d d' H).
  destruct (querySelectorName _ d'); [| reflexivity].
  rewrite (valueOf_shape _ d d' H). reflexivity.
Qed.

Lemma presentOK_shape f d d' :
  shape d = shape d' -> presentOK f d = presentOK f d'.
Proof.
  intros H. unfold presentOK.
  rewrite (querySelectorName_shape _ d d' H).
  destruct (querySelectorName _ d'); [| reflexivity].
  rewrite (valueOf_shape _ d d' H). reflexivity.
Qed.

Lemma formatOK_shape n valid d d' :
  shape d = shape d' -> formatOK n valid d = formatOK n valid d'.
Proof.
  intros H. unfold formatOK.
  rewrite (querySelectorName_shape _ d d' H).
  destruct (querySelectorName _ d'); [| reflexivity].
  rewrite (valueOf_shape _ d d' H). reflexivity.
Qed.

Lemma decides_FunctionJs_checkRequired f :
  decides {| sname := FunctionJs.fname f; needsValue := false;
             sfun := FunctionJs.checkRequired f |} (requiredOK f).
Proof.
  split; [| apply requiredOK_shape].
  intros d v. cbn [sfun]. unfold FunctionJs.checkRequired, requiredOK.
  destruct (querySelectorName (FunctionJs.fname f) d) as [i |];
    [| cbn [snd]; rewrite andb_true_r; reflexivity].
  destruct (truthy (trim (valueOf i d))); cbn [negb andb];
    [| rewrite andb_false_r; reflexivity].
  destruct (jsstring_eqb (FunctionJs.ftype f) (lit "email")
            && negb (isValidEmail (trim (valueOf i d))));
    cbn [snd negb]; [rewrite andb_false_r | rewrite andb_true_r];
    reflexivity.
Qed.

Lemma decides_FunctionJs_checkPhone n :
  decides {| sname := n; needsValue := false;
             sfun := FunctionJs.checkPhone n |} (optionalOK n isValidPhone).
Proof.
  split; [| apply optionalOK_shape].
  intros d v. cbn [sfun]. unfold FunctionJs.checkPhone, optionalOK.
  destruct (querySelectorName n d) as [i |];
    [| cbn [snd]; rewrite andb_true_r; reflexivity].
  destruct (truthy (trim (valueOf i d))
            && negb (isValidPhone (trim (valueOf i d))));
    cbn [snd negb]; [rewrite andb_false_r; reflexivity |].
  destruct (_ || _); cbn [snd]; rewrite andb_true_r; reflexivity.
Qed.

Lemma decides_FunctionJs_checkURL :
  decides {| sname := lit "url"; needsValue := false;
             sfun := FunctionJs.checkURL |} (optionalOK (lit "url") isValidURL).
Proof.
  split; [| apply optionalOK_shape].
  intros d v. cbn [sfun]. unfold FunctionJs.checkURL, optionalOK.
  destruct (querySelectorName (lit "url") d) as [i |];
    [| cbn [snd]; rewrite andb_true_r; reflexivity].
  destruct (truthy (trim (valueOf i d))
            && negb (isValidURL (trim (valueOf i d))));
    cbn [snd negb]; [rewrite andb_false_r; reflexivity |].
  destruct (_ || _); cbn [snd]; rewrite andb_true_r; reflexivity.
Qed.

Lemma decides_InlineStyle_checkRequired f :
  decides {| sname := InlineStyle.fname f; needsValue := false;
             sfun := InlineStyle.checkRequired f |} (presentOK f).
Proof.
  split; [| apply presentOK_shape].
  intros d v. cbn [sfun]. unfold InlineStyle.checkRequired, presentOK.
  destruct (querySelectorName (InlineStyle.fname f) d) as [i |];
    [| cbn [snd]; rewrite andb_true_r; reflexivity].
  destruct (truthy (trim (valueOf i d))); cbn [negb snd];
    [rewrite andb_true_r | rewrite andb_false_r]; reflexivity.
Qed.

Lemma decides_InlineStyle_checkFormat n valid m :
  decides {| sname := n; needsValue := true;
             sfun := InlineStyle.checkFormat n valid m |} (formatOK n valid).
Proof.
  split; [| apply formatOK_shape].
  intros d v. cbn [sfun]. unfold InlineStyle.checkFormat, formatOK.
  destruct (querySelectorName n d) as [i |];
    [| cbn [snd]; rewrite andb_true_r; reflexivity].
  destruct (truthy (trim (valueOf i d)) && negb (valid (valueOf i d)));
    cbn [snd negb]; [rewrite andb_false_r | rewrite andb_true_r];
    reflexivity.
Qed.

Lemma decides_FunctionJs_steps :
  Forall2 decides FunctionJs_steps FunctionJs_checks.
Proof.
  unfold FunctionJs_steps, FunctionJs_checks, FunctionJs.requiredFields,
    FunctionJs.phoneFields.
  cbn [map app].
  repeat (apply Forall2_cons; split);
    [apply decides_FunctionJs_checkRequired ..
    | apply decides_FunctionJs_checkPhone
    | apply decides_FunctionJs_checkPhone
    | apply decides_FunctionJs_checkURL
    | apply Forall2_nil; exact I].
Qed.

Lemma decides_InlineStyle_steps :
  Forall2 decides InlineStyle_steps InlineStyle_checks.
Proof.
  unfold InlineStyle_steps, InlineStyle_checks, InlineStyle.requiredFields.
  cbn [map app].
  repeat (apply Forall2_cons; split);
    [apply decides_InlineStyle_checkRequired ..
    | apply decides_InlineStyle_checkFormat
    | apply decides_InlineStyle_checkFormat
    | apply decides_InlineStyle_checkFormat
    | apply decides_InlineStyle_checkFormat
    | apply Forall2_nil; exact I].
Qed.

Lemma FunctionJs_verdict d :
  snd (FunctionJs.validateForm d) = forallb (fun ok => ok d) FunctionJs_checks.
Proof.
  rewrite FunctionJs_validateForm_steps.
  apply (run_steps_decides _ _ decides_FunctionJs_steps
           framed_FunctionJs_steps d true).
Qed.

Lemma InlineStyle_verdict d :
  snd (InlineStyle.validateForm d)
  = forallb (fun ok => ok d) InlineStyle_checks.
Proof.
  rewrite InlineStyle_validateForm_steps.
  apply (run_steps_decides _ _ decides_InlineStyle_steps
           framed_InlineStyle_steps d true).
Qed.

(** X11: what [validateForm] of [function.js] returns is the conjunction of
    seven checks read on the document as it was submitted: each required
    control that is present holds a value that is not empty once trimmed
    (a valid address for the e-mail control), and each of [phone],
    [mobile] and [url] that is present is empty or valid once trimmed.
    The marks a check leaves do not influence a later check, and
    validating again without an edit returns the same. *)
Theorem FunctionJs_validateForm_verdict d :
  snd (FunctionJs.validateForm d) = forallb (fun ok => ok d) FunctionJs_checks
  /\ snd (FunctionJs.validateForm (fst (FunctionJs.validateForm d)))
     = snd (FunctionJs.validateForm d).
Proof.
  split; [apply FunctionJs_verdict |].
  rewrite !FunctionJs_verdict.
  apply (decides_shape _ _ _ _ decides_FunctionJs_steps).
  rewrite FunctionJs_validateForm_steps.
  apply (run_steps_framed _ framed_FunctionJs_steps d true).
Qed.

(** X12: what [validateForm] of the second script returns is the
    conjunction of eight checks read on the document as it was submitted:
    each required control that is present is not empty once trimmed, and
    each of [email], [phone], [mobile] and [url] that is present is empty
    once trimmed or valid as typed, white space included.  Validating again
    without an edit returns the same. *)
Theorem InlineStyle_validateForm_verdict d :
  snd (InlineStyle.validateForm d)
  = forallb (fun ok => ok d) InlineStyle_checks
  /\ snd (InlineStyle.validateForm (fst (InlineStyle.validateForm d)))
     = snd (InlineStyle.validateForm d).
Proof.
  split; [apply InlineStyle_verdict |].
  rewrite !InlineStyle_verdict.
  apply (decides_shape _ _ _ _ decides_InlineStyle_steps).
  rewrite InlineStyle_validateForm_steps.
  apply (run_steps_framed _ framed_InlineStyle_steps d true).
Qed.

(** What [validateForm] leaves of the control a step looks up is what that
    step left, when no later step looks up the same name. *)
Lemma step_result L pre s post d i :
  L = pre ++ s :: post -> Forall framed L ->
  querySelectorName (sname s) d = Some i ->
  forallb (fun s' => negb (jsstring_eqb (sname s') (sname s))) post = true ->
  shape (fst (run_steps pre (d, true))) = shape d
  /\ fields (fst (run_steps L (d, true))) !! i
     = fields (fst (sfun s (run_steps pre (d, true)))) !! i.
Proof.
  intros -> HL Hq Hpost.
  apply Forall_app in HL as [Hpre HL].
  apply Forall_cons in HL as [Hs Hfr].
  destruct (run_steps_framed pre Hpre d true) as (S0 & _).
  split; [exact S0 |].
  rewrite run_steps_app.
  change (run_steps (s :: post) (run_steps pre (d, true)))
    with (run_steps post (sfun s (run_steps pre (d, true)))).
  destruct (run_steps pre (d, true)) as [d0 v0]. cbn [fst] in S0.
  destruct (Hs d0 v0) as (S1 & _).
  destruct (sfun s (d0, v0)) as [d1 v1]. cbn [fst] in S1 |- *.
  destruct (run_steps_framed post Hfr d1 v1) as (_ & _ & _ & F2 & _).
  apply F2. intros s' j Hin [Hq' _].
  assert (Hsh : shape d1 = shape d) by congruence.
  rewrite (querySelectorName_shape _ d1 d Hsh) in Hq'.
  rewrite forallb_forall in Hpost.
  specialize (Hpost s' (proj1 (list_elem_of_In _ _) Hin)).
  apply negb_true_iff in Hpost.
  apply (querySelectorName_distinct (sname s') (sname s) d j i Hq' Hq).
  intros E. apply jsstring_eqb_eq in E. congruence.
Qed.

Lemma hasClass_invalid_setFieldError i m d :
  is_Some (fields d !! i) ->
  hasClass (lit "invalid") i (FunctionJs.setFieldError i m d) = true.
Proof.
  intros [e He]. rewrite FunctionJsFacts.hasClass_setFieldError, He.
  rewrite decide_True by reflexivity.
  rewrite contains_remove_ne
    by (intros E; symmetry in E; exact (valid_ne_invalid E)).
  apply contains_add.
Qed.

Lemma hasClass_invalid_clearFieldError i d :
  hasClass (lit "invalid") i (FunctionJs.clearFieldError i d) = false.
Proof.
  rewrite FunctionJsFacts.hasClass_clearFieldError.
  destruct (fields d !! i) as [e |]; [| reflexivity].
  rewrite decide_True by reflexivity.
  destruct (truthy _); rewrite ?contains_add_any, ?contains_remove_any;
    rewrite ?bool_decide_eq_true_2 by reflexivity;
    rewrite ?(bool_decide_eq_false_2 (lit "invalid" = lit "valid"))
      by (intros E; symmetry in E; exact (valid_ne_invalid E));
    reflexivity.
Qed.

Lemma querySelectorName_is_Some n d i :
  querySelectorName n d = Some i -> is_Some (fields d !! i).
Proof. intros H. apply querySelectorName_Some in H as (e & He & _). eauto. Qed.

Lemma marks_FunctionJs_checkRequired f :
  marks {| sname := FunctionJs.fname f; needsValue := false;
           sfun := FunctionJs.checkRequired f |} (requiredOK f).
Proof.
  intros d v i Hq. cbn [sname sfun] in *.
  pose proof (querySelectorName_is_Some _ _ _ Hq) as Hi.
  unfold FunctionJs.checkRequired, requiredOK. rewrite Hq.
  destruct (truthy (trim (valueOf i d))); cbn [negb andb fst];
    [| apply hasClass_invalid_setFieldError; exact Hi].
  destruct (jsstring_eqb (FunctionJs.ftype f) (lit "email")
            && negb (isValidEmail (trim (valueOf i d))));
    cbn [fst negb];
    [apply hasClass_invalid_setFieldError; exact Hi
    | apply hasClass_invalid_clearFieldError].
Qed.

Lemma marks_FunctionJs_checkPhone n :
  marks {| sname := n; needsValue := false;
           sfun := FunctionJs.checkPhone n |} (optionalOK n isValidPhone).
Proof.
  intros d v i Hq. cbn [sname sfun] in *.
  pose proof (querySelectorName_is_Some _ _ _ Hq) as Hi.
  unfold FunctionJs.checkPhone, optionalOK. rewrite Hq.
  destruct (truthy (trim (valueOf i d))
            && negb (isValidPhone (trim (valueOf i d))));
    cbn [fst negb]; [apply hasClass_invalid_setFieldError; exact Hi |].
  destruct (truthy (trim (valueOf i d)) || hasClass (lit "invalid") i d)
    eqn:E; cbn [fst]; [apply hasClass_invalid_clearFieldError |].
  apply orb_false_iff in E as [_ E]. exact E.
Qed.

Lemma marks_FunctionJs_checkURL :
  marks {| sname := lit "url"; needsValue := false;
           sfun := FunctionJs.checkURL |} (optionalOK (lit "url") isValidURL).
Proof.
  intros d v i Hq. cbn [sname sfun] in *.
  pose proof (querySelectorName_is_Some _ _ _ Hq) as Hi.
  unfold FunctionJs.checkURL, optionalOK. rewrite Hq.
  destruct (truthy (trim (valueOf i d))
            && negb (isValidURL (trim (valueOf i d))));
    cbn [fst negb]; [apply hasClass_invalid_setFieldError; exact Hi |].
  destruct (truthy (trim (valueOf i d)) || hasClass (lit "invalid") i d)
    eqn:E; cbn [fst]; [apply hasClass_invalid_clearFieldError |].
  apply orb_false_iff in E as [_ E]. exact E.
Qed.

(** After [validateForm], the control a step looked up carries [invalid]
    exactly when the step's check failed on the submitted document. *)
Lemma FunctionJs_mark pre s post ok d i :
  FunctionJs_steps = pre ++ s :: post ->
  forallb (fun s' => negb (jsstring_eqb (sname s') (sname s))) post = true ->
  marks s ok -> (forall d d', shape d = shape d' -> ok d = ok d') ->
  querySelectorName (sname s) d = Some i ->
  hasClass (lit "invalid") i (fst (FunctionJs.validateForm d)) = negb (ok d).
Proof.
  intros HL Hpost Hm Hok Hq. rewrite FunctionJs_validateForm_steps.
  destruct (step_result _ pre s post d i HL framed_FunctionJs_steps Hq Hpost)
    as [S0 F].
  unfold hasClass at 1. rewrite F.
  destruct (run_steps pre (d, true)) as [d0 v0]. cbn [fst] in S0.
  fold (hasClass (lit "invalid") i (fst (sfun s (d0, v0)))).
  rewrite (Hm d0 v0 i)
    by (rewrite (querySelectorName_shape _ d0 d S0); exact Hq).
  rewrite (Hok d0 d S0). reflexivity.
Qed.

Ltac mark_of k lemma shape_lemma :=
  apply (FunctionJs_mark (firstn k FunctionJs_steps)
           (nth k FunctionJs_steps
                {| sname := []; needsValue := false; sfun := fun st => st |})
           (skipn (S k) FunctionJs_steps));
  [reflexivity | vm_compute; reflexivity | apply lemma
  | apply shape_lemma | assumption].

(** X14: after [validateForm] of [function.js], each control it looked up
    carries the class [invalid] exactly when its own check failed: a mark
    left by an earlier submit or blur does not survive a passing check,
    also on an optional control that was emptied. *)
Theorem FunctionJs_validateForm_marks d i :
  (forall f, f ∈ FunctionJs.requiredFields ->
     querySelectorName (FunctionJs.fname f) d = Some i ->
     hasClass (lit "invalid") i (fst (FunctionJs.validateForm d))
     = negb (requiredOK f d))
  /\ (forall n, n ∈ FunctionJs.phoneFields ->
        querySelectorName n d = Some i ->
        hasClass (lit "invalid") i (fst (FunctionJs.validateForm d))
        = negb (optionalOK n isValidPhone d))
  /\ (querySelectorName (lit "url") d = Some i ->
      hasClass (lit "invalid") i (fst (FunctionJs.validateForm d))
      = negb (optionalOK (lit "url") isValidURL d)).
Proof.
  split; [| split].
  - intros f Hin Hq. unfold FunctionJs.requiredFields in Hin.
    repeat (apply elem_of_cons in Hin as [-> | Hin]);
      [| | | | inversion Hin].
    + mark_of 0%nat marks_FunctionJs_checkRequired requiredOK_shape.
    + mark_of 1%nat marks_FunctionJs_checkRequired requiredOK_shape.
    + mark_of 2%nat marks_FunctionJs_checkRequired requiredOK_shape.
    + mark_of 3%nat marks_FunctionJs_checkRequired requiredOK_shape.
  - intros n Hin Hq. unfold FunctionJs.phoneFields in Hin.
    repeat (apply elem_of_cons in Hin as [-> | Hin]); [| | inversion Hin].
    + mark_of 4%nat marks_FunctionJs_checkPhone optionalOK_shape.
    + mark_of 5%nat marks_FunctionJs_checkPhone optionalOK_shape.
  - intros Hq.
    mark_of 6%nat marks_FunctionJs_checkURL optionalOK_shape.
Qed.

Lemma FunctionJs_validateForm_marks_witness :
  (lit "phone" ∈ FunctionJs.phoneFields
   /\ querySelectorName (lit "phone") docStalePhone = Some 0%nat)
  /\ hasClass (lit "invalid") 0 docStalePhone = true
  /\ hasClass (lit "invalid") 0 (fst (FunctionJs.validateForm docStalePhone))
     = negb (optionalOK (lit "phone") isValidPhone docStalePhone)
  /\ optionalOK (lit "phone") isValidPhone docStalePhone = true.
Proof.
  assert (H1 : lit "phone" ∈ FunctionJs.phoneFields) by left.
  assert (H2 : querySelectorName (lit "phone") docStalePhone = Some 0%nat)
    by (vm_compute; reflexivity).
  split; [auto |]. split; [vm_compute; reflexivity |].
  split; [| vm_compute; reflexivity].
  destruct (FunctionJs_validateForm_marks docStalePhone 0) as (_ & P & _).
  apply (P (lit "phone") H1 H2).
Defined.

(** ** What [validateForm] of [function.js] leaves alone *)

Lemma sameRest_refl d : sameRest d d.
Proof. unfold sameRest. repeat split; auto. Qed.

Lemma sameRest_trans d1 d2 d3 :
  sameRest d1 d2 -> sameRest d2 d3 -> sameRest d1 d3.
Proof.
  intros (A1 & A2 & A3 & A4 & A5 & A6) (B1 & B2 & B3 & B4 & B5 & B6).
  unfold sameRest. repeat split; try congruence.
  - intros H. apply A6, B6, H.
  - intros H. apply B6, A6, H.
Qed.

Lemma sameRest_alter f j d :
  (forall e, static (f e) = static e) ->
  sameRest d (with_fields (alter f j (fields d)) d).
Proof.
  intros Hf. unfold sameRest. split; [apply shape_alter; exact Hf |].
  repeat split; auto.
Qed.

Lemma sameRest_writeErrorSpan i m d : sameRest d (writeErrorSpan i m d).
Proof.
  destruct (local_writeErrorSpan i m d) as (S1 & _).
  destruct (rest_writeErrorSpan i m d) as (R1 & R2 & R3 & R4).
  unfold sameRest. repeat (split; [assumption |]).
  intros p. rewrite errorSpans_writeErrorSpan.
  destruct (parentOf i d) as [q |]; [| reflexivity].
  destruct (errorSpans d !! q) eqn:Hq; [| reflexivity].
  destruct (decide (q = p)) as [-> | Hne].
  - rewrite lookup_insert_eq, Hq. split; eauto.
  - rewrite lookup_insert_ne by exact Hne. reflexivity.
Qed.

Lemma sameRest_setFieldError i m d :
  sameRest d (FunctionJs.setFieldError i m d).
Proof.
  unfold FunctionJs.setFieldError.
  apply (sameRest_trans d _ _
           (sameRest_alter (set_classList (fun l =>
              classList_remove (lit "valid")
                (classList_add (lit "invalid") l))) i d
              (fun e => eq_refl))).
  apply sameRest_writeErrorSpan.
Qed.

Lemma sameRest_clearFieldError i d :
  sameRest d (FunctionJs.clearFieldError i d).
Proof.
  unfold FunctionJs.clearFieldError.
  pose proof (sameRest_alter
                (set_classList (classList_remove (lit "invalid"))) i d
                (fun e => eq_refl)) as H1.
  set (d1 := with_fields
               (alter (set_classList (classList_remove (lit "invalid"))) i
                      (fields d)) d) in *.
  destruct (truthy (trim (valueOf i d1))).
  - pose proof (sameRest_alter
                  (set_classList (classList_add (lit "valid"))) i d1
                  (fun e => eq_refl)) as H2.
    exact (sameRest_trans _ _ _ (sameRest_trans _ _ _ H1 H2)
             (sameRest_writeErrorSpan i [] _)).
  - pose proof (sameRest_alter
                  (set_classList (classList_remove (lit "valid"))) i d1
                  (fun e => eq_refl)) as H2.
    exact (sameRest_trans _ _ _ (sameRest_trans _ _ _ H1 H2)
             (sameRest_writeErrorSpan i [] _)).
Qed.

Lemma sameRest_FunctionJs_checkRequired f d v :
  sameRest d (fst (FunctionJs.checkRequired f (d, v))).
Proof.
  unfold FunctionJs.checkRequired.
  destruct (querySelectorName _ d) as [i |]; [| apply sameRest_refl].
  destruct (negb _); [apply sameRest_setFieldError |].
  destruct (_ && _);
    [apply sameRest_setFieldError | apply sameRest_clearFieldError].
Qed.

Lemma sameRest_FunctionJs_checkPhone n d v :
  sameRest d (fst (FunctionJs.checkPhone n (d, v))).
Proof.
  unfold FunctionJs.checkPhone.
  destruct (querySelectorName _ d) as [i |]; [| apply sameRest_refl].
  destruct (_ && _); [apply sameRest_setFieldError |].
  destruct (_ || _); [apply sameRest_clearFieldError | apply sameRest_refl].
Qed.

Lemma sameRest_FunctionJs_checkURL d v :
  sameRest d (fst (FunctionJs.checkURL (d, v))).
Proof.
  unfold FunctionJs.checkURL.
  destruct (querySelectorName _ d) as [i |]; [| apply sameRest_refl].
  destruct (_ && _); [apply sameRest_setFieldError |].
  destruct (_ || _); [apply sameRest_clearFieldError | apply sameRest_refl].
Qed.

Lemma sameRest_run_steps L :
  Forall (fun s => forall d v, sameRest d (fst (sfun s (d, v)))) L ->
  forall d v, sameRest d (fst (run_steps L (d, v))).
Proof.
  induction 1 as [| s L Hs _ IH]; intros d v; [apply sameRest_refl |].
  change (run_steps (s :: L) (d, v)) with (run_steps L (sfun s (d, v))).
  specialize (Hs d v). destruct (sfun s (d, v)) as [d1 v1].
  eapply sameRest_trans; [exact Hs | apply IH].
Qed.

Lemma sameRest_FunctionJs_validateForm d :
  sameRest d (fst (FunctionJs.validateForm d)).
Proof.
  rewrite FunctionJs_validateForm_steps. apply sameRest_run_steps.
  unfold FunctionJs_steps, FunctionJs.requiredFields, FunctionJs.phoneFields.
  cbn [map app].
  repeat (apply Forall_cons; split);
    [intros d0 v0; apply sameRest_FunctionJs_checkRequired ..
    | intros d0 v0; apply sameRest_FunctionJs_checkPhone
    | intros d0 v0; apply sameRest_FunctionJs_checkPhone
    | intros d0 v0; apply sameRest_FunctionJs_checkURL
    | apply Forall_nil; exact I].
Qed.

Lemma FunctionJs_validateForm_rest_lemma d :
  formMessages (fst (FunctionJs.validateForm d)) = formMessages d
  /\ submitButton (fst (FunctionJs.validateForm d)) = submitButton d
  /\ focused (fst (FunctionJs.validateForm d)) = focused d
  /\ scrolledTo (fst (FunctionJs.validateForm d)) = scrolledTo d
  /\ (forall i, errorSpanOf i (fst (FunctionJs.validateForm d)) = None
                <-> errorSpanOf i d = None).
Proof.
  destruct (sameRest_FunctionJs_validateForm d)
    as (S1 & R1 & R2 & R3 & R4 & K).
  repeat (split; [assumption |]).
  intros i. pose proof (parentOf_shape i _ _ S1) as Hp.
  unfold errorSpanOf, parentOf in *.
  destruct (fields (fst (FunctionJs.validateForm d)) !! i) as [e' |],
    (fields d !! i) as [e |]; try discriminate; [| tauto].
  injection Hp as ->. specialize (K (parentElement e)).
  destruct (errorSpans (fst (FunctionJs.validateForm d)) !! parentElement e)
    as [x |],
    (errorSpans d !! parentElement e) as [y |];
    split; intros H; try reflexivity; try discriminate; exfalso.
  - destruct (proj1 K (ex_intro _ x eq_refl)) as [z Hz]. discriminate.
  - destruct (proj2 K (ex_intro _ y eq_refl)) as [z Hz]. discriminate.
Qed.


(** ** Submission, further *)

Lemma requiredOK_present f d :
  requiredOK f d = false ->
  exists i, querySelectorName (FunctionJs.fname f) d = Some i.
Proof.
  unfold requiredOK. destruct (querySelectorName _ d); [eauto | discriminate].
Qed.

Lemma optionalOK_present n valid d :
  optionalOK n valid d = false -> exists i, querySelectorName n d = Some i.
Proof.
  unfold optionalOK. destruct (querySelectorName _ d); [eauto | discriminate].
Qed.

Lemma FunctionJs_failed pre s post ok d :
  FunctionJs_steps = pre ++ s :: post ->
  forallb (fun s' => negb (jsstring_eqb (sname s') (sname s))) post = true ->
  marks s ok -> (forall d d', shape d = shape d' -> ok d = ok d') ->
  (exists i, querySelectorName (sname s) d = Some i) -> ok d = false ->
  exists i, hasClass (lit "invalid") i (fst (FunctionJs.validateForm d))
            = true.
Proof.
  intros HL Hpost Hm Hok [i Hq] E. exists i.
  rewrite (FunctionJs_mark pre s post ok d i HL Hpost Hm Hok Hq), E.
  reflexivity.
Qed.

Ltac failed_at k lemma shape_lemma present :=
  apply (FunctionJs_failed (firstn k FunctionJs_steps)
           (nth k FunctionJs_steps
                {| sname := []; needsValue := false; sfun := fun st => st |})
           (skipn (S k) FunctionJs_steps)
           (nth k FunctionJs_checks (fun _ => true)));
  [reflexivity | vm_compute; reflexivity | apply lemma | apply shape_lemma
  | apply present; assumption | assumption].

(** When [validateForm] of [function.js] returns [false], some control is
    left with the class [invalid]. *)
Lemma FunctionJs_invalid_exists d :
  snd (FunctionJs.validateForm d) = false ->
  exists i, hasClass (lit "invalid") i (fst (FunctionJs.validateForm d))
            = true.
Proof.
  rewrite FunctionJs_verdict.
  unfold FunctionJs_checks, FunctionJs.requiredFields, FunctionJs.phoneFields.
  cbn [map app forallb]. intros H.
  repeat match type of H with
         | ?ok d && _ = false =>
             let E := fresh "E" in
             destruct (ok d) eqn:E; cbn [andb] in H
         end; try discriminate.
  - failed_at 6%nat marks_FunctionJs_checkURL optionalOK_shape
                    (optionalOK_present (lit "url") isValidURL).
  - failed_at 5%nat marks_FunctionJs_checkPhone optionalOK_shape
                    (optionalOK_present (lit "mobile") isValidPhone).
  - failed_at 4%nat marks_FunctionJs_checkPhone optionalOK_shape
                    (optionalOK_present (lit "phone") isValidPhone).
  - failed_at 3%nat marks_FunctionJs_checkRequired requiredOK_shape
                    requiredOK_present.
  - failed_at 2%nat marks_FunctionJs_checkRequired requiredOK_shape
                    requiredOK_present.
  - failed_at 1%nat marks_FunctionJs_checkRequired requiredOK_shape
                    requiredOK_present.
  - failed_at 0%nat marks_FunctionJs_checkRequired requiredOK_shape
                    requiredOK_present.
Qed.

Lemma findFrom_first P l : forall i0,
  (exists i e, l !! i = Some e /\ P e = true) ->
  exists j e, findFrom P i0 l = Some (i0 + j)%nat
              /\ l !! j = Some e /\ P e = true
              /\ forall k e', (k < j)%nat -> l !! k = Some e' -> P e' = false.
Proof.
  induction l as [| x l IH]; intros i0 (i & e & Hl & HP);
    [discriminate |].
  simpl. destruct (P x) eqn:Hx.
  - exists 0%nat, x. rewrite Nat.add_0_r.
    repeat split; auto. intros k e' Hk. lia.
  - destruct i as [| i]; [simpl in Hl; congruence |].
    destruct (IH (S i0) (ex_intro _ i (ex_intro _ e (conj Hl HP))))
      as (j & e1 & Hf & Hj & HPj & Hmin).
    exists (S j), e1. replace (i0 + S j)%nat with (S i0 + j)%nat by lia.
    repeat split; auto.
    intros [| k] e' Hk Hl'; simpl in Hl'; [congruence |].
    apply (Hmin k e'); [lia | exact Hl'].
Qed.

Lemma querySelectorClass_first c d :
  (exists i, hasClass c i d = true) ->
  exists j, querySelectorClass c d = Some j
            /\ hasClass c j d = true
            /\ forall k, (k < j)%nat -> hasClass c k d = false.
Proof.
  intros [i Hi]. unfold hasClass in Hi.
  destruct (fields d !! i) as [e |] eqn:He; [| discriminate].
  destruct (findFrom_first (fun e => classList_contains c (classList e))
              (fields d) 0 (ex_intro _ i (ex_intro _ e (conj He Hi))))
    as (j & e1 & Hf & Hj & HP & Hmin).
  exists j. split; [exact Hf |]. unfold hasClass. rewrite Hj.
  split; [exact HP |]. intros k Hk.
  destruct (fields d !! k) as [e' |] eqn:Hk'; [| reflexivity].
  apply (Hmin k e' Hk Hk').
Qed.

(** *** Moving the focus in [function.js] *)

Lemma fields_clearFieldError i d :
  fields (FunctionJs.clearFieldError i d) =
  alter (set_classList (if truthy (trim (valueOf i d))
                        then classList_add (lit "valid")
                        else classList_remove (lit "valid"))) i
    (alter (set_classList (classList_remove (lit "invalid"))) i (fields d)).
Proof.
  unfold FunctionJs.clearFieldError.
  rewrite fields_writeErrorSpan, valueOf_alter_classList.
  destruct (truthy _); reflexivity.
Qed.

Ltac split_conditions :=
  repeat match goal with
         | |- context [if ?c then _ else _] => destruct c
         end.

Lemma sameRest_validateField k d :
  sameRest d (fst (FunctionJs.validateField k d)).
Proof.
  unfold FunctionJs.validateField. split_conditions; cbn [fst];
    auto using sameRest_setFieldError, sameRest_clearFieldError.
Qed.

Lemma sameRest_blur k d : sameRest d (blur k d).
Proof.
  unfold FunctionJs.blur, FunctionJs.blurListener.
  destruct (bool_decide _); [| apply sameRest_refl].
  destruct (_ || _); [apply sameRest_validateField | apply sameRest_refl].
Qed.

(** A blur event changes no control but the one that loses the focus. *)
Lemma blur_other k i d : i <> k -> fields (blur k d) !! i = fields d !! i.
Proof.
  intros Hne. unfold FunctionJs.blur, FunctionJs.blurListener.
  destruct (bool_decide _); [| reflexivity].
  destruct (_ || _); [| reflexivity].
  unfold FunctionJs.validateField. split_conditions; cbn [fst].
  1-4: match goal with
       | |- fields (FunctionJs.setFieldError ?j ?m ?x) !! _ = _ =>
           exact (proj1 (proj2 (local_setFieldError j m x)) i Hne)
       end.
  exact (proj1 (proj2 (local_clearFieldError k d)) i Hne).
Qed.

(** What a blur event does to the controls depends on the controls only. *)
Lemma fields_validateField k d d' :
  fields d = fields d' ->
  fields (fst (FunctionJs.validateField k d))
  = fields (fst (FunctionJs.validateField k d')).
Proof.
  intros H.
  assert (Hv : valueOf k d = valueOf k d') by (unfold valueOf; rewrite H; reflexivity).
  assert (Hr : isRequired k d = isRequired k d')
    by (unfold isRequired; rewrite H; reflexivity).
  assert (Ha : forall f, attrOf f k d = attrOf f k d')
    by (intros f; unfold attrOf; rewrite H; reflexivity).
  unfold FunctionJs.validateField. rewrite Hv, Hr, !Ha.
  split_conditions; cbn [fst];
    rewrite ?FunctionJsFacts.fields_setFieldError, ?fields_clearFieldError,
            ?Hv, ?H; reflexivity.
Qed.

Lemma fields_blur k d d' :
  fields d = fields d' -> fields (blur k d) = fields (blur k d').
Proof.
  intros H. unfold FunctionJs.blur, FunctionJs.blurListener,
    FunctionJs.blurFields.
  assert (Hv : valueOf k d = valueOf k d') by (unfold valueOf; rewrite H; reflexivity).
  assert (Hr : isRequired k d = isRequired k d')
    by (unfold isRequired; rewrite H; reflexivity).
  rewrite Hv, Hr, H. destruct (bool_decide _); [| exact H].
  destruct (_ || _); [apply fields_validateField |]; exact H.
Qed.

Lemma fields_focus j d d' :
  fields d = fields d' -> focused d = focused d' ->
  fields (FunctionJs.focus j d) = fields (FunctionJs.focus j d').
Proof.
  intros H Hf. unfold FunctionJs.focus. cbn [fields with_focus].
  rewrite Hf. destruct (focused d') as [old |]; [| exact H].
  destruct (Nat.eqb old j); [exact H | apply fields_blur; exact H].
Qed.

Lemma focus_other j k d :
  focused d <> Some k \/ k = j ->
  fields (FunctionJs.focus j d) !! k = fields d !! k.
Proof.
  intros Hk. unfold FunctionJs.focus. cbn [fields with_focus].
  destruct (focused d) as [old |]; [| reflexivity].
  destruct (Nat.eqb old j) eqn:E; [reflexivity |].
  apply blur_other. apply Nat.eqb_neq in E.
  destruct Hk as [Hk | ->]; congruence.
Qed.

Lemma sameRest_focus j d :
  formMessages (FunctionJs.focus j d) = formMessages d
  /\ submitButton (FunctionJs.focus j d) = submitButton d
  /\ focused (FunctionJs.focus j d) = Some j
  /\ scrolledTo (FunctionJs.focus j d) = scrolledTo d.
Proof.
  unfold FunctionJs.focus.
  cbn [formMessages submitButton focused scrolledTo with_focus].
  destruct (focused d) as [old |]; [| auto].
  destruct (Nat.eqb old j); [auto |].
  destruct (sameRest_blur old d) as (_ & R1 & R2 & _ & R4 & _). auto.
Qed.

(** X16: a submit that [validateForm] rejects.  The handler moves the view
    and the focus to the first control in document order that
    [validateForm] left with the class [invalid] (there is one).  Moving
    the focus makes the control that had it, if it is another one, lose
    it, and the blur listener of that control validates it once more: the
    controls end up as [validateForm] left them except for what that
    listener does, so only the control that lost the focus can differ, and
    the control that is focused still carries [invalid].  The error text
    is shown in the message box if the page has one, and the submit button
    is not touched. *)
Theorem handleFormSubmit_rejected d e :
  snd (FunctionJs.validateForm d) = false ->
  exists j,
    querySelectorClass (lit "invalid") (fst (FunctionJs.validateForm d))
    = Some j
    /\ (forall k, (k < j)%nat ->
          hasClass (lit "invalid") k (fst (FunctionJs.validateForm d))
          = false)
    /\ focused (fst (fst (FunctionJs.handleFormSubmit d e))) = Some j
    /\ scrolledTo (fst (fst (FunctionJs.handleFormSubmit d e)))
       = Some (TField j)
    /\ fields (fst (fst (FunctionJs.handleFormSubmit d e)))
       = fields (FunctionJs.focus j (fst (FunctionJs.validateForm d)))
    /\ (forall k, focused d <> Some k \/ k = j ->
          fields (fst (fst (FunctionJs.handleFormSubmit d e))) !! k
          = fields (fst (FunctionJs.validateForm d)) !! k)
    /\ hasClass (lit "invalid") j
         (fst (fst (FunctionJs.handleFormSubmit d e))) = true
    /\ formMessages (fst (fst (FunctionJs.handleFormSubmit d e)))
       = match formMessages d with
         | Some _ =>
             Some {| textContent :=
                       lit "Please correct the errors below and try again.";
                     className := lit "form-messages error";
                     display := lit "block" |}
         | None => None
         end
    /\ submitButton (fst (fst (FunctionJs.handleFormSubmit d e)))
       = submitButton d.
Proof.
  intros Hv.
  destruct (FunctionJs_invalid_exists d Hv) as [i Hi].
  destruct (FunctionJs_validateForm_rest_lemma d) as (R1 & R2 & R3 & _).
  unfold FunctionJs.handleFormSubmit.
  assert (Hrun : exists b,
            FunctionJs.validateForm
              match formMessages d with
              | Some _ => FunctionJs.hideMessage d
              | None => d
              end
            = (with_formMessages b (fst (FunctionJs.validateForm d)), false)
            /\ (formMessages d = None <-> b = None)).
  { destruct (formMessages d) as [m |] eqn:Hm.
    - eexists. unfold FunctionJs.hideMessage. rewrite validateForm_lift.
      unfold lift. rewrite Hv. split; [reflexivity |].
      split; discriminate.
    - exists None. split; [| tauto].
      destruct (FunctionJs.validateForm d) as [d2 v] eqn:E.
      cbn [fst snd] in *. subst v. f_equal.
      destruct d2. cbn in R1. subst. reflexivity. }
  destruct Hrun as (b & -> & Hb). cbn [negb].
  set (dv := fst (FunctionJs.validateForm d)) in *.
  set (d2 := with_formMessages b dv).
  set (d3 := match formMessages d2 with
             | Some _ => FunctionJs.showMessage (lit "error")
                 (lit "Please correct the errors below and try again.") d2
             | None => d2
             end).
  assert (Hf3 : fields d3 = fields dv)
    by (unfold d3; destruct (formMessages d2); reflexivity).
  assert (Hb3 : submitButton d3 = submitButton d)
    by (unfold d3; destruct (formMessages d2); exact R2).
  assert (Ho3 : focused d3 = focused dv)
    by (unfold d3; destruct (formMessages d2); reflexivity).
  assert (Hm3 : formMessages d3
                = match formMessages d with
                  | Some _ =>
                      Some {| textContent :=
                                lit "Please correct the errors below and try again.";
                              className := lit "form-messages error";
                              display := lit "block" |}
                  | None => None
                  end).
  { unfold d3, d2. cbn [formMessages with_formMessages].
    destruct b as [m |], (formMessages d) as [m' |]; try reflexivity.
    - exfalso. destruct Hb as [Hb _]. discriminate (Hb eq_refl).
    - exfalso. destruct Hb as [_ Hb]. discriminate (Hb eq_refl). }
  destruct (querySelectorClass_first _ _ (ex_intro _ i Hi))
    as (j & Hq & Hj & Hmin).
  assert (Hq3 : querySelectorClass (lit "invalid") d3 = Some j)
    by (unfold querySelectorClass in *; rewrite Hf3; exact Hq).
  rewrite Hq3. cbn [fst]. exists j.
  set (d4 := with_scroll (TField j) d3).
  assert (Hfields : fields (FunctionJs.focus j d4)
                    = fields (FunctionJs.focus j dv))
    by (apply fields_focus; [exact Hf3 | exact Ho3]).
  assert (Hother : forall k, focused d <> Some k \/ k = j ->
            fields (FunctionJs.focus j d4) !! k = fields dv !! k).
  { intros k Hk. rewrite Hfields. apply focus_other.
    rewrite R3. exact Hk. }
  destruct (sameRest_focus j d4) as (F1 & F2 & F3 & F4).
  split; [exact Hq |]. split; [exact Hmin |]. split; [exact F3 |].
  split; [rewrite F4; reflexivity |]. split; [exact Hfields |].
  split; [exact Hother |]. split.
  - unfold hasClass in *. rewrite (Hother j (or_intror eq_refl)). exact Hj.
  - split; [rewrite F1; exact Hm3 | rewrite F2; exact Hb3].
Qed.

Lemma handleFormSubmit_rejected_witness :
  snd (FunctionJs.validateForm docFocusedPhone) = false
  /\ focused docFocusedPhone = Some 1%nat
  /\ hasClass (lit "invalid") 1 (fst (FunctionJs.validateForm docFocusedPhone))
     = true
  /\ hasClass (lit "invalid") 1
       (fst (fst (FunctionJs.handleFormSubmit docFocusedPhone
                    {| defaultPrevented := false |}))) = false
  /\ exists j,
       focused (fst (fst (FunctionJs.handleFormSubmit docFocusedPhone
                            {| defaultPrevented := false |}))) = Some j
       /\ hasClass (lit "invalid") j
            (fst (fst (FunctionJs.handleFormSubmit docFocusedPhone
                         {| defaultPrevented := false |}))) = true.
Proof.
  assert (H : snd (FunctionJs.validateForm docFocusedPhone) = false)
    by (vm_compute; reflexivity).
  split; [exact H |]. split; [reflexivity |].
  split; [vm_compute; reflexivity |]. split; [vm_compute; reflexivity |].
  destruct (handleFormSubmit_rejected docFocusedPhone
              {| defaultPrevented := false |} H)
    as (j & _ & _ & Hf & _ & _ & _ & Hj & _).
  exists j. split; [exact Hf | exact Hj].
Defined.









(** X19: a form that holds none of the seven controls passes: in both
    scripts [validateForm] returns [true] and leaves the document as it
    is. *)
Theorem validateForm_no_controls d :
  (forall n, n ∈ validatedNames -> querySelectorName n d = None) ->
  FunctionJs.validateForm d = (d, true)
  /\ InlineStyle.validateForm d = (d, true).
Proof.
  intros H.
  assert (Hn : forall n, existsb (jsstring_eqb n) validatedNames = true ->
                         querySelectorName n d = None)
    by (intros n Hb; apply H, validated_name, Hb).
  split.
  - unfold FunctionJs.validateForm, FunctionJs.requiredFields,
      FunctionJs.phoneFields, FunctionJs.checkRequired,
      FunctionJs.checkPhone, FunctionJs.checkURL.
    cbn [fold_left FunctionJs.fname].
    rewrite !Hn by (vm_compute; reflexivity). reflexivity.
  - unfold InlineStyle.validateForm, InlineStyle.requiredFields,
      InlineStyle.checkRequired, InlineStyle.checkFormat.
    cbn [fold_left InlineStyle.fname].
    rewrite !Hn by (vm_compute; reflexivity). reflexivity.
Qed.

Lemma validateForm_no_controls_witness :
  (forall n, n ∈ validatedNames ->
             querySelectorName n (document [] ∅) = None)
  /\ (FunctionJs.validateForm (document [] ∅) = (document [] ∅, true)
      /\ InlineStyle.validateForm (document [] ∅) = (document [] ∅, true)).
Proof.
  split; [intros n _; reflexivity |].
  apply (validateForm_no_controls (document [] ∅)). intros n _. reflexivity.
Defined.

(** ** The debounced e-mail check, further *)
Module DebounceMore.
Import Debounce.
Local Open Scope Z_scope.



End DebounceMore.

(** ** [isValidURL] on [host:port] *)
Module URLFacts.
Import URL.

Lemma dropWhileC0_visible s :
  Forall (fun c => 32 < c) s -> dropWhileC0 s = s.
Proof.
  intros H. destruct H as [| c s Hc _]; [reflexivity |]. simpl.
  unfold isC0OrSpace. replace (c <=? 32) with false; [reflexivity |].
  symmetry. apply N.leb_gt. exact Hc.
Qed.

Lemma stripInput_visible s :
  Forall (fun c => 32 < c) s -> stripInput s = s.
Proof.
  intros H. unfold stripInput.
  rewrite (dropWhileC0_visible s H).
  rewrite (dropWhileC0_visible (rev s)) by (apply Forall_rev; exact H).
  rewrite rev_involutive.
  induction H as [| c s Hc _ IH]; [reflexivity |].
  rewrite filter_cons_True; [rewrite IH; reflexivity |].
  unfold isTabOrNewline.
  repeat (apply orb_false_intro); apply N.eqb_neq; lia.
Qed.

Lemma alpha_bounds c :
  isAsciiAlpha c = true -> (65 <= c <= 90) \/ (97 <= c <= 122).
Proof.
  unfold isAsciiAlpha. rewrite orb_true_iff, !andb_true_iff, !N.leb_le. tauto.
Qed.

Lemma digit_bounds c : isDigit c = true -> 48 <= c <= 57.
Proof. unfold isDigit. rewrite andb_true_iff, !N.leb_le. tauto. Qed.

Lemma schemeState_letters h : forall buffer p,
  Forall (fun c => isAsciiAlpha c = true) h ->
  schemeState buffer (h ++ 58 :: p) = Some (buffer ++ map toLower h, p).
Proof.
  induction h as [| c h IH]; intros buffer p H.
  - simpl. rewrite app_nil_r. reflexivity.
  - apply Forall_cons in H as [Hc H]. simpl.
    unfold isAsciiAlnum. rewrite Hc, orb_true_r. cbn [orb].
    rewrite (IH _ p H), <- app_assoc. reflexivity.
Qed.

Lemma eqb_snoc x y c :
  jsstring_eqb (x ++ [c]) (y ++ [c]) = jsstring_eqb x y.
Proof.
  apply eq_true_iff_eq. rewrite !jsstring_eqb_eq. split.
  - intros H. apply app_inj_tail in H as [H _]. exact H.
  - intros ->. reflexivity.
Qed.

Lemma isSpecial_false_http sch :
  isSpecial sch = false ->
  jsstring_eqb sch (lit "file") = false
  /\ jsstring_eqb sch (lit "http") = false
  /\ jsstring_eqb sch (lit "https") = false.
Proof.
  unfold isSpecial. cbn [existsb].
  rewrite !orb_false_iff. tauto.
Qed.

(** X21: an input of the shape [host:port], a host name of ASCII letters
    that is not the name of a special scheme followed by a colon and
    digits, is rejected: the constructor reads the host as a scheme, so it
    does not throw, no [https://] is tried, and the protocol is neither
    [http:] nor [https:]. *)
Theorem isValidURL_host_port h p :
  h <> [] ->
  Forall (fun c => isAsciiAlpha c = true) h ->
  isSpecial (map toLower h) = false ->
  Forall (fun c => isDigit c = true) p ->
  isValidURL (h ++ 58 :: p) = false
  /\ URL_attempts (h ++ 58 :: p) = [h ++ 58 :: p].
Proof.
  intros Hne Hh Hsp Hp.
  assert (Hvis : Forall (fun c => 32 < c) (h ++ 58 :: p)).
  { apply Forall_app. split; [| apply Forall_cons; split; [lia |]].
    - eapply Forall_impl; [exact Hh |]. intros c Hc.
      apply alpha_bounds in Hc. lia.
    - eapply Forall_impl; [exact Hp |]. intros c Hc.
      apply digit_bounds in Hc. lia. }
  assert (Hparse : parse (h ++ 58 :: p) = Some {| scheme := map toLower h |}).
  { unfold parse. rewrite (stripInput_visible _ Hvis).
    destruct h as [| c h]; [congruence |].
    apply Forall_cons in Hh as [Hc Hh]. cbn [app]. rewrite Hc.
    rewrite (schemeState_letters h [toLower c] p Hh).
    change ([toLower c] ++ map toLower h) with (map toLower (c :: h)).
    destruct (isSpecial_false_http _ Hsp) as (-> & _). rewrite Hsp.
    destruct Hp as [| x p Hx _]; [reflexivity |].
    apply digit_bounds in Hx.
    destruct (N.eqb_spec x 47) as [-> | _]; [lia |].
    destruct x as [| x]; [lia |].
    repeat (destruct x as [x | x |]; try reflexivity; try lia). }
  unfold isValidURL, URL_attempts, isValidURL_run. rewrite Hparse.
  cbn [fst snd]. split; [| reflexivity].
  unfold protocol. cbn [scheme].
  change (lit "http:") with (lit "http" ++ [58]).
  change (lit "https:") with (lit "https" ++ [58]).
  rewrite !eqb_snoc.
  destruct (isSpecial_false_http _ Hsp) as (_ & -> & ->). reflexivity.
Qed.

Lemma isValidURL_host_port_witness :
  (lit "localhost" <> []
   /\ Forall (fun c => isAsciiAlpha c = true) (lit "localhost")
   /\ isSpecial (map toLower (lit "localhost")) = false
   /\ Forall (fun c => isDigit c = true) (lit "3000"))
  /\ (isValidURL (lit "localhost:3000") = false
      /\ URL_attempts (lit "localhost:3000") = [lit "localhost:3000"]).
Proof.
  assert (H1 : lit "localhost" <> []) by (vm_compute; discriminate).
  assert (H2 : Forall (fun c => isAsciiAlpha c = true) (lit "localhost"))
    by (vm_compute; repeat constructor).
  assert (H3 : isSpecial (map toLower (lit "localhost")) = false)
    by (vm_compute; reflexivity).
  assert (H4 : Forall (fun c => isDigit c = true) (lit "3000"))
    by (vm_compute; repeat constructor).
  split; [auto |].
  apply (isValidURL_host_port (lit "localhost") (lit "3000") H1 H2 H3 H4).
Defined.

End URLFacts.

(** ** Blur validation of the second script *)

Lemma attached_self n i d :
  querySelectorName n d = Some i -> attached n i d = true.
Proof. unfold attached. intros ->. apply Nat.eqb_refl. Qed.

Lemma attached_other n n' i d :
  querySelectorName n d = Some i -> n' <> n -> attached n' i d = false.
Proof.
  intros Hq Hne. unfold attached.
  destruct (querySelectorName n' d) as [j |] eqn:Hq'; [| reflexivity].
  apply Nat.eqb_neq.
  apply (querySelectorName_distinct n' n d j i Hq' Hq Hne).
Qed.

Lemma requiredBlur_shape i d :
  shape (if isRequired i d then requiredBlur i d else d) = shape d.
Proof.
  destruct (isRequired i d); [| reflexivity]. unfold requiredBlur.
  destruct (negb _).
  - destruct (local_markInvalid i
                (getFieldLabel i d ++ lit " is required") d) as [H _].
    exact H.
  - destruct (local_markValid i d) as [H _]. exact H.
Qed.

(** X22: in the second script, when the [email], [phone], [mobile] or
    [url] control loses focus with a value that is not empty once trimmed
    and that its validator rejects as typed, it ends up with the red
    border and its format message, also when it is a required control:
    the listener for required controls runs first and marks it valid, the
    format listener runs after it. *)
Theorem blurInline_format_error n valid message d i :
  (n, valid, message) ∈ formatListeners ->
  querySelectorName n d = Some i ->
  truthy (trim (valueOf i d)) = true ->
  valid (valueOf i d) = false ->
  attrOf borderColor i (blurInline i d) = lit "#dc3545"
  /\ attrOf backgroundColor i (blurInline i d) = lit "#fff5f5"
  /\ errorSpanOf i (blurInline i d) = Some message.
Proof.
  intros Hin Hq Ht Hv.
  set (d1 := if isRequired i d then requiredBlur i d else d).
  assert (S1 : shape d1 = shape d) by apply requiredBlur_shape.
  assert (Hres : blurInline i d = InlineStyle.markInvalid i message d1).
  { assert (Hfb : formatBlur valid message i d1
                  = InlineStyle.markInvalid i message d1).
    { unfold formatBlur. rewrite (valueOf_shape i d1 d S1), Ht, Hv.
      reflexivity. }
    unfold blurInline, formatListeners in *. fold d1.
    repeat (apply elem_of_cons in Hin as [Hin | Hin]);
      [injection Hin as -> -> -> .. | inversion Hin];
      rewrite (attached_self _ i d Hq);
      rewrite ?(attached_other _ _ i d Hq)
        by (vm_compute; discriminate);
      exact Hfb. }
  rewrite Hres.
  destruct (querySelectorName_Some _ _ _ Hq) as (e & He & _).
  assert (He1 : is_Some (fields d1 !! i)).
  { assert (X : shape d1 !! i = shape d !! i) by (rewrite S1; reflexivity).
    rewrite !shape_lookup, He in X. destruct (fields d1 !! i); eauto.
    discriminate. }
  destruct (style_markInvalid i message d1 He1) as [Hb Hg].
  split; [exact Hb |]. split; [exact Hg |].
  destruct (parentOf_is_Some i d1 He1) as [p Hp].
  rewrite (errorSpanOf_parentOf i _ p).
  - apply errorSpans_markInvalid. exact Hp.
  - destruct (local_markInvalid i message d1) as [Sm _].
    rewrite (parentOf_shape i _ d1 Sm). exact Hp.
Qed.

Lemma blurInline_format_error_witness :
  ((lit "email", isValidEmail, lit "Please enter a valid email address")
     ∈ formatListeners
   /\ querySelectorName (lit "email") docRequiredEmail = Some 0%nat
   /\ truthy (trim (valueOf 0 docRequiredEmail)) = true
   /\ isValidEmail (valueOf 0 docRequiredEmail) = false)
  /\ isRequired 0 docRequiredEmail = true
  /\ (attrOf borderColor 0 (blurInline 0 docRequiredEmail) = lit "#dc3545"
      /\ attrOf backgroundColor 0 (blurInline 0 docRequiredEmail)
         = lit "#fff5f5"
      /\ errorSpanOf 0 (blurInline 0 docRequiredEmail)
         = Some (lit "Please enter a valid email address")).
Proof.
  assert (H1 : (lit "email", isValidEmail,
                lit "Please enter a valid email address") ∈ formatListeners)
    by left.
  assert (H2 : querySelectorName (lit "email") docRequiredEmail = Some 0%nat)
    by (vm_compute; reflexivity).
  assert (H3 : truthy (trim (valueOf 0 docRequiredEmail)) = true)
    by (vm_compute; reflexivity).
  assert (H4 : isValidEmail (valueOf 0 docRequiredEmail) = false)
    by (vm_compute; reflexivity).
  split; [auto |]. split; [reflexivity |].
  apply (blurInline_format_error _ _ _ docRequiredEmail 0 H1 H2 H3 H4).
Defined.

(** ** Submission in the second script *)

Lemma presentOK_failed f d :
  presentOK f d = false ->
  exists i, querySelectorName (InlineStyle.fname f) d = Some i
            /\ truthy (trim (valueOf i d)) = false.
Proof.
  unfold presentOK. destruct (querySelectorName _ d); [eauto | discriminate].
Qed.

Lemma formatOK_failed n valid d :
  formatOK n valid d = false ->
  exists i, querySelectorName n d = Some i
            /\ truthy (trim (valueOf i d)) && negb (valid (valueOf i d))
               = true.
Proof.
  unfold formatOK. destruct (querySelectorName _ d); [| discriminate].
  intros H. apply negb_false_iff in H. eauto.
Qed.

Lemma InlineStyle_failing_format pre n valid m post d :
  InlineStyle_steps
  = pre ++ {| sname := n; needsValue := true;
              sfun := InlineStyle.checkFormat n valid m |} :: post ->
  forallb (fun s' => negb (jsstring_eqb (sname s') n)) post = true ->
  formatOK n valid d = false ->
  exists i, attrOf borderColor i (fst (InlineStyle.validateForm d))
            = lit "#dc3545".
Proof.
  intros HL Hpost Hok.
  destruct (formatOK_failed n valid d Hok) as (i & Hq & Hc). exists i.
  rewrite InlineStyle_validateForm_steps.
  destruct (step_result _ pre _ post d i HL framed_InlineStyle_steps Hq Hpost)
    as [S0 F].
  unfold attrOf. rewrite F. cbn [sfun].
  destruct (run_steps pre (d, true)) as [d0 v0]. cbn [fst] in *.
  unfold InlineStyle.checkFormat.
  rewrite (querySelectorName_shape _ d0 d S0), Hq.
  rewrite (valueOf_shape i d0 d S0), Hc. cbn [fst].
  assert (He0 : is_Some (fields d0 !! i)).
  { destruct (querySelectorName_Some _ _ _ Hq) as (e & He & _).
    assert (X : shape d0 !! i = shape d !! i) by (rewrite S0; reflexivity).
    rewrite !shape_lookup, He in X. destruct (fields d0 !! i); eauto.
    discriminate. }
  apply (style_markInvalid i m d0 He0).
Qed.

Lemma InlineStyle_failing_required pre f post d :
  InlineStyle_steps
  = pre ++ {| sname := InlineStyle.fname f; needsValue := false;
              sfun := InlineStyle.checkRequired f |} :: post ->
  forallb (fun s' => existsb (jsstring_eqb (sname s')) validatedNames
                     && (negb (jsstring_eqb (sname s') (InlineStyle.fname f))
                         || needsValue s')) post = true ->
  presentOK f d = false ->
  exists i, attrOf borderColor i (fst (InlineStyle.validateForm d))
            = lit "#dc3545".
Proof.
  intros HL Hpost Hok.
  destruct (presentOK_failed f d Hok) as (i & Hq & Hb). exists i.
  apply (InlineStyle_empty_required pre f post d i HL Hpost Hq Hb).
Qed.

Ltac red_required k :=
  eapply (InlineStyle_failing_required (firstn k InlineStyle_steps) _
            (skipn (S k) InlineStyle_steps));
  [reflexivity | vm_compute; reflexivity | eassumption].

Ltac red_format k :=
  eapply (InlineStyle_failing_format (firstn k InlineStyle_steps) _ _ _
            (skipn (S k) InlineStyle_steps));
  [reflexivity | vm_compute; reflexivity | eassumption].

(** When [validateForm] of the second script returns [false], some control
    is left with the red border. *)
Lemma InlineStyle_red_exists d :
  snd (InlineStyle.validateForm d) = false ->
  exists i, attrOf borderColor i (fst (InlineStyle.validateForm d))
            = lit "#dc3545".
Proof.
  rewrite InlineStyle_verdict.
  unfold InlineStyle_checks, InlineStyle.requiredFields.
  cbn [map app forallb]. intros H.
  repeat match type of H with
         | ?ok d && _ = false =>
             let E := fresh "E" in
             destruct (ok d) eqn:E; cbn [andb] in H
         end; try discriminate.
  - red_format 7%nat.
  - red_format 6%nat.
  - red_format 5%nat.
  - red_format 4%nat.
  - red_required 3%nat.
  - red_required 2%nat.
  - red_required 1%nat.
  - red_required 0%nat.
Qed.

(** *** Moving the focus in the second script *)

Lemma sameOutside_refl d : sameOutside d d.
Proof. unfold sameOutside. auto. Qed.

Lemma sameOutside_trans d1 d2 d3 :
  sameOutside d1 d2 -> sameOutside d2 d3 -> sameOutside d1 d3.
Proof.
  intros (A1 & A2 & A3 & A4) (B1 & B2 & B3 & B4).
  unfold sameOutside. repeat split; congruence.
Qed.

Lemma fields_markInvalid i m d :
  fields (InlineStyle.markInvalid i m d)
  = alter (set_style (lit "#dc3545") (lit "#fff5f5")) i (fields d).
Proof.
  unfold InlineStyle.markInvalid. cbv zeta.
  destruct (fields (with_fields _ d) !! i); reflexivity.
Qed.

Lemma fields_markValid i d :
  fields (InlineStyle.markValid i d)
  = alter (set_style (lit "#28a745") (lit "#ffffff")) i (fields d).
Proof.
  unfold InlineStyle.markValid. rewrite fields_writeErrorSpan. reflexivity.
Qed.

Lemma sameOutside_markInvalid i m d :
  sameOutside d (InlineStyle.markInvalid i m d).
Proof.
  unfold InlineStyle.markInvalid, sameOutside. cbv zeta.
  destruct (fields (with_fields _ d) !! i); cbn; auto.
Qed.

Lemma sameOutside_markValid i d : sameOutside d (InlineStyle.markValid i d).
Proof.
  unfold InlineStyle.markValid, sameOutside.
  destruct (rest_writeErrorSpan i []
              (with_fields
                 (alter (set_style (lit "#28a745") (lit "#ffffff")) i
                        (fields d)) d))
    as (-> & -> & -> & ->).
  auto.
Qed.

Lemma sameOutside_requiredBlur i d : sameOutside d (requiredBlur i d).
Proof.
  unfold InlineStyle.requiredBlur.
  destruct (negb _);
    [apply sameOutside_markInvalid | apply sameOutside_markValid].
Qed.

Lemma sameOutside_formatBlur valid m i d :
  sameOutside d (formatBlur valid m i d).
Proof.
  unfold InlineStyle.formatBlur.
  destruct (_ && _); [apply sameOutside_markInvalid |].
  destruct (truthy _); [apply sameOutside_markValid | apply sameOutside_refl].
Qed.

Lemma sameOutside_blurInline i d : sameOutside d (blurInline i d).
Proof.
  unfold InlineStyle.blurInline. cbv zeta.
  repeat match goal with
         | |- context [if ?c then _ else _] =>
             match c with
             | isRequired _ _ => destruct c
             | attached _ _ _ => destruct c
             end
         end;
    repeat first
      [ apply sameOutside_refl
      | apply sameOutside_requiredBlur
      | eapply sameOutside_trans; [| apply sameOutside_formatBlur] ].
Qed.

Lemma sameOutside_InlineStyle_checkRequired f d v :
  sameOutside d (fst (InlineStyle.checkRequired f (d, v))).
Proof.
  unfold InlineStyle.checkRequired.
  destruct (querySelectorName _ d) as [i |]; [| apply sameOutside_refl].
  destruct (negb _);
    [apply sameOutside_markInvalid | apply sameOutside_markValid].
Qed.

Lemma sameOutside_InlineStyle_checkFormat n valid m d v :
  sameOutside d (fst (InlineStyle.checkFormat n valid m (d, v))).
Proof.
  unfold InlineStyle.checkFormat.
  destruct (querySelectorName _ d) as [i |]; [| apply sameOutside_refl].
  destruct (_ && _); [apply sameOutside_markInvalid | apply sameOutside_refl].
Qed.

Lemma sameOutside_run_steps L :
  Forall (fun s => forall d v, sameOutside d (fst (sfun s (d, v)))) L ->
  forall d v, sameOutside d (fst (run_steps L (d, v))).
Proof.
  induction 1 as [| s L Hs _ IH]; intros d v; [apply sameOutside_refl |].
  change (run_steps (s :: L) (d, v)) with (run_steps L (sfun s (d, v))).
  specialize (Hs d v). destruct (sfun s (d, v)) as [d1 v1].
  eapply sameOutside_trans; [exact Hs | apply IH].
Qed.

Lemma sameOutside_InlineStyle_validateForm d :
  sameOutside d (fst (InlineStyle.validateForm d)).
Proof.
  rewrite InlineStyle_validateForm_steps. apply sameOutside_run_steps.
  unfold InlineStyle_steps, InlineStyle.requiredFields.
  cbn [map app].
  repeat (apply Forall_cons; split);
    try (apply Forall_nil; exact I);
    intros d0 v0; cbn [sfun];
    first [apply sameOutside_InlineStyle_checkRequired
          | apply sameOutside_InlineStyle_checkFormat].
Qed.

(** A blur event changes no control but the one that loses the focus. *)
Lemma requiredBlur_other k i d :
  i <> k -> fields (requiredBlur k d) !! i = fields d !! i.
Proof.
  intros Hne. unfold InlineStyle.requiredBlur. destruct (negb _).
  - exact (proj1 (proj2 (local_markInvalid k _ d)) i Hne).
  - exact (proj1 (proj2 (local_markValid k d)) i Hne).
Qed.

Lemma formatBlur_other valid m k i d :
  i <> k -> fields (formatBlur valid m k d) !! i = fields d !! i.
Proof.
  intros Hne. unfold InlineStyle.formatBlur. destruct (_ && _).
  - exact (proj1 (proj2 (local_markInvalid k m d)) i Hne).
  - destruct (truthy _); [| reflexivity].
    exact (proj1 (proj2 (local_markValid k d)) i Hne).
Qed.

Lemma blurInline_other k i d :
  i <> k -> fields (blurInline k d) !! i = fields d !! i.
Proof.
  intros Hne. unfold InlineStyle.blurInline. cbv zeta.
  repeat match goal with
         | |- context [if ?c then _ else _] =>
             match c with
             | isRequired _ _ => destruct c
             | attached _ _ _ => destruct c
             end
         end;
    rewrite ?formatBlur_other, ?requiredBlur_other by exact Hne;
    reflexivity.
Qed.

(** What a blur event does to the controls depends on the controls only. *)
Lemma fields_requiredBlur k d d' :
  fields d = fields d' ->
  fields (requiredBlur k d) = fields (requiredBlur k d').
Proof.
  intros H.
  assert (Hv : valueOf k d = valueOf k d')
    by (unfold valueOf; rewrite H; reflexivity).
  unfold InlineStyle.requiredBlur. rewrite Hv.
  destruct (negb _); rewrite ?fields_markInvalid, ?fields_markValid, H;
    reflexivity.
Qed.

Lemma fields_formatBlur valid m k d d' :
  fields d = fields d' ->
  fields (formatBlur valid m k d) = fields (formatBlur valid m k d').
Proof.
  intros H.
  assert (Hv : valueOf k d = valueOf k d')
    by (unfold valueOf; rewrite H; reflexivity).
  unfold InlineStyle.formatBlur. rewrite Hv.
  destruct (_ && _); [rewrite !fields_markInvalid, H; reflexivity |].
  destruct (truthy _); [rewrite !fields_markValid, H; reflexivity | exact H].
Qed.

Lemma fields_blurInline k d d' :
  fields d = fields d' -> fields (blurInline k d) = fields (blurInline k d').
Proof.
  intros H.
  assert (Hr : isRequired k d = isRequired k d')
    by (unfold isRequired; rewrite H; reflexivity).
  assert (Ha : forall n, attached n k d = attached n k d')
    by (intros n; unfold InlineStyle.attached, querySelectorName;
        rewrite H; reflexivity).
  unfold InlineStyle.blurInline. cbv zeta. rewrite Hr, !Ha.
  repeat match goal with
         | |- context [if ?c then _ else _] =>
             match c with
             | isRequired _ _ => destruct c
             | attached _ _ _ => destruct c
             end
         end;
    repeat first
      [ exact H
      | apply fields_requiredBlur
      | apply fields_formatBlur ].
Qed.

Lemma fields_focusInline j d d' :
  fields d = fields d' -> focused d = focused d' ->
  fields (InlineStyle.focus j d) = fields (InlineStyle.focus j d').
Proof.
  intros H Hf. unfold InlineStyle.focus. cbn [fields with_focus].
  rewrite Hf. destruct (focused d') as [old |]; [| exact H].
  destruct (Nat.eqb old j); [exact H | apply fields_blurInline; exact H].
Qed.

Lemma focusInline_other j k d :
  focused d <> Some k \/ k = j ->
  fields (InlineStyle.focus j d) !! k = fields d !! k.
Proof.
  intros Hk. unfold InlineStyle.focus. cbn [fields with_focus].
  destruct (focused d) as [old |]; [| reflexivity].
  destruct (Nat.eqb old j) eqn:E; [reflexivity |].
  apply blurInline_other. apply Nat.eqb_neq in E.
  destruct Hk as [Hk | ->]; congruence.
Qed.

Lemma rest_focusInline j d :
  formMessages (InlineStyle.focus j d) = formMessages d
  /\ submitButton (InlineStyle.focus j d) = submitButton d
  /\ focused (InlineStyle.focus j d) = Some j
  /\ scrolledTo (InlineStyle.focus j d) = scrolledTo d.
Proof.
  unfold InlineStyle.focus.
  cbn [formMessages submitButton focused scrolledTo with_focus].
  destruct (focused d) as [old |]; [| auto].
  destruct (Nat.eqb old j); [auto |].
  destruct (sameOutside_blurInline old d) as (R1 & R2 & _ & R4). auto.
Qed.

(** X23: a submit that [validateForm] of the second script rejects.  The
    listener prevents the default action, returns [false], and moves the
    view and the focus to the first control in document order that
    [validateForm] left with the red border (there is one).  Moving the
    focus makes the control that had it, if it is another one, lose it,
    and the blur listeners of that control run: the controls end up as
    [validateForm] left them except for what those listeners do, so only
    the control that lost the focus can differ, and the control that is
    focused still has the red border.  Message box and submit button are
    not touched. *)
Theorem submitListener_rejected d e :
  snd (InlineStyle.validateForm d) = false ->
  snd (InlineStyle.submitListener d e) = false
  /\ defaultPrevented (snd (fst (InlineStyle.submitListener d e))) = true
  /\ exists j,
       attrOf borderColor j (fst (InlineStyle.validateForm d))
       = lit "#dc3545"
       /\ (forall k, (k < j)%nat ->
             attrOf borderColor k (fst (InlineStyle.validateForm d))
             <> lit "#dc3545")
       /\ focused (fst (fst (InlineStyle.submitListener d e))) = Some j
       /\ scrolledTo (fst (fst (InlineStyle.submitListener d e)))
          = Some (TField j)
       /\ fields (fst (fst (InlineStyle.submitListener d e)))
          = fields (InlineStyle.focus j (fst (InlineStyle.validateForm d)))
       /\ (forall k, focused d <> Some k \/ k = j ->
             fields (fst (fst (InlineStyle.submitListener d e))) !! k
             = fields (fst (InlineStyle.validateForm d)) !! k)
       /\ attrOf borderColor j (fst (fst (InlineStyle.submitListener d e)))
          = lit "#dc3545"
       /\ formMessages (fst (fst (InlineStyle.submitListener d e)))
          = formMessages d
       /\ submitButton (fst (fst (InlineStyle.submitListener d e)))
          = submitButton d.
Proof.
  intros Hv. destruct (InlineStyle_red_exists d Hv) as [i Hi].
  destruct (sameOutside_InlineStyle_validateForm d) as (R1 & R2 & R3 & R4).
  unfold InlineStyle.submitListener.
  destruct (InlineStyle.validateForm d) as [d1 v] eqn:E.
  cbn [fst snd] in *. subst v. cbn [negb fst snd].
  split; [reflexivity |]. split; [reflexivity |].
  unfold InlineStyle.scrollToFirstError.
  unfold attrOf in Hi.
  destruct (fields d1 !! i) as [ei |] eqn:Hei;
    [| vm_compute in Hi; discriminate].
  destruct (findFrom_first
              (fun e => jsstring_eqb (borderColor e) (lit "#dc3545"))
              (fields d1) 0
              (ex_intro _ i (ex_intro _ ei
                 (conj Hei (proj2 (jsstring_eqb_eq _ _) Hi)))))
    as (j & ej & Hf & Hj & HP & Hmin).
  rewrite Hf. cbn [Nat.add]. exists j.
  set (d2 := with_scroll (TField j) d1).
  assert (Hfields : fields (InlineStyle.focus j d2)
                    = fields (InlineStyle.focus j d1))
    by (apply fields_focusInline; reflexivity).
  assert (Hother : forall k, focused d <> Some k \/ k = j ->
            fields (InlineStyle.focus j d2) !! k = fields d1 !! k).
  { intros k Hk. rewrite Hfields. apply focusInline_other.
    rewrite R3. exact Hk. }
  destruct (rest_focusInline j d2) as (F1 & F2 & F3 & F4).
  assert (Hred : attrOf borderColor j d1 = lit "#dc3545")
    by (unfold attrOf; rewrite Hj; apply jsstring_eqb_eq; exact HP).
  split; [exact Hred |]. split.
  { intros k Hk. unfold attrOf.
    destruct (fields d1 !! k) as [ek |] eqn:Hek;
      [| vm_compute; discriminate].
    intros Hr. apply jsstring_eqb_eq in Hr.
    rewrite (Hmin k ek Hk Hek) in Hr. discriminate. }
  split; [exact F3 |]. split; [rewrite F4; reflexivity |].
  split; [exact Hfields |]. split; [exact Hother |]. split.
  - unfold attrOf in *. rewrite (Hother j (or_intror eq_refl)). exact Hred.
  - split; [rewrite F1 | rewrite F2]; assumption.
Qed.

Lemma submitListener_rejected_witness :
  snd (InlineStyle.validateForm docFocusedValidPhone) = false
  /\ focused docFocusedValidPhone = Some 1%nat
  /\ attrOf borderColor 1 (fst (InlineStyle.validateForm docFocusedValidPhone))
     = []
  /\ attrOf borderColor 1
       (fst (fst (InlineStyle.submitListener docFocusedValidPhone
                    {| defaultPrevented := false |}))) = lit "#28a745"
  /\ snd (InlineStyle.submitListener docFocusedValidPhone
            {| defaultPrevented := false |}) = false
  /\ exists j,
       focused (fst (fst (InlineStyle.submitListener docFocusedValidPhone
                            {| defaultPrevented := false |}))) = Some j
       /\ attrOf borderColor j
            (fst (fst (InlineStyle.submitListener docFocusedValidPhone
                         {| defaultPrevented := false |}))) = lit "#dc3545".
Proof.
  assert (H : snd (InlineStyle.validateForm docFocusedValidPhone) = false)
    by (vm_compute; reflexivity).
  split; [exact H |]. split; [reflexivity |].
  split; [vm_compute; reflexivity |]. split; [vm_compute; reflexivity |].
  destruct (submitListener_rejected docFocusedValidPhone
              {| defaultPrevented := false |} H)
    as (R & _ & j & _ & _ & Hf & _ & _ & _ & Hj & _).
  split; [exact R |]. exists j. split; [exact Hf | exact Hj].
Defined.

(** ** The e-mail address in the two scripts *)



